(** * bear-js-cli: the footer reconciliation engine

    A shallow embedding of the footer code of the [create], [update-text]
    and [batch-update] commands: the identity marker, the footer builders,
    the footer stripper (four regular-expression replacements), and the
    command bodies that call the remote store and write files back. *)

From Stdlib Require Import String Ascii DecimalString.
From Stdlib Require Import List ZArith NArith Lia Bool Permutation.
Import ListNotations.

Set Implicit Arguments.

(** ** JavaScript strings

    A JavaScript string is a sequence of UTF-16 code units; the regular
    expressions of the source carry no [u] flag, so they work on code
    units. *)

Definition char : Type := N.
Definition jsstring : Type := list char.

Definition str (s : string) : jsstring :=
  map N_of_ascii (list_ascii_of_string s).

Definition LF : char := 10%N.

(** The character classes used by the source patterns. *)

(** [\n] *)
Definition isLF (c : char) : bool := N.eqb c 10.

(** [[^\n]] *)
Definition notLF (c : char) : bool := negb (N.eqb c 10).

(** [[A-F0-9-]] *)
Definition idChar (c : char) : bool :=
  (N.leb 65 c && N.leb c 70) || (N.leb 48 c && N.leb c 57) || N.eqb c 45.

(** [\s]: WhiteSpace and LineTerminator code units of ECMAScript. *)
Definition isSpace (c : char) : bool :=
  (N.leb 9 c && N.leb c 13) || N.eqb c 32 || N.eqb c 160 || N.eqb c 5760
  || (N.leb 8192 c && N.leb c 8202) || N.eqb c 8232 || N.eqb c 8233
  || N.eqb c 8239 || N.eqb c 8287 || N.eqb c 12288 || N.eqb c 65279.

(** ** Regular expressions

    The fragment of ECMAScript patterns that the source uses: literals,
    one-character classes, greedy [*] over a class, greedy [( )?], sequence
    and [$] (no [m] flag: end of input). There is no [^], no [\b] and no
    look-behind, so whether a pattern matches at a position depends only on
    the input from that position on. *)

Inductive regex : Type :=
| Lit (l : jsstring)
| Cls (p : char -> bool)
| Star (p : char -> bool)
| Opt (r : regex)
| Seq (r1 r2 : regex)
| Eos.

(** [p+] *)
Definition Plus (p : char -> bool) : regex := Seq (Cls p) (Star p).

Declare Scope regex_scope.
Delimit Scope regex_scope with re.
Bind Scope regex_scope with regex.
Notation "r1 >> r2" := (Seq r1 r2) (at level 61, right associativity) : regex_scope.

Fixpoint stripPrefix (l s : jsstring) : option jsstring :=
  match l with
  | [] => Some s
  | a :: l' =>
      match s with
      | [] => None
      | c :: s' => if N.eqb a c then stripPrefix l' s' else None
      end
  end.

(** Greedy repetition with backtracking: the longest run first, then
    shorter ones, each tried against the continuation. *)
Fixpoint starK (A : Type) (p : char -> bool) (k : jsstring -> option A)
  (s : jsstring) : option A :=
  match s with
  | c :: s' =>
      if p c then
        match starK p k s' with
        | Some a => Some a
        | None => k s
        end
      else k s
  | [] => k []
  end.

(** The backtracking matcher in continuation-passing style: [run r s k] tries
    the ways [r] can match a prefix of [s] in the priority order of the
    ECMAScript semantics and returns the answer of [k] on the rest of the
    input for the first way that [k] accepts. *)
Fixpoint run (A : Type) (r : regex) (s : jsstring)
  (k : jsstring -> option A) : option A :=
  match r with
  | Lit l =>
      match stripPrefix l s with
      | Some s' => k s'
      | None => None
      end
  | Cls p =>
      match s with
      | c :: s' => if p c then k s' else None
      | [] => None
      end
  | Star p => starK p k s
  | Opt r1 =>
      match run r1 s k with
      | Some a => Some a
      | None => k s
      end
  | Seq r1 r2 => run r1 s (fun m => run r2 m k)
  | Eos =>
      match s with
      | [] => k []
      | _ :: _ => None
      end
  end.

(** A match of [r] at the start of [s]: the input left after it. *)
Definition matchAt (r : regex) (s : jsstring) : option jsstring :=
  run r s (@Some jsstring).

(** [RegExp.prototype.exec] from index 0: the leftmost position at which the
    pattern matches, as (text before, matched text, text after). *)
Fixpoint exec (r : regex) (s : jsstring)
  : option (jsstring * jsstring * jsstring) :=
  match matchAt r s with
  | Some rest => Some ([], firstn (length s - length rest) s, rest)
  | None =>
      match s with
      | [] => None
      | c :: s' =>
          match exec r s' with
          | Some (b, m, a) => Some (c :: b, m, a)
          | None => None
          end
      end
  end.

(** [regex.test(s)] *)
Definition test (r : regex) (s : jsstring) : bool :=
  match exec r s with Some _ => true | None => false end.

(** [s.replace(r, repl)] for a pattern without the [g] flag; [repl] holds no
    [$] sequence in the source. *)
Definition replace (r : regex) (repl s : jsstring) : jsstring :=
  match exec r s with
  | Some (b, _, a) => b ++ repl ++ a
  | None => s
  end.

(** [s.replace(r, repl)] for a pattern with the [g] flag: every match from
    left to right, the search resuming after the previous match (one code
    unit further after an empty match). *)
Fixpoint replaceAllFuel (fuel : nat) (r : regex) (repl s : jsstring)
  : jsstring :=
  match fuel with
  | O => s
  | S fuel' =>
      match exec r s with
      | None => s
      | Some (b, [], []) => b ++ repl
      | Some (b, [], c :: a) => b ++ repl ++ c :: replaceAllFuel fuel' r repl a
      | Some (b, _ :: _, a) => b ++ repl ++ replaceAllFuel fuel' r repl a
      end
  end.

Definition replaceAll (r : regex) (repl s : jsstring) : jsstring :=
  replaceAllFuel (S (length s)) r repl s.

(** ** The identity marker and the patterns of the source *)

Definition markerOpen : jsstring := Eval cbv in str "<!-- Note ID: ".
Definition markerClose : jsstring := Eval cbv in str " -->".
Definition separator : jsstring := Eval cbv in LF :: LF :: str "---".
Definition createdTag : jsstring := Eval cbv in str "*Created:".
Definition updatedTag : jsstring := Eval cbv in str "*Last Updated:".

(** [`<!-- Note ID: ${noteId} -->`] *)
Definition idLine (noteId : jsstring) : jsstring :=
  markerOpen ++ noteId ++ markerClose.

(** [/<!-- Note ID: ([A-F0-9-]+) -->/] *)
Definition markerPattern : regex :=
  (Lit markerOpen >> Plus idChar >> Lit markerClose)%re.

(** Group 1 of [markerPattern] lies between two literals: it is the match
    without its first 14 and its last 4 code units. *)
Definition group1 (m : jsstring) : jsstring :=
  firstn (length m - length markerOpen - length markerClose)
    (skipn (length markerOpen) m).

(** [/\n\n---\n\*Created:[^\n]*\n(\*Last Updated:[^\n]*\n)?<!-- Note ID: [A-F0-9-]+ -->\s*$/] *)
Definition footerPattern : regex :=
  (Lit (separator ++ [LF]) >> Lit createdTag >> Star notLF >> Lit [LF] >>
   Opt (Lit updatedTag >> Star notLF >> Lit [LF]) >>
   Lit markerOpen >> Plus idChar >> Lit markerClose >> Star isSpace >> Eos)%re.

(** [/\n*<!-- Note ID: [A-F0-9-]+ -->\s*/g] *)
Definition strayMarkerPattern : regex :=
  (Star isLF >> Lit markerOpen >> Plus idChar >> Lit markerClose >>
   Star isSpace)%re.

(** [/\n\n---\s*$/g] *)
Definition separatorPattern : regex :=
  (Lit separator >> Star isSpace >> Eos)%re.

(** [/\n\n+$/g] *)
Definition newlinesPattern : regex :=
  (Lit [LF] >> Plus isLF >> Eos)%re.

(** The body of [detectNoteId], the same in every command. *)
Definition detectWith (r : regex) (content : jsstring) : option jsstring :=
  match exec r content with
  | Some (_, m, _) => Some (group1 m)
  | None => None
  end.

(** ** Dates and numbers

    [new Date()] is read once per footer; the text that
    [toLocaleString("en-US", options)] and [toLocaleDateString] produce comes
    from the runtime's locale data and is kept as given. *)

Record Date : Type := {
  toLocaleString : jsstring;
  toLocaleDateString : jsstring;
  getTimezoneOffset : Z
}.

(** [Number.prototype.toString] on an integer, as used by template
    literals and by [minutes.toString()]. *)
Definition numberToString (n : Z) : jsstring :=
  str (NilZero.string_of_int (Z.to_int n)).

(** [s.padStart(targetLength, fill)] *)
Definition padStart (targetLength : nat) (fill s : jsstring) : jsstring :=
  if (targetLength <=? length s)%nat then s
  else
    match fill with
    | [] => s
    | _ :: _ =>
        let fillLen := (targetLength - length s)%nat in
        firstn fillLen (concat (repeat fill fillLen)) ++ s
    end.

(** ** Effects

    The commands run sequentially ([await] on every remote call), so a run is
    a function of the state it starts in. The state of the outside world is
    the content of the files and the trace of what the command did; the
    remote store, the clock and the [path] library are given by [env]. *)

Definition path : Type := jsstring.

(** The fields a Bear response can carry ([NoteId], [NoteContents],
    [NotesResponse], the last with its [notes] already parsed). *)
Record response : Type := {
  identifier : jsstring;
  response_title : jsstring;
  note : jsstring;
  notes : list (jsstring * jsstring)
}.

(** A call [bearExec(action, params)]: the action and the parameters that
    carry a note's identity and body. The flags that are only passed through
    to the application (windows, pins, tags, timestamps) are not kept. *)
Record request : Type := {
  action : jsstring;
  reqId : option jsstring;
  reqTitle : option jsstring;
  reqText : option jsstring;
  reqMode : option jsstring;
  reqTerm : option jsstring
}.

(** The lines a command logs; the rule lines around a title and the lines
    of the batch summary are grouped with it. *)
Inductive message : Type :=
| MsgFlagsReceived | MsgArgsReceived
| MsgContentLoaded (resolved : path)
| MsgContentLength (n : nat)
| MsgContentPreview (s : jsstring)
| MsgFoundEmbeddedId (id : jsstring)
| MsgUpdatingInsteadOfCreating
| MsgCreatingNewNote
| MsgNoteCreated (id : jsstring)
| MsgAddingFooter
| MsgFooterAdded
| MsgUpdatingExisting (id : jsstring)
| MsgNoteUpdated
| MsgNoteId (id noteTitle : jsstring)
| MsgWrittenBack (resolved : path)
| MsgCouldNotWriteBack
| MsgUsingEmbeddedId (id : jsstring)
| MsgSearching (term : jsstring)
| MsgNoNotesFound (term : jsstring)
| MsgFoundNotes (n : nat)
| MsgSearchResult (index : nat) (noteTitle : jsstring)
| MsgAndMore (n : nat)
| MsgUsingFirstResult (noteTitle : jsstring)
| MsgFoundNote (noteTitle : jsstring)
| MsgCouldNotReadNote
| MsgMismatchEmbedded (detected : jsstring)
| MsgMismatchCurrent (id : jsstring)
| MsgIdsDontMatch
| MsgConsiderEmbedded
| MsgContinuingWithCurrent
| MsgConfirmedMatching
| MsgPreviewHeader | MsgRule | MsgPreview (s : jsstring)
| MsgUpdatingWithMode (mode : jsstring)
| MsgUpdatedWith (features : list jsstring)
| MsgUpdatedContentHeader
| MsgNoteContents (r : response)
| MsgUpdateCompleted
| MsgBatchStarting | MsgDirectory (d : path) | MsgRecursive (b : bool)
| MsgPattern (p : jsstring) | MsgMode (m : option jsstring)
| MsgWriteBack (b : bool) | MsgDryRun (b : bool)
| MsgNoFilesFound (p : jsstring)
| MsgFoundFiles (n : nat)
| MsgProcessing (file : path)
| MsgSkippingNoId
| MsgBatchNoteId (id : jsstring)
| MsgWouldUpdate (id : jsstring)
| MsgDoesNotExist (id : jsstring)
| MsgUpdatedInBear | MsgCreatedInBear | MsgUpdatedSourceFile
| MsgErrorProcessing (file : path)
| MsgSummary (processed total updated created skipped errors : nat)
| MsgAllProcessed
| MsgCompletedWithErrors (errors : nat).

(** What a run throws: [this.error], rejected promises, and the exceptions
    of [fs] and of [new RegExp]. *)
Inductive error : Type :=
| ErrContentFileNotFound (raw resolved : path)
| ErrReadingFile
| ErrAttachment
| ErrNoNoteSpecified
| ErrSearch
| ErrMissingArg
| ErrDirectoryNotFound (d : path)
| ErrNotADirectory (d : path)
| ErrBear (r : request)
| ErrIO (p : path)
| ErrListing (d : path) (pattern : jsstring).

Inductive event : Type :=
| Log (m : message)
| Warn (m : message)
| Call (r : request) (result : option response)
| FileWrite (p : path) (content : jsstring).

Record world : Type := {
  files : path -> option jsstring;
  trace : list event
}.

Record env : Type := {
  (** the remote store: the answer to a call, given what happened so far;
      [None] is a rejected promise *)
  bear : list event -> request -> option response;
  (** [new Date()] *)
  now : Date;
  (** what the process reads from a pipe on standard input *)
  pipe : jsstring;
  (** [process.env.HOME], [process.cwd()] and the [path] functions *)
  envHome : option jsstring;
  cwd : path;
  pathJoin : path -> path -> path;
  pathIsAbsolute : path -> bool;
  pathResolve : path -> path -> path;
  (** whether [fs.writeFileSync] succeeds on a path *)
  writable : path -> bool;
  (** directories, and the sorted result of [findMarkdownFiles]; [None]
      when it throws, because [new RegExp] rejects the pattern or
      [readdirSync] cannot list a directory *)
  dirExists : path -> bool;
  isDirectory : path -> bool;
  findMarkdownFiles : path -> bool -> jsstring -> option (list path)
}.

Inductive outcome (A : Type) : Type :=
| Ok (a : A)
| Thrown (e : error).
Arguments Thrown {A} e.

Definition M (S A : Type) : Type := S -> outcome A * S.

Definition ret (S A : Type) (a : A) : M S A := fun w => (Ok a, w).

Definition bind (S A B : Type) (c : M S A) (f : A -> M S B) : M S B :=
  fun w =>
    match c w with
    | (Ok a, w') => f a w'
    | (Thrown e, w') => (Thrown e, w')
    end.

Definition throw (S A : Type) (e : error) : M S A := fun w => (Thrown e, w).
Arguments ret {S A} a.
Arguments throw {S A} e.

(** [try { c } catch (error) { h error }]: what [c] did before it threw
    stays done. *)
Definition tryCatch (S A : Type) (c : M S A) (h : error -> M S A) : M S A :=
  fun w =>
    match c w with
    | (Ok a, w') => (Ok a, w')
    | (Thrown e, w') => h e w'
    end.

Declare Scope monad_scope.
Delimit Scope monad_scope with monad.
Notation "x <- c1 ;; c2" := (bind c1 (fun x => c2))
  (at level 61, c1 at next level, right associativity) : monad_scope.
Notation "c1 ;; c2" := (bind c1 (fun _ => c2))
  (at level 61, right associativity) : monad_scope.

(** A command with local variables of type [L] next to the world. *)
Definition liftW (L A : Type) (c : M world A) : M (L * world) A :=
  fun lw =>
    match c (snd lw) with
    | (o, w') => (o, (fst lw, w'))
    end.

Definition getLocal (L : Type) : M (L * world) L := fun lw => (Ok (fst lw), lw).
Definition setLocal (L : Type) (l : L) : M (L * world) unit :=
  fun lw => (Ok tt, (l, snd lw)).
Arguments liftW {L A} c.
Arguments getLocal {L}.

Definition emit (e : event) : M world unit :=
  fun w => (Ok tt, {| files := files w; trace := trace w ++ [e] |}).

(** [this.log(...)] and [this.warn(...)] *)
Definition log (m : message) : M world unit := emit (Log m).
Definition warn (m : message) : M world unit := emit (Warn m).

(** [await bearExec(action, params)] *)
Definition bearExec (E : env) (r : request) : M world response :=
  fun w =>
    let result := bear E (trace w) r in
    let w' := {| files := files w; trace := trace w ++ [Call r result] |} in
    match result with
    | Some resp => (Ok resp, w')
    | None => (Thrown (ErrBear r), w')
    end.

Definition jsstring_eqb (a b : jsstring) : bool :=
  if list_eq_dec N.eq_dec a b then true else false.

(** [fs.existsSync(p)] on a file *)
Definition existsSync (p : path) : M world bool :=
  fun w => (Ok (match files w p with Some _ => true | None => false end), w).

(** [fs.readFileSync(p, "utf8")] *)
Definition readFileSync (p : path) : M world jsstring :=
  fun w =>
    match files w p with
    | Some content => (Ok content, w)
    | None => (Thrown (ErrIO p), w)
    end.

(** [fs.writeFileSync(p, content, "utf8")] *)
Definition writeFileSync (E : env) (p : path) (content : jsstring)
  : M world unit :=
  fun w =>
    if writable E p then
      (Ok tt,
       {| files := fun q => if jsstring_eqb q p then Some content else files w q;
          trace := trace w ++ [FileWrite p content] |})
    else (Thrown (ErrIO p), w).

(** JavaScript truthiness of a string that may be [undefined]. *)
Definition truthy (o : option jsstring) : bool :=
  match o with
  | Some (_ :: _) => true
  | _ => false
  end.

(** [s.startsWith("~")] *)
Definition startsWithTilde (s : jsstring) : bool :=
  match s with
  | c :: _ => N.eqb c 126
  | [] => false
  end.

(** [process.env.HOME || d] *)
Definition homeOr (E : env) (d : jsstring) : jsstring :=
  if truthy (envHome E) then match envHome E with Some h => h | None => d end
  else d.

(** The path of a [--content-file] as the commands read it:
    [path.join(HOME || "", rawPath.slice(1))] after a leading [~]. *)
Definition resolveReadPath (E : env) (rawPath : path) : path :=
  let expandedPath :=
    if startsWithTilde rawPath then pathJoin E (homeOr E []) (tl rawPath)
    else rawPath in
  if pathIsAbsolute E expandedPath then expandedPath
  else pathResolve E (cwd E) expandedPath.

(** [GetSubstitution] of [String.prototype.replace] when the pattern is a
    string: in the replacement text [$$] gives [$], [$&] the text that was
    matched, [$`] the text before the match and [$'] the text after it;
    without capture groups any other [$] stands for itself. *)
Fixpoint getSubstitution (matched before after replacement : jsstring)
  : jsstring :=
  match replacement with
  | [] => []
  | c :: r =>
      if N.eqb c 36 then
        match r with
        | [] => [c]
        | d :: r' =>
            if N.eqb d 36 then 36%N :: getSubstitution matched before after r'
            else if N.eqb d 38 then
              matched ++ getSubstitution matched before after r'
            else if N.eqb d 96 then
              before ++ getSubstitution matched before after r'
            else if N.eqb d 39 then
              after ++ getSubstitution matched before after r'
            else c :: getSubstitution matched before after r
        end
      else c :: getSubstitution matched before after r
  end.

(** [s.replace(c, replacement)] for a pattern that is the one-character
    string [c]: the first [c] of [s] is replaced, [before] being what was
    read before it; a string without [c] is returned as it is. *)
Fixpoint replaceChar (c : char) (replacement before s : jsstring) : jsstring :=
  match s with
  | [] => before
  | x :: s' =>
      if N.eqb x c then before ++ getSubstitution [c] before s' replacement ++ s'
      else replaceChar c replacement (before ++ [x]) s'
  end.

(** The path as [writeBackToFile] and [resolvePath] compute it:
    [filePath.replace("~", HOME || "~")] after a leading [~]. *)
Definition resolveWritePath (E : env) (filePath : path) : path :=
  let expandedPath :=
    if startsWithTilde filePath then
      replaceChar 126%N (homeOr E [126%N]) [] filePath
    else filePath in
  if pathIsAbsolute E expandedPath then expandedPath
  else pathResolve E (cwd E) expandedPath.

(** [argsWithPipe(args, cmdArgs, required)] for a command with one
    argument: the argument as given, or else what the pipe holds. *)
Definition argsWithPipe (E : env) (received : option jsstring)
  (required : bool) : M world (option jsstring) :=
  if truthy received then ret received
  else
    match pipe E with
    | [] => if required then throw ErrMissingArg else ret received
    | _ :: _ => ret (Some (pipe E))
    end.

(** [x || ""] *)
Definition orEmpty (o : option jsstring) : jsstring :=
  match o with
  | Some x => x
  | None => []
  end.

(** [if (c) { body }] *)
Definition when (S : Type) (c : bool) (body : M S unit) : M S unit :=
  if c then body else ret tt.

(** [for (const x of xs) { body }] *)
Fixpoint forEach (S A : Type) (xs : list A) (body : A -> M S unit) : M S unit :=
  match xs with
  | [] => ret tt
  | x :: xs' => (body x ;; forEach xs' body)%monad
  end.

Definition mkRequest (act : string) (id ttl text mode term : option jsstring)
  : request :=
  {| action := str act; reqId := id; reqTitle := ttl; reqText := text;
     reqMode := mode; reqTerm := term |}.

Module Create.

(** [Create.detectNoteId] *)
Definition detectNoteId (content : jsstring) : option jsstring :=
  detectWith (Lit markerOpen >> Plus idChar >> Lit markerClose)%re content.

(** [Create.buildGMTOffset] *)
Definition buildGMTOffset (date : Date) : jsstring :=
  let offsetMinutes := (- getTimezoneOffset date)%Z in
  let sign := if (0 <=? offsetMinutes)%Z then str "+" else str "-" in
  let absOffset := Z.abs offsetMinutes in
  let hours := (absOffset / 60)%Z in
  let minutes := (absOffset mod 60)%Z in
  if (minutes =? 0)%Z then
    str "GMT" ++ sign ++ numberToString hours
  else
    str "GMT" ++ sign ++ numberToString hours ++ str ":"
      ++ padStart 2 (str "0") (numberToString minutes).

(** The local [formatDate] closure of the footer builders. *)
Definition formatDate (date : Date) : jsstring :=
  let formatted := toLocaleString date in
  let offset := buildGMTOffset date in
  formatted ++ str " " ++ offset.

(** [Create.buildNewNoteFooter]; [now] is its [new Date()]. *)
Definition buildNewNoteFooter (noteId : jsstring)
  (includeCreated includeId : bool) (now : Date) : jsstring :=
  let footer := separator in
  let footer :=
    if includeCreated then
      let createdLine := str "*Created: " ++ formatDate now ++ str "*" in
      footer ++ LF :: createdLine
    else footer in
  let footer :=
    if includeId then
      let idLine := markerOpen ++ noteId ++ markerClose in
      footer ++ LF :: idLine
    else footer in
  footer.

(** [Create.stripExistingFooter] *)
Definition stripExistingFooter (content : jsstring) : jsstring :=
  let cleaned := content in
  let footerPattern :=
    (Lit (separator ++ [LF]) >> Lit createdTag >> Star notLF >> Lit [LF] >>
     Opt (Lit updatedTag >> Star notLF >> Lit [LF]) >>
     Lit markerOpen >> Plus idChar >> Lit markerClose >>
     Star isSpace >> Eos)%re in
  let cleaned := replace footerPattern [] cleaned in
  let cleaned :=
    replaceAll (Star isLF >> Lit markerOpen >> Plus idChar >>
                Lit markerClose >> Star isSpace)%re [] cleaned in
  let cleaned :=
    replaceAll (Lit separator >> Star isSpace >> Eos)%re [] cleaned in
  let cleaned :=
    replaceAll (Lit [LF] >> Plus isLF >> Eos)%re [LF] cleaned in
  cleaned.

(** The footer that [Create.updateExistingNote] builds in line. *)
Definition updateFooter (noteId : jsstring) (creationDate addId : bool)
  (now : Date) : jsstring :=
  let footer := separator in
  let footer :=
    if creationDate then
      let createdLine := str "*Created: " ++ formatDate now ++ str "*" in
      let updatedLine := str "*Last Updated: " ++ formatDate now ++ str "*" in
      footer ++ LF :: createdLine ++ LF :: updatedLine
    else footer in
  let footer :=
    if addId then
      let idLine := markerOpen ++ noteId ++ markerClose in
      footer ++ LF :: idLine
    else footer in
  footer.

Record Flags : Type := {
  content_file : option path;
  file : option path;
  title : option jsstring;
  creation_date : bool;
  add_id : bool;
  write_back : bool
}.

(** [Create.writeBackToFile] *)
Definition writeBackToFile (E : env) (filePath : path) (content : jsstring)
  : M world unit :=
  tryCatch
    (let resolvedPath := resolveWritePath E filePath in
     writeFileSync E resolvedPath content ;;
     log (MsgWrittenBack resolvedPath))%monad
    (fun _ => log MsgCouldNotWriteBack).

(** [Create.updateExistingNote] *)
Definition updateExistingNote (E : env) (noteId content : jsstring)
  (flags : Flags) : M world unit :=
  (log (MsgUpdatingExisting noteId) ;;
   let enhancedContent := content in
   let enhancedContent :=
     if creation_date flags || add_id flags then
       stripExistingFooter enhancedContent
         ++ updateFooter noteId (creation_date flags) (add_id flags) (now E)
     else enhancedContent in
   bearExec E (mkRequest "add-text" (Some noteId) None (Some enhancedContent)
                 (Some (str "replace_all")) None) ;;
   when (write_back flags && truthy (content_file flags))
     (writeBackToFile E (orEmpty (content_file flags)) enhancedContent) ;;
   log MsgNoteUpdated ;;
   log (MsgNoteId noteId []))%monad.

(** [Create.run]; [cmdArgs] is the [text] argument of the command line. *)
Definition run (E : env) (flags : Flags) (cmdArgs : option jsstring)
  : M world unit :=
  (args <- argsWithPipe E cmdArgs false ;;
   text <-
     (if truthy (content_file flags) then
        tryCatch
          (let rawPath := orEmpty (content_file flags) in
           let resolvedPath := resolveReadPath E rawPath in
           found <- existsSync resolvedPath ;;
           (if negb found then throw (ErrContentFileNotFound rawPath resolvedPath)
            else ret tt) ;;
           content <- readFileSync resolvedPath ;;
           log (MsgContentLoaded resolvedPath) ;;
           ret (Some content))
          (fun _ => throw ErrReadingFile)
      else ret args) ;;
   let embeddedId :=
     if truthy text then detectNoteId (orEmpty text) else None in
   if truthy embeddedId then
     log (MsgFoundEmbeddedId (orEmpty embeddedId)) ;;
     log MsgUpdatingInsteadOfCreating ;;
     updateExistingNote E (orEmpty embeddedId) (orEmpty text) flags
   else
     when (truthy (file flags))
       (tryCatch
          (readFileSync (pathJoin E (cwd E) (orEmpty (file flags))) ;; ret tt)
          (fun _ => throw ErrAttachment)) ;;
     log MsgCreatingNewNote ;;
     result <- bearExec E (mkRequest "create" None (title flags) text None None) ;;
     let noteId := identifier result in
     log (MsgNoteCreated noteId) ;;
     when ((creation_date flags || add_id flags) && truthy (Some noteId))
       (log MsgAddingFooter ;;
        let enhancedContent := orEmpty text in
        let enhancedContent :=
          if creation_date flags || add_id flags then
            stripExistingFooter enhancedContent
              ++ buildNewNoteFooter noteId (creation_date flags)
                   (add_id flags) (now E)
          else enhancedContent in
        bearExec E (mkRequest "add-text" (Some noteId) None
                      (Some enhancedContent) (Some (str "replace_all")) None) ;;
        when (write_back flags && truthy (content_file flags))
          (writeBackToFile E (orEmpty (content_file flags)) enhancedContent) ;;
        log MsgFooterAdded) ;;
     log (MsgNoteId (identifier result) (response_title result)))%monad.

End Create.

Module UpdateText.

(** [UpdateText.detectNoteId] *)
Definition detectNoteId (content : jsstring) : option jsstring :=
  detectWith (Lit markerOpen >> Plus idChar >> Lit markerClose)%re content.

(** [UpdateText.buildGMTOffset] *)
Definition buildGMTOffset (date : Date) : jsstring :=
  let offsetMinutes := (- getTimezoneOffset date)%Z in
  let sign := if (0 <=? offsetMinutes)%Z then str "+" else str "-" in
  let absOffset := Z.abs offsetMinutes in
  let hours := (absOffset / 60)%Z in
  let minutes := (absOffset mod 60)%Z in
  if (minutes =? 0)%Z then
    str "GMT" ++ sign ++ numberToString hours
  else
    str "GMT" ++ sign ++ numberToString hours ++ str ":"
      ++ padStart 2 (str "0") (numberToString minutes).

Definition formatDate (date : Date) : jsstring :=
  let formatted := toLocaleString date in
  let offset := buildGMTOffset date in
  formatted ++ str " " ++ offset.

(** [UpdateText.buildStandardizedFooter]; [createdDate] is the optional
    second argument, [now] the [new Date()] of the body. *)
Definition buildStandardizedFooter (noteId : jsstring)
  (createdDate : option Date) (now : Date) : jsstring :=
  let created := match createdDate with Some d => d | None => now end in
  let createdLine := str "*Created: " ++ formatDate created ++ str "*" in
  let updatedLine := str "*Last Updated: " ++ formatDate now ++ str "*" in
  let idLine := markerOpen ++ noteId ++ markerClose in
  separator ++ LF :: createdLine ++ LF :: updatedLine ++ LF :: idLine.

(** [UpdateText.stripExistingFooter] *)
Definition stripExistingFooter (content : jsstring) : jsstring :=
  let cleaned := content in
  let footerPattern :=
    (Lit (separator ++ [LF]) >> Lit createdTag >> Star notLF >> Lit [LF] >>
     Opt (Lit updatedTag >> Star notLF >> Lit [LF]) >>
     Lit markerOpen >> Plus idChar >> Lit markerClose >>
     Star isSpace >> Eos)%re in
  let cleaned := replace footerPattern [] cleaned in
  let cleaned :=
    replaceAll (Star isLF >> Lit markerOpen >> Plus idChar >>
                Lit markerClose >> Star isSpace)%re [] cleaned in
  let cleaned :=
    replaceAll (Lit separator >> Star isSpace >> Eos)%re [] cleaned in
  let cleaned :=
    replaceAll (Lit [LF] >> Plus isLF >> Eos)%re [LF] cleaned in
  cleaned.

Record Flags : Type := {
  id : option jsstring;
  title : option jsstring;
  mode : option jsstring;
  timestamp : bool;
  creation_date : bool;
  add_id : bool;
  content_file : option path;
  search_term : option jsstring;
  no_confirm : bool;
  view_updated : bool;
  write_back : bool
}.

(** [UpdateText.enhanceContent] *)
Definition enhanceContent (E : env) (content noteId : jsstring)
  (flags : Flags) : jsstring :=
  let enhancedContent := content in
  if creation_date flags && add_id flags && truthy (Some noteId) then
    let enhancedContent := stripExistingFooter enhancedContent in
    let enhancedContent :=
      enhancedContent ++ buildStandardizedFooter noteId None (now E) in
    enhancedContent
  else
    (* /---\s*\*Created:/ and /<!-- Note ID:/ *)
    let hasCreationDate :=
      test (Lit (str "---") >> Star isSpace >> Lit (str "*Created:"))%re content in
    let hasNoteId := test (Lit (str "<!-- Note ID:")) content in
    let enhancedContent :=
      if creation_date flags && negb hasCreationDate then
        let creationDate := toLocaleDateString (now E) in
        enhancedContent ++ separator ++ LF :: str "*Created: "
          ++ creationDate ++ str "*"
      else enhancedContent in
    let enhancedContent :=
      if add_id flags && truthy (Some noteId) && negb hasNoteId then
        enhancedContent ++ LF :: markerOpen ++ noteId ++ markerClose
      else enhancedContent in
    enhancedContent.

(** [UpdateText.writeBackToFile] *)
Definition writeBackToFile (E : env) (filePath : path) (content : jsstring)
  : M world unit :=
  tryCatch
    (let expandedPath :=
       if startsWithTilde filePath then
         replaceChar 126%N (homeOr E [126%N]) [] filePath
       else filePath in
     let resolvedPath :=
       if pathIsAbsolute E expandedPath then expandedPath
       else pathResolve E (cwd E) expandedPath in
     writeFileSync E resolvedPath content ;;
     log (MsgWrittenBack resolvedPath))%monad
    (fun _ => log MsgCouldNotWriteBack).

(** [UpdateText.getNoteContent] *)
Definition getNoteContent (E : env) (noteId : jsstring) : M world jsstring :=
  tryCatch
    (response <- bearExec E (mkRequest "open-note" (Some noteId) None None
                               None None) ;;
     ret (note response))%monad
    (fun _ => (log MsgCouldNotReadNote ;; ret [])%monad).

(** [UpdateText.findNoteBySearch]; the [notes] of the response are taken
    as already parsed. *)
Definition findNoteBySearch (E : env) (searchTerm : jsstring)
  : M world (option (jsstring * jsstring)) :=
  tryCatch
    (log (MsgSearching searchTerm) ;;
     searchResponse <- bearExec E (mkRequest "search" None None None None
                                     (Some searchTerm)) ;;
     match notes searchResponse with
     | [] => log (MsgNoNotesFound searchTerm) ;; ret None
     | [n] => ret (Some n)
     | n :: _ =>
         let all := notes searchResponse in
         log (MsgFoundNotes (length all)) ;;
         forEach (combine (seq 1 5) (firstn 5 all))
           (fun ix => log (MsgSearchResult (fst ix) (snd (snd ix)))) ;;
         when (5 <? length all)%nat (log (MsgAndMore (length all - 5))) ;;
         log (MsgUsingFirstResult (snd n)) ;;
         ret (Some n)
     end)%monad
    (fun _ => throw ErrSearch).

(** [UpdateText.run]; [cmdArgs] is the [content] argument of the command
    line. *)
Definition run (E : env) (flags : Flags) (cmdArgs : option jsstring)
  : M world unit :=
  (log MsgFlagsReceived ;;
   log MsgArgsReceived ;;
   args <-
     (if truthy (content_file flags) then ret cmdArgs
      else argsWithPipe E cmdArgs false) ;;
   content <-
     (if truthy (content_file flags) then
        tryCatch
          (let rawPath := orEmpty (content_file flags) in
           let resolvedPath := resolveReadPath E rawPath in
           found <- existsSync resolvedPath ;;
           (if negb found then throw (ErrContentFileNotFound rawPath resolvedPath)
            else ret tt) ;;
           content <- readFileSync resolvedPath ;;
           log (MsgContentLoaded resolvedPath) ;;
           log (MsgContentLength (length content)) ;;
           log (MsgContentPreview (firstn 100 content)) ;;
           ret (Some content))
          (fun _ => throw ErrReadingFile)
      else ret args) ;;
   (* Find note if not directly specified; prefer embedded Note ID *)
   let noteId := id flags in
   let noteTitle := title flags in
   noteId <-
     (if negb (truthy noteId) && truthy content then
        let embedded := detectNoteId (orEmpty content) in
        if truthy embedded then
          log (MsgUsingEmbeddedId (orEmpty embedded)) ;; ret embedded
        else ret noteId
      else ret noteId) ;;
   found <-
     (if negb (truthy noteId) && negb (truthy noteTitle)
         && truthy (search_term flags) then
        searchResult <- findNoteBySearch E (orEmpty (search_term flags)) ;;
        match searchResult with
        | Some (foundId, foundTitle) =>
            log (MsgFoundNote foundTitle) ;;
            ret (Some foundId, Some foundTitle)
        | None => ret (noteId, noteTitle)
        end
      else ret (noteId, noteTitle)) ;;
   let noteId := fst found in
   let noteTitle := snd found in
   (if negb (truthy noteId) && negb (truthy noteTitle) then
      throw ErrNoNoteSpecified
    else ret tt) ;;
   (* Check for existing embedded note ID if we have a note ID *)
   when (truthy noteId)
     (currentContent <- getNoteContent E (orEmpty noteId) ;;
      let detectedId := detectNoteId currentContent in
      (if truthy detectedId
          && negb (jsstring_eqb (orEmpty detectedId) (orEmpty noteId)) then
         log (MsgMismatchEmbedded (orEmpty detectedId)) ;;
         log (MsgMismatchCurrent (orEmpty noteId)) ;;
         log MsgIdsDontMatch ;;
         when (negb (no_confirm flags))
           (log MsgConsiderEmbedded ;; log MsgContinuingWithCurrent)
       else if truthy detectedId
               && jsstring_eqb (orEmpty detectedId) (orEmpty noteId) then
         log MsgConfirmedMatching
       else ret tt) ;;
      when (negb (no_confirm flags) && truthy (Some currentContent))
        (log MsgPreviewHeader ;;
         log MsgRule ;;
         log (MsgPreview (firstn 200 currentContent
                            ++ (if (200 <? length currentContent)%nat
                                then str "..." else []))) ;;
         log MsgRule)) ;;
   (* Enhance content with additional features *)
   content <-
     (if truthy content then
        let enhanced :=
          enhanceContent E (orEmpty content) (orEmpty noteId) flags in
        when (write_back flags && truthy (content_file flags))
          (writeBackToFile E (orEmpty (content_file flags)) enhanced) ;;
        ret (Some enhanced)
      else ret content) ;;
   let params :=
     {| action := str "add-text";
        reqId := noteId;
        reqTitle := noteTitle;
        reqText := content;
        reqMode :=
          Some (if truthy (mode flags) then orEmpty (mode flags)
                else str "replace_all");
        reqTerm := None |} in
   log (MsgUpdatingWithMode (orEmpty (reqMode params))) ;;
   response <- bearExec E params ;;
   let features :=
     (if creation_date flags then [str "creation date"] else [])
     ++ (if add_id flags then [str "note ID"] else [])
     ++ (if timestamp flags then [str "timestamp"] else []) in
   log (MsgUpdatedWith features) ;;
   (if view_updated flags then
      log MsgUpdatedContentHeader ;;
      log MsgRule ;;
      log (MsgNoteContents response) ;;
      log MsgRule
    else log (MsgNoteContents response)) ;;
   log MsgUpdateCompleted)%monad.

End UpdateText.

Module BatchUpdate.

(** [BatchUpdate.detectNoteId] *)
Definition detectNoteId (content : jsstring) : option jsstring :=
  detectWith (Lit markerOpen >> Plus idChar >> Lit markerClose)%re content.

(** [BatchUpdate.buildGMTOffset] *)
Definition buildGMTOffset (date : Date) : jsstring :=
  let offsetMinutes := (- getTimezoneOffset date)%Z in
  let sign := if (0 <=? offsetMinutes)%Z then str "+" else str "-" in
  let absOffset := Z.abs offsetMinutes in
  let hours := (absOffset / 60)%Z in
  let minutes := (absOffset mod 60)%Z in
  if (minutes =? 0)%Z then
    str "GMT" ++ sign ++ numberToString hours
  else
    str "GMT" ++ sign ++ numberToString hours ++ str ":"
      ++ padStart 2 (str "0") (numberToString minutes).

Definition formatDate (date : Date) : jsstring :=
  let formatted := toLocaleString date in
  let offset := buildGMTOffset date in
  formatted ++ str " " ++ offset.

(** [BatchUpdate.buildUpdateFooter] *)
Definition buildUpdateFooter (noteId : jsstring)
  (includeCreated includeId : bool) (now : Date) : jsstring :=
  let footer := separator in
  let footer :=
    if includeCreated then
      let createdLine := str "*Created: " ++ formatDate now ++ str "*" in
      let updatedLine := str "*Last Updated: " ++ formatDate now ++ str "*" in
      footer ++ LF :: createdLine ++ LF :: updatedLine
    else footer in
  let footer :=
    if includeId then
      let idLine := markerOpen ++ noteId ++ markerClose in
      footer ++ LF :: idLine
    else footer in
  footer.

(** [BatchUpdate.buildNewNoteFooter] *)
Definition buildNewNoteFooter (noteId : jsstring)
  (includeCreated includeId : bool) (now : Date) : jsstring :=
  let footer := separator in
  let footer :=
    if includeCreated then
      let createdLine := str "*Created: " ++ formatDate now ++ str "*" in
      footer ++ LF :: createdLine
    else footer in
  let footer :=
    if includeId then
      let idLine := markerOpen ++ noteId ++ markerClose in
      footer ++ LF :: idLine
    else footer in
  footer.

(** [BatchUpdate.stripExistingFooter] *)
Definition stripExistingFooter (content : jsstring) : jsstring :=
  let cleaned := content in
  let footerPattern :=
    (Lit (separator ++ [LF]) >> Lit createdTag >> Star notLF >> Lit [LF] >>
     Opt (Lit updatedTag >> Star notLF >> Lit [LF]) >>
     Lit markerOpen >> Plus idChar >> Lit markerClose >>
     Star isSpace >> Eos)%re in
  let cleaned := replace footerPattern [] cleaned in
  let cleaned :=
    replaceAll (Star isLF >> Lit markerOpen >> Plus idChar >>
                Lit markerClose >> Star isSpace)%re [] cleaned in
  let cleaned :=
    replaceAll (Lit separator >> Star isSpace >> Eos)%re [] cleaned in
  let cleaned :=
    replaceAll (Lit [LF] >> Plus isLF >> Eos)%re [LF] cleaned in
  cleaned.

Record Flags : Type := {
  directory : path;
  recursive : bool;
  creation_date : bool;
  add_id : bool;
  write_back : bool;
  dry_run : bool;
  pattern : jsstring;
  mode : option jsstring
}.

(** The counters of [run]: [processed], [updated], [created], [skipped],
    [errors]. *)
Record Counters : Type := {
  processed : nat;
  updated : nat;
  created : nat;
  skipped : nat;
  errors : nat
}.

(** [BatchUpdate.resolvePath] *)
Definition resolvePath (E : env) (filePath : path) : path :=
  let expandedPath :=
    if startsWithTilde filePath then
      replaceChar 126%N (homeOr E [126%N]) [] filePath
    else filePath in
  if pathIsAbsolute E expandedPath then expandedPath
  else pathResolve E (cwd E) expandedPath.

(** [BatchUpdate.noteExists] *)
Definition noteExists (E : env) (noteId : jsstring) : M world bool :=
  tryCatch
    (bearExec E (mkRequest "open-note" (Some noteId) None None None None) ;;
     ret true)%monad
    (fun _ => ret false).

(** [BatchUpdate.updateNote] *)
Definition updateNote (E : env) (filePath : path) (noteId content : jsstring)
  (flags : Flags) : M world unit :=
  (let enhancedContent := content in
   let enhancedContent :=
     if creation_date flags || add_id flags then
       stripExistingFooter enhancedContent
         ++ buildUpdateFooter noteId (creation_date flags) (add_id flags)
              (now E)
     else enhancedContent in
   bearExec E (mkRequest "add-text" (Some noteId) None (Some enhancedContent)
                 (Some (if truthy (mode flags) then orEmpty (mode flags)
                        else str "replace_all")) None) ;;
   log MsgUpdatedInBear ;;
   when (write_back flags)
     (writeFileSync E filePath enhancedContent ;;
      log MsgUpdatedSourceFile))%monad.

(** [BatchUpdate.createNote] *)
Definition createNote (E : env) (filePath : path) (noteId content : jsstring)
  (flags : Flags) : M world unit :=
  (let enhancedContent := stripExistingFooter content in
   let enhancedContent :=
     if creation_date flags || add_id flags then
       enhancedContent
         ++ buildNewNoteFooter noteId (creation_date flags) (add_id flags)
              (now E)
     else enhancedContent in
   bearExec E (mkRequest "create" None None (Some enhancedContent) None None) ;;
   log MsgCreatedInBear ;;
   when (write_back flags)
     (writeFileSync E filePath enhancedContent ;;
      log MsgUpdatedSourceFile))%monad.

Definition bump (f : Counters -> Counters) : M (Counters * world) unit :=
  (c <- getLocal ;; setLocal (f c))%monad.

Definition incProcessed (c : Counters) : Counters :=
  {| processed := S (processed c); updated := updated c;
     created := created c; skipped := skipped c; errors := errors c |}.
Definition incUpdated (c : Counters) : Counters :=
  {| processed := processed c; updated := S (updated c);
     created := created c; skipped := skipped c; errors := errors c |}.
Definition incCreated (c : Counters) : Counters :=
  {| processed := processed c; updated := updated c;
     created := S (created c); skipped := skipped c; errors := errors c |}.
Definition incSkipped (c : Counters) : Counters :=
  {| processed := processed c; updated := updated c;
     created := created c; skipped := S (skipped c); errors := errors c |}.
Definition incErrors (c : Counters) : Counters :=
  {| processed := processed c; updated := updated c;
     created := created c; skipped := skipped c; errors := S (errors c) |}.

(** The body of the [for (const file of files)] loop of [run], with its
    [try]/[catch]; a [continue] ends the body. *)
Definition processFile (E : env) (flags : Flags) (file : path)
  : M (Counters * world) unit :=
  tryCatch
    (liftW (log (MsgProcessing file)) ;;
     content <- liftW (readFileSync file) ;;
     let noteId := detectNoteId content in
     if negb (truthy noteId) then
       liftW (log MsgSkippingNoId) ;;
       bump incSkipped
     else
       liftW (log (MsgBatchNoteId (orEmpty noteId))) ;;
       if dry_run flags then
         liftW (log (MsgWouldUpdate (orEmpty noteId))) ;;
         bump incProcessed
       else
         found <- liftW (noteExists E (orEmpty noteId)) ;;
         (if negb found then
            liftW (log (MsgDoesNotExist (orEmpty noteId))) ;;
            liftW (createNote E file (orEmpty noteId) content flags) ;;
            bump incCreated
          else
            liftW (updateNote E file (orEmpty noteId) content flags) ;;
            bump incUpdated) ;;
         bump incProcessed)%monad
    (fun _ =>
       (liftW (log (MsgErrorProcessing file)) ;;
        bump incErrors)%monad).

(** [BatchUpdate.run] *)
Definition run (E : env) (flags : Flags) : M (Counters * world) unit :=
  (liftW (log MsgBatchStarting ;;
          log (MsgDirectory (directory flags)) ;;
          log (MsgRecursive (recursive flags)) ;;
          log (MsgPattern (pattern flags)) ;;
          log (MsgMode (mode flags)) ;;
          log (MsgWriteBack (write_back flags)) ;;
          log (MsgDryRun (dry_run flags))) ;;
   let resolvedDir := resolvePath E (directory flags) in
   (if negb (dirExists E resolvedDir) then
      throw (ErrDirectoryNotFound resolvedDir)
    else ret tt) ;;
   (if negb (isDirectory E resolvedDir) then
      throw (ErrNotADirectory resolvedDir)
    else ret tt) ;;
   files <-
     match findMarkdownFiles E resolvedDir (recursive flags) (pattern flags) with
     | Some files => ret files
     | None => throw (ErrListing resolvedDir (pattern flags))
     end ;;
   match files with
   | [] => liftW (log (MsgNoFilesFound (pattern flags)))
   | _ :: _ =>
       liftW (log (MsgFoundFiles (length files))) ;;
       setLocal {| processed := 0; updated := 0; created := 0;
                   skipped := 0; errors := 0 |} ;;
       forEach files (processFile E flags) ;;
       c <- getLocal ;;
       liftW (log (MsgSummary (processed c) (length files) (updated c)
                     (created c) (skipped c) (errors c))) ;;
       if Nat.eqb (errors c) 0 && Nat.eqb (processed c) (length files) then
         liftW (log MsgAllProcessed)
       else if (0 <? errors c)%nat then
         liftW (warn (MsgCompletedWithErrors (errors c)))
       else ret tt
   end)%monad.

End BatchUpdate.

(** ** Declarative reading of the patterns

    [den r s s'] holds when [r] can match a prefix of [s] and leave [s'];
    it forgets the priority order of the matcher. *)

Fixpoint den (r : regex) (s s' : jsstring) : Prop :=
  match r with
  | Lit l => s = l ++ s'
  | Cls p => exists c, p c = true /\ s = c :: s'
  | Star p => exists l, Forall (fun c => p c = true) l /\ s = l ++ s'
  | Opt r1 => s = s' \/ den r1 s s'
  | Seq r1 r2 => exists m, den r1 s m /\ den r2 m s'
  | Eos => s = [] /\ s' = []
  end.

(** ** The words of the specification *)

(** The specification's [normalize]: a run of two or more newlines at the
    end of the body is collapsed to exactly one; any other body is left as
    it is. *)
Fixpoint normalize (b : jsstring) : jsstring :=
  match b with
  | [] => []
  | c :: b' =>
      if forallb isLF (c :: b') && (2 <=? length (c :: b'))%nat then [LF]
      else c :: normalize b'
  end.

(** An identifier as the marker pattern accepts it: a non-empty token over
    [[A-F0-9-]]. *)
Definition idToken (i : jsstring) : Prop :=
  i <> [] /\ Forall (fun c => idChar c = true) i.

(** The body holds an identity marker somewhere. *)
Definition hasMarker (b : jsstring) : Prop :=
  exists p i rest, idToken i /\ b = p ++ idLine i ++ rest.

(** The body ends in a standalone separator: a blank line, [---] and
    nothing but white space after it. *)
Definition endsWithSeparator (b : jsstring) : Prop :=
  exists p w, Forall (fun c => isSpace c = true) w /\ b = p ++ separator ++ w.

(** Every [<] of the body begins an identity marker. *)
Definition LT : char := 60%N.
Definition markersOnly (b : jsstring) : Prop :=
  forall p q, b = p ++ LT :: q ->
    exists i rest, idToken i /\ LT :: q = idLine i ++ rest.

(** A text that stays on one line. *)
Definition oneLine (l : jsstring) : Prop := Forall (fun c => notLF c = true) l.

(** White space only. *)
Definition blank (w : jsstring) : Prop := Forall (fun c => isSpace c = true) w.

(** The same conditions as tests that compute. *)

(** A non-empty token over [[A-F0-9-]]. *)
Definition validId (i : jsstring) : bool :=
  match i with
  | [] => false
  | _ :: _ => forallb idChar i
  end.

(** No line feed in the text. *)
Definition singleLine (l : jsstring) : bool := forallb notLF l.

(** White space only. *)
Definition allSpace (w : jsstring) : bool := forallb isSpace w.

(** [/\n\n---\s*$/.test(b)]: the body ends in a standalone separator. *)
Definition trailingSeparator (b : jsstring) : bool :=
  test (Lit separator >> Star isSpace >> Eos)%re b.

(** At every [<] of the body the marker pattern matches. *)
Fixpoint markersOnlyb (b : jsstring) : bool :=
  match b with
  | [] => true
  | c :: b' =>
      (if N.eqb c LT then
         match matchAt markerPattern b with Some _ => true | None => false end
       else true)
      && markersOnlyb b'
  end.

(** The two decimal digits of a number below one hundred. *)
Definition digit (z : Z) : char := (48 + Z.to_N z)%N.

(** A pattern that ends in [$] matches up to the end of the input only. *)
Definition anchored (r : regex) : Prop := forall s s', den r s s' -> s' = [].

(** The two shapes of footer that [footerPattern] accepts: a Created line,
    then possibly a Last Updated line, then the marker and white space. *)
Definition footerText (c : jsstring) (u : option jsstring) (i w : jsstring)
  : jsstring :=
  separator ++ LF :: createdTag ++ c ++ LF ::
    match u with
    | Some u' => updatedTag ++ u' ++ LF :: idLine i ++ w
    | None => idLine i ++ w
    end.

Definition oneLineOpt (u : option jsstring) : Prop :=
  match u with
  | Some u' => oneLine u'
  | None => True
  end.

(** A marker without its first character. *)
Definition markerRest (i : jsstring) : jsstring :=
  tl markerOpen ++ i ++ markerClose.

(** Inputs for the examples. *)
Definition exampleDate : Date :=
  {| toLocaleString := str "Wed, Oct 15, 2025, 05:51 PM";
     toLocaleDateString := str "Wed, Oct 15, 2025, 05:51 PM GMT+2";
     getTimezoneOffset := (-120)%Z |}.

Definition twoMarkers : jsstring :=
  str "Hello" ++ LF :: idLine (str "AB-1") ++ separator ++ LF
    :: str "*Created: x*" ++ LF :: idLine (str "CD-2") ++ LF :: idLine (str "EF-3").

Definition splicedMarker : jsstring :=
  str "<!-- Note ID: A <!-- Note ID: B -->-->".

Definition updatedOnlyFooter : jsstring :=
  str "a" ++ separator ++ LF :: str "*Last Updated: x*" ++ LF :: idLine (str "AB-1").

(** What claim C5 asks of a stripper, for the three footers that carry a
    Created line and a Last Updated line, a Created line alone, or no
    timestamp line. *)
Definition removesFooters (strip : jsstring -> jsstring)
  (B c u I w : jsstring) : Prop :=
  let created := str "*Created: " ++ c ++ str "*" in
  let updated := str "*Last Updated: " ++ u ++ str "*" in
  strip (B ++ separator ++ LF :: created ++ LF :: updated ++ LF :: idLine I ++ w)
  = normalize B /\
  strip (B ++ separator ++ LF :: created ++ LF :: idLine I ++ w) = normalize B /\
  strip (B ++ separator ++ LF :: idLine I ++ w) = normalize B.

(** ** Traces

    What the claims about the commands say of a run is said of its trace. *)

(** The call [open-note] for a note. *)
Definition openNote (noteId : jsstring) : request :=
  mkRequest "open-note" (Some noteId) None None None None.

(** The calls that change the remote store. *)
Definition isMutation (r : request) : Prop :=
  action r = str "add-text" \/ action r = str "create".

Definition isMutationb (r : request) : bool :=
  jsstring_eqb (action r) (str "add-text") || jsstring_eqb (action r) (str "create").

(** A mutating call that succeeded. *)
Definition isSuccess (e : event) : bool :=
  match e with
  | Call r (Some _) => isMutationb r
  | _ => false
  end.

(** Every file write of the trace comes after a mutating call that
    succeeded; [mutated] tells whether one was seen before the trace. *)
Fixpoint writesFollow (mutated : bool) (t : list event) : bool :=
  match t with
  | [] => true
  | FileWrite _ _ :: t' => mutated && writesFollow mutated t'
  | e :: t' => writesFollow (mutated || isSuccess e) t'
  end.

Definition beforeMutation (t : list event) : Prop :=
  writesFollow false t = true.

Definition afterMutation (t : list event) : Prop :=
  writesFollow false t = true /\ existsb isSuccess t = true.

Definition noWrite (e : event) : Prop :=
  match e with
  | FileWrite _ _ => False
  | _ => True
  end.

(** The three lines that report a mismatch of identifiers. *)
Definition mismatchLogged (supplied d : jsstring) (t : list event) : Prop :=
  In (Log (MsgMismatchEmbedded d)) t
  /\ In (Log (MsgMismatchCurrent supplied)) t
  /\ In (Log MsgIdsDontMatch) t.

Definition isMismatchLine (e : event) : bool :=
  match e with
  | Log (MsgMismatchEmbedded _) | Log (MsgMismatchCurrent _)
  | Log MsgIdsDontMatch | Warn _ => true
  | _ => false
  end.

(** Every call to the remote store carries the supplied identifier. *)
Definition callsSupplied (supplied : jsstring) (t : list event) : Prop :=
  forall r res, In (Call r res) t -> reqId r = Some supplied.

(** When [open-note] returned a content whose marker differs from the
    supplied identifier, the mismatch was logged. *)
Definition mismatchReported (supplied : jsstring) (t : list event) : Prop :=
  forall resp d,
    In (Call (openNote supplied) (Some resp)) t ->
    UpdateText.detectNoteId (note resp) = Some d -> d <> supplied ->
    mismatchLogged supplied d t.

(** An [add-text] call was made and succeeded. *)
Definition addTextDone (t : list event) : Prop :=
  exists r resp, In (Call r (Some resp)) t /\ action r = str "add-text".

Definition workingIdInv (supplied : jsstring) (t : list event) : Prop :=
  callsSupplied supplied t /\ mismatchReported supplied t.

Definition workingIdGood (supplied : jsstring) (e : event) : Prop :=
  match e with
  | Call r _ => reqId r = Some supplied /\ action r = str "add-text"
  | _ => True
  end.

(** [hoare P c Q X]: from a world whose trace satisfies [P], the command [c]
    either returns [a] with a trace that satisfies [Q a], or throws with a
    trace that satisfies [X]. *)
Definition hoare (A : Type) (P : list event -> Prop) (c : M world A)
  (Q : A -> list event -> Prop) (X : list event -> Prop) : Prop :=
  forall w, P (trace w) ->
    match c w with
    | (Ok a, w') => Q a (trace w')
    | (Thrown _, w') => X (trace w')
    end.
Arguments hoare {A} P c Q X.

(** [keeps Inv c R]: the command keeps the invariant [Inv] of the trace,
    whether it returns or throws, and what it returns satisfies [R]. *)
Definition keeps (Inv : list event -> Prop) (A : Type) (c : M world A)
  (R : A -> Prop) : Prop :=
  hoare Inv c (fun a t => Inv t /\ R a) Inv.
Arguments keeps Inv {A} c R.

(** [hoareE P c Q X]: as [hoare], with a condition on what is thrown. *)
Definition hoareE (A : Type) (P : list event -> Prop) (c : M world A)
  (Q : A -> list event -> Prop) (X : error -> list event -> Prop) : Prop :=
  forall w, P (trace w) ->
    match c w with
    | (Ok a, w') => Q a (trace w')
    | (Thrown e, w') => X e (trace w')
    end.
Arguments hoareE {A} P c Q X.

(** The marker in the current content of the note, as [UpdateText.run]
    reads it from the answer to [open-note]; a rejected call counts as an
    empty content. *)
Definition remoteMarker (res : option response) : option jsstring :=
  match res with
  | Some resp => UpdateText.detectNoteId (note resp)
  | None => None
  end.

(** The lines that report a mismatch for that answer: the three lines when
    the content of the note holds a marker other than the working
    identifier, no line otherwise. *)
Definition mismatchReport (supplied : jsstring) (res : option response)
  : list event :=
  match remoteMarker res with
  | Some d =>
      if jsstring_eqb d supplied then []
      else [Log (MsgMismatchEmbedded d); Log (MsgMismatchCurrent supplied);
            Log MsgIdsDontMatch]
  | None => []
  end.

(** The events before the check: no call and no line about a mismatch. *)
Definition unchecked (e : event) : Prop :=
  match e with
  | Call _ _ => False
  | _ => isMismatchLine e = false
  end.

(** The check was made: the first call of the trace is [open-note] for the
    working identifier, answered by the store, and the lines about a
    mismatch in the whole trace are those that report this answer. *)
Definition remoteChecked (E : env) (supplied : jsstring) (t : list event)
  : Prop :=
  exists t1 t2,
    t = t1 ++ Call (openNote supplied) (bear E t1 (openNote supplied)) :: t2
    /\ Forall unchecked t1
    /\ filter isMismatchLine t
       = mismatchReport supplied (bear E t1 (openNote supplied)).

(** Worlds for the examples: a remote store given by [b], every path
    absolute and writable, and [fs] the files of the directory. *)
Definition exampleEnv (b : list event -> request -> option response)
  (fs : list path) : env :=
  {| bear := b; now := exampleDate; pipe := []; envHome := None;
     cwd := str "/n"; pathJoin := fun a c => a ++ c;
     pathIsAbsolute := fun _ => true;
     pathResolve := fun a c => a ++ str "/" ++ c;
     writable := fun _ => true; dirExists := fun _ => true;
     isDirectory := fun _ => true; findMarkdownFiles := fun _ _ _ => Some fs |}.

Definition noteWith (content : jsstring) : response :=
  {| identifier := []; response_title := []; note := content; notes := [] |}.

Definition oneFile (p : path) (content : jsstring) (q : path) : option jsstring :=
  if jsstring_eqb q p then Some content else None.

(** A store in which [add-text] fails. *)
Definition failingStore : env :=
  exampleEnv
    (fun _ r => if jsstring_eqb (action r) (str "add-text") then None
                else Some (noteWith []))
    [].

Definition writeBackFlags : UpdateText.Flags :=
  {| UpdateText.id := Some (str "AB-1"); UpdateText.title := None;
     UpdateText.mode := None; UpdateText.timestamp := false;
     UpdateText.creation_date := true; UpdateText.add_id := true;
     UpdateText.content_file := Some (str "/n/a.md");
     UpdateText.search_term := None; UpdateText.no_confirm := true;
     UpdateText.view_updated := false; UpdateText.write_back := true |}.

(** A supplied identifier [AAA] and no footer flag. *)
Definition suppliedFlags : UpdateText.Flags :=
  {| UpdateText.id := Some (str "AAA"); UpdateText.title := None;
     UpdateText.mode := None; UpdateText.timestamp := false;
     UpdateText.creation_date := false; UpdateText.add_id := false;
     UpdateText.content_file := None;
     UpdateText.search_term := None; UpdateText.no_confirm := true;
     UpdateText.view_updated := false; UpdateText.write_back := false |}.

(** A body that embeds the marker [BBB]. *)
Definition bodyBBB : jsstring := str "Body" ++ LF :: idLine (str "BBB").

(** A store whose notes embed the marker [BBB], and one whose notes embed
    none. *)
Definition storeBBB : env := exampleEnv (fun _ _ => Some (noteWith bodyBBB)) [].
Definition storePlain : env :=
  exampleEnv (fun _ _ => Some (noteWith (str "remote text"))) [].

(** A directory of three files: no marker, marker [AB-1], marker [AB-2];
    the store holds every note but [AB-2]. *)
Definition threeFiles : list path :=
  [str "/n/a.md"; str "/n/b.md"; str "/n/c.md"].

Definition threeFilesContent (q : path) : option jsstring :=
  if jsstring_eqb q (str "/n/a.md") then Some (str "no marker")
  else if jsstring_eqb q (str "/n/b.md") then
    Some (str "second" ++ LF :: idLine (str "AB-1"))
  else if jsstring_eqb q (str "/n/c.md") then
    Some (str "third" ++ LF :: idLine (str "AB-2"))
  else None.

Definition batchStore : env :=
  exampleEnv
    (fun _ r =>
       if jsstring_eqb (action r) (str "open-note")
          && jsstring_eqb (orEmpty (reqId r)) (str "AB-2")
       then None else Some (noteWith []))
    threeFiles.

(** The same store, with the second file read-only. *)
Definition readOnlyStore : env :=
  {| bear := bear batchStore; now := now batchStore; pipe := pipe batchStore;
     envHome := envHome batchStore; cwd := cwd batchStore;
     pathJoin := pathJoin batchStore; pathIsAbsolute := pathIsAbsolute batchStore;
     pathResolve := pathResolve batchStore;
     writable := fun p => negb (jsstring_eqb p (str "/n/b.md"));
     dirExists := dirExists batchStore; isDirectory := isDirectory batchStore;
     findMarkdownFiles := findMarkdownFiles batchStore |}.

(** An [add-text] call for the note [AB-1] that succeeded. *)
Definition isUpdateOfAB1 (e : event) : bool :=
  match e with
  | Call r (Some _) =>
      jsstring_eqb (action r) (str "add-text")
      && jsstring_eqb (orEmpty (reqId r)) (str "AB-1")
  | _ => false
  end.

Definition batchFlags : BatchUpdate.Flags :=
  {| BatchUpdate.directory := str "/n"; BatchUpdate.recursive := false;
     BatchUpdate.creation_date := true; BatchUpdate.add_id := true;
     BatchUpdate.write_back := true; BatchUpdate.dry_run := false;
     BatchUpdate.pattern := str "*.md"; BatchUpdate.mode := None |}.

Definition zeroCounters : BatchUpdate.Counters :=
  {| BatchUpdate.processed := 0; BatchUpdate.updated := 0;
     BatchUpdate.created := 0; BatchUpdate.skipped := 0;
     BatchUpdate.errors := 0 |}.

(** ** [add-text], and the tests of the legacy path of [update]

    [AddText.enhanceContent] appends its footer without looking at the
    text; the legacy path of [UpdateText.enhanceContent] first tests the
    text with two patterns. *)

(** [/---\s*\*Created:/] and [/<!-- Note ID:/], the tests of the legacy
    path of [UpdateText.enhanceContent]. *)
Definition hasCreationDatePattern : regex :=
  (Lit (str "---") >> Star isSpace >> Lit (str "*Created:"))%re.
Definition hasNoteIdPattern : regex := Lit (str "<!-- Note ID:").

Module AddText.

Record Flags : Type := {
  id : option jsstring;
  creation_date : bool;
  add_id : bool
}.

(** [AddText.enhanceContent] *)
Definition enhanceContent (E : env) (content noteId : jsstring)
  (flags : Flags) : jsstring :=
  let enhancedContent := content in
  let enhancedContent :=
    if creation_date flags then
      let creationDate := toLocaleDateString (now E) in
      enhancedContent ++ separator ++ LF :: str "*Created: "
        ++ creationDate ++ str "*"
    else enhancedContent in
  let enhancedContent :=
    if add_id flags && truthy (Some noteId) then
      enhancedContent ++ LF :: markerOpen ++ noteId ++ markerClose
    else enhancedContent in
  enhancedContent.

End AddText.

(** ** The files of a batch

    [BatchUpdate.findMarkdownFiles] walks a directory. The directory is a
    tree of entries as [fs.readdirSync(dir, { withFileTypes: true })] lists
    them: files, directories (with their own entries, or that cannot be
    listed, in which case [readdirSync] throws), and entries that are
    neither (links, sockets, devices). *)

#[local] Unset Elimination Schemes.
Inductive dirent : Type :=
| File (name : jsstring)
| Directory (name : jsstring) (entries : list dirent)
| Locked (name : jsstring)
| Other (name : jsstring).
#[local] Set Elimination Schemes.

(** [.] of a pattern without the [s] flag: any code unit but a line
    terminator. *)
Definition dot (c : char) : bool :=
  negb (N.eqb c 10 || N.eqb c 13 || N.eqb c 8232 || N.eqb c 8233).

(** The syntax characters of a pattern, [^ $ \ . * + ? ( ) [ ] { } |]. *)
Definition isSyntaxCharacter (c : char) : bool :=
  existsb (N.eqb c) (str "^$\.*+?()[]{}|").

(** [new RegExp("^" + pattern.replace(/\*/g, ".*") + "$")], the leading [^]
    left to [globTest]: every [*] of the glob has become [.*], a [.] of the
    glob is read as the pattern [.], any character that is no syntax
    character stands for itself. A glob that holds another syntax character
    gives a pattern outside the fragment of [regex]; for it the result is
    [None]. *)
Fixpoint globRegExp (pattern : jsstring) : option regex :=
  match pattern with
  | [] => Some Eos
  | c :: rest =>
      match globRegExp rest with
      | None => None
      | Some r =>
          if N.eqb c 42 then Some (Star dot >> r)%re
          else if N.eqb c 46 then Some (Cls dot >> r)%re
          else if isSyntaxCharacter c then None
          else Some (Lit [c] >> r)%re
      end
  end.

(** [regex.test(entry.name)]: with its leading [^] the pattern can only
    match at the start of the name. *)
Definition globTest (r : regex) (name : jsstring) : bool :=
  match matchAt r name with
  | Some _ => true
  | None => false
  end.

(** [a < b] on strings: code unit by code unit, a proper prefix first. *)
Fixpoint stringLt (a b : jsstring) : bool :=
  match a, b with
  | _, [] => false
  | [], _ :: _ => true
  | x :: a', y :: b' =>
      if N.ltb x y then true
      else if N.ltb y x then false
      else stringLt a' b'
  end.

(** [files.sort()], with the default order of [Array.prototype.sort] on
    strings. *)
Fixpoint insertSorted (x : path) (l : list path) : list path :=
  match l with
  | [] => [x]
  | y :: l' => if stringLt x y then x :: y :: l' else y :: insertSorted x l'
  end.

Definition sort (l : list path) : list path := fold_right insertSorted [] l.

(** The list is in ascending order. *)
Fixpoint ascending (l : list path) : bool :=
  match l with
  | [] => true
  | x :: l' =>
      match l' with
      | [] => true
      | y :: _ => negb (stringLt y x) && ascending l'
      end
  end.

(** [name.startsWith(".")] *)
Definition startsWithDot (name : jsstring) : bool :=
  match name with
  | c :: _ => N.eqb c 46
  | [] => false
  end.

Module Listing.

Section Walk.

Variable E : env.
Variable recursive : bool.
Variable regex : regex.

(** One turn of the loop of [processDir] over the entries of [currentDir];
    the result is what the turn pushes on [files], [None] when a listing
    throws. *)
Fixpoint processEntry (currentDir : path) (entry : dirent) : option (list path) :=
  match entry with
  | Directory name entries =>
      let fullPath := pathJoin E currentDir name in
      if recursive && negb (startsWithDot name) then
        (fix processDir (es : list dirent) : option (list path) :=
           match es with
           | [] => Some []
           | e :: es' =>
               match processEntry fullPath e with
               | None => None
               | Some pushed =>
                   match processDir es' with
                   | None => None
                   | Some more => Some (pushed ++ more)
                   end
               end
           end) entries
      else Some []
  | Locked name =>
      if recursive && negb (startsWithDot name) then None else Some []
  | File name =>
      let fullPath := pathJoin E currentDir name in
      if globTest regex name then Some [fullPath] else Some []
  | Other _ => Some []
  end.

(** [processDir(currentDir)] on the entries that [readdirSync] lists. *)
Fixpoint processDir (currentDir : path) (entries : list dirent) : option (list path) :=
  match entries with
  | [] => Some []
  | e :: es' =>
      match processEntry currentDir e with
      | None => None
      | Some pushed =>
          match processDir currentDir es' with
          | None => None
          | Some more => Some (pushed ++ more)
          end
      end
  end.

End Walk.

(** [BatchUpdate.findMarkdownFiles(dir, recursive, pattern)] on a directory
    with the given entries; the outer [None] is a glob outside the fragment,
    the inner one a listing that throws. *)
Definition findMarkdownFiles (E : env) (dir : path) (entries : list dirent)
  (recursive : bool) (pattern : jsstring) : option (option (list path)) :=
  match globRegExp pattern with
  | None => None
  | Some regex =>
      Some (match processDir E recursive regex dir entries with
            | None => None
            | Some files => Some (sort files)
            end)
  end.

End Listing.

(** The files at the top of a directory whose name the pattern matches, as
    full paths, in the order of the listing. *)
Definition topLevelMatches (E : env) (r : regex) (dir : path) (entries : list dirent)
  : list path :=
  flat_map (fun e => match e with
                     | File name => if globTest r name then [pathJoin E dir name] else []
                     | _ => []
                     end) entries.

(** ** Words for the further properties *)

(** [a] is [b] with some code units deleted: nothing added, nothing moved. *)
Inductive deletion : jsstring -> jsstring -> Prop :=
| deletion_nil : deletion [] []
| deletion_keep c a b : deletion a b -> deletion (c :: a) (c :: b)
| deletion_drop c a b : deletion a b -> deletion a (c :: b).

(** No [<] in the text. *)
Definition notLT (c : char) : bool := negb (N.eqb c LT).
Definition noLTb (s : jsstring) : bool := forallb notLT s.

(** The number of code units of a text that are no line feeds. *)
Definition countNotLF (s : jsstring) : nat := length (filter notLF s).

(** What a glob says of a name, in the reading of [findMarkdownFiles]: a
    [*] stands for any run of characters, a [.] for any one character, line
    terminators apart, and any other character for itself; the whole name
    is matched. *)
Inductive globMatch : jsstring -> jsstring -> Prop :=
| globMatch_end : globMatch [] []
| globMatch_star pattern run name :
    forallb dot run = true -> globMatch pattern name ->
    globMatch (42%N :: pattern) (run ++ name)
| globMatch_dot pattern c name :
    dot c = true -> globMatch pattern name ->
    globMatch (46%N :: pattern) (c :: name)
| globMatch_char pattern c name :
    isSyntaxCharacter c = false -> globMatch pattern name ->
    globMatch (c :: pattern) (c :: name).

(** Events that change nothing outside the process: lines on the terminal. *)
Definition isLine (e : event) : bool :=
  match e with
  | Log _ | Warn _ => true
  | _ => false
  end.

(** The line that closes the summary of a batch. *)
Definition verdict (c : BatchUpdate.Counters) : list event :=
  if Nat.eqb (BatchUpdate.errors c) 0 && Nat.eqb (BatchUpdate.skipped c) 0
  then [Log MsgAllProcessed]
  else if (0 <? BatchUpdate.errors c)%nat
       then [Warn (MsgCompletedWithErrors (BatchUpdate.errors c))]
       else [].

(** The text that a file write may carry after an event: the text of the
    call, when the event is a mutating call that succeeded; nothing after
    any other call; what it was before, after a line or a write. *)
Definition sentAfter (sent : option jsstring) (e : event) : option jsstring :=
  match e with
  | Call r (Some _) => if isMutationb r then reqText r else None
  | Call _ None => None
  | _ => sent
  end.

(** Every file write of the trace carries the text of the last call before
    it, and that call was a mutating call that succeeded. *)
Fixpoint writesMatch (sent : option jsstring) (t : list event) : bool :=
  match t with
  | [] => true
  | e :: t' =>
      match e with
      | FileWrite _ c =>
          match sent with
          | Some c' => jsstring_eqb c c'
          | None => false
          end
      | _ => true
      end && writesMatch (sentAfter sent e) t'
  end.

(** The writes of the trace match, and its last call was a mutating call
    that succeeded, with text [c]. *)
Definition sentText (c : jsstring) (t : list event) : Prop :=
  writesMatch None t = true /\ fold_left sentAfter t None = Some c.

(** The events that may follow such a call: lines, and writes of [c]. *)
Definition carries (c : jsstring) (e : event) : Prop :=
  match e with
  | Call _ _ => False
  | FileWrite _ c' => c' = c
  | _ => True
  end.

(** A [create] call carries a text without identity marker. *)
Definition unmarkedCreate (e : event) : Prop :=
  match e with
  | Call r _ =>
      action r = str "create" -> Create.detectNoteId (orEmpty (reqText r)) = None
  | _ => True
  end.

(** An [add-text] call names its note, by identifier or by title. *)
Definition namedUpdate (e : event) : Prop :=
  match e with
  | Call r _ =>
      action r = str "add-text" -> truthy (reqId r) || truthy (reqTitle r) = true
  | _ => True
  end.

(** What [UpdateText.run] emits once it has taken the identifier [x] from
    the body: it announces no other, and its calls carry [x]. *)
Definition announces (x : jsstring) (e : event) : Prop :=
  match e with
  | Log (MsgUsingEmbeddedId y) => y = x
  | Call r _ => reqId r = Some x
  | _ => True
  end.

(** The events of a run that takes no identifier from the body. *)
Definition unannounced (e : event) : Prop :=
  match e with
  | Log (MsgUsingEmbeddedId _) => False
  | _ => True
  end.

(** The events before the working identifier is settled: no such
    announcement and no call. *)
Definition preparing (e : event) : Prop :=
  match e with
  | Log (MsgUsingEmbeddedId _) | Call _ _ => False
  | _ => True
  end.

(** What holds of the trace of [UpdateText.run]: either it took [x] from
    the body, no [--id] being given, or it took nothing from the body. *)
Definition embeddedUsed (flags : UpdateText.Flags) (t : list event) : Prop :=
  (exists x, Forall (announces x) t /\ truthy (UpdateText.id flags) = false)
  \/ Forall unannounced t.

(** The lines that list the notes a search has found. *)
Definition isResultLine (e : event) : bool :=
  match e with
  | Log (MsgSearchResult _ _) => true
  | _ => false
  end.

(** The call [search] for a term. *)
Definition searchFor (term : jsstring) : request :=
  mkRequest "search" None None None None (Some term).

(** Further inputs for the examples. *)

(** The flags of the batch example, as a dry run. *)
Definition dryRunFlags : BatchUpdate.Flags :=
  {| BatchUpdate.directory := str "/n"; BatchUpdate.recursive := false;
     BatchUpdate.creation_date := true; BatchUpdate.add_id := true;
     BatchUpdate.write_back := true; BatchUpdate.dry_run := true;
     BatchUpdate.pattern := str "*.md"; BatchUpdate.mode := None |}.

(** Flags of [bear update --creation-date --add-id --no-confirm], the note
    left to the marker of the body. *)
Definition embeddedFlags : UpdateText.Flags :=
  {| UpdateText.id := None; UpdateText.title := None;
     UpdateText.mode := None; UpdateText.timestamp := false;
     UpdateText.creation_date := true; UpdateText.add_id := true;
     UpdateText.content_file := None;
     UpdateText.search_term := None; UpdateText.no_confirm := true;
     UpdateText.view_updated := false; UpdateText.write_back := false |}.

(** Flags of [bear create --content-file /n/a.md --creation-date --add-id
    --write-back]. *)
Definition createFlags : Create.Flags :=
  {| Create.content_file := Some (str "/n/a.md"); Create.file := None;
     Create.title := None; Create.creation_date := true; Create.add_id := true;
     Create.write_back := true |}.

(** A store that files every new note under [AB-7]. *)
Definition issuingStore : env :=
  exampleEnv
    (fun _ _ => Some {| identifier := str "AB-7"; response_title := str "Hello";
                        note := []; notes := [] |})
    [].

(** Flags of [bear update --id AB-1 --creation-date]: the legacy path. *)
Definition legacyFlags : UpdateText.Flags :=
  {| UpdateText.id := Some (str "AB-1"); UpdateText.title := None;
     UpdateText.mode := None; UpdateText.timestamp := false;
     UpdateText.creation_date := true; UpdateText.add_id := false;
     UpdateText.content_file := None;
     UpdateText.search_term := None; UpdateText.no_confirm := true;
     UpdateText.view_updated := false; UpdateText.write_back := false |}.

(** Flags of [bear add-text --id AB-1 --creation-date --add-id]. *)
Definition addTextFlags : AddText.Flags :=
  {| AddText.id := Some (str "AB-1"); AddText.creation_date := true;
     AddText.add_id := true |}.

(** An environment for the listings: [path.join] puts a [/] between its
    arguments. *)
Definition treeEnv : env :=
  {| bear := fun _ _ => None; now := exampleDate; pipe := []; envHome := None;
     cwd := str "/n"; pathJoin := fun a c => a ++ str "/" ++ c;
     pathIsAbsolute := fun _ => true;
     pathResolve := fun a c => a ++ str "/" ++ c;
     writable := fun _ => true; dirExists := fun _ => true;
     isDirectory := fun _ => true; findMarkdownFiles := fun _ _ _ => Some [] |}.

(** A directory for the examples. *)
Definition exampleTree : list dirent :=
  [File (str "b.md"); Directory (str "sub") [File (str "a.md"); File (str "a.txt")];
   Directory (str ".git") [File (str "x.md")]; Other (str "link.md");
   File (str "readmd"); File (str "a.md")].

(* ================================================================== *)
(** * Properties *)

Unset Implicit Arguments.

(** ** The matcher against the declarative reading *)

Lemma stripPrefix_Some l s s' : stripPrefix l s = Some s' <-> s = l ++ s'.
Proof.
  revert s; induction l as [|a l IH]; intros s; simpl.
  - split; congruence.
  - destruct s as [|c s]; [split; discriminate|].
    destruct (N.eqb_spec a c) as [->|Hne].
    + rewrite IH. split; congruence.
    + split; [discriminate|]. intros H; inversion H; congruence.
Qed.

Lemma stripPrefix_app l s : stripPrefix l (l ++ s) = Some s.
Proof. apply stripPrefix_Some; reflexivity. Qed.

Lemma starK_None (A : Type) p (k : jsstring -> option A) s :
  starK p k s = None <->
  forall l s', Forall (fun c => p c = true) l -> s = l ++ s' -> k s' = None.
Proof.
  induction s as [|c s IH]; simpl.
  - split.
    + intros H l s' _ E. symmetry in E. apply app_eq_nil in E as [-> ->]. exact H.
    + intros H. apply (H [] []); [constructor|reflexivity].
  - destruct (p c) eqn:Hp.
    + destruct (starK p k s) eqn:Hs.
      * split; [discriminate|]. intros H.
        assert (Hn : Some a = None).
        { apply IH. intros l s' Hl E. apply (H (c :: l) s'); [constructor; assumption|].
          simpl; congruence. }
        discriminate.
      * split.
        -- intros Hk l s' Hl E. destruct l as [|d l]; simpl in E.
           ++ subst s'. exact Hk.
           ++ inversion E; subst. inversion Hl; subst.
              destruct IH as [IH _]. eapply (IH eq_refl); eauto.
        -- intros H. apply (H [] (c :: s)); [constructor|reflexivity].
    + split.
      * intros Hk l s' Hl E. destruct l as [|d l]; simpl in E.
        -- subst s'. exact Hk.
        -- inversion E; subst. inversion Hl; subst. congruence.
      * intros H. apply (H [] (c :: s)); [constructor|reflexivity].
Qed.

Lemma starK_Some (A : Type) p (k : jsstring -> option A) s a :
  starK p k s = Some a ->
  exists l s', Forall (fun c => p c = true) l /\ s = l ++ s' /\ k s' = Some a.
Proof.
  induction s as [|c s IH]; simpl.
  - intros H. exists [], []. repeat split; auto.
  - destruct (p c) eqn:Hp.
    + destruct (starK p k s) eqn:Hs.
      * intros E; inversion E; subst.
        destruct (IH eq_refl) as (l & s' & Hl & E' & Hk).
        exists (c :: l), s'. repeat split; auto. simpl; congruence.
      * intros Hk. exists [], (c :: s). repeat split; auto.
    + intros Hk. exists [], (c :: s). repeat split; auto.
Qed.

(** Completeness: the matcher fails only when no way of matching is
    accepted by the continuation. *)
Lemma run_None (A : Type) r : forall s (k : jsstring -> option A),
  run r s k = None <-> forall s', den r s s' -> k s' = None.
Proof.
  induction r as [l|p|p|r IH|r1 IH1 r2 IH2|]; intros s k; simpl.
  - destruct (stripPrefix l s) as [s0|] eqn:E.
    + apply stripPrefix_Some in E. subst s. split.
      * intros Hk s' E. apply app_inv_head in E. congruence.
      * intros H. apply H. reflexivity.
    + split; [|reflexivity]. intros _ s' E'. apply stripPrefix_Some in E'. congruence.
  - destruct s as [|c s].
    + split; [|reflexivity]. intros _ s' (c & _ & E). discriminate.
    + destruct (p c) eqn:Hp.
      * split.
        -- intros Hk s' (d & _ & E). inversion E; subst. exact Hk.
        -- intros H. apply H. exists c. auto.
      * split; [|reflexivity]. intros _ s' (d & Hd & E). inversion E; subst. congruence.
  - rewrite starK_None. split.
    + intros H s' (l & Hl & E). eapply H; eauto.
    + intros H l s' Hl E. apply H. exists l. auto.
  - destruct (run r s k) eqn:E.
    + split; [discriminate|]. intros H.
      assert (Hn : run r s k = None) by (apply IH; intros s' Hd; apply H; right; exact Hd).
      congruence.
    + split.
      * intros Hk s' [->|Hd]; [exact Hk|]. destruct (IH s k) as [IH' _]. apply IH'; assumption.
      * intros H. apply H. left. reflexivity.
  - rewrite IH1. split.
    + intros H s' (m & H1 & H2). specialize (H m H1). rewrite IH2 in H. apply H; assumption.
    + intros H m H1. apply IH2. intros s' H2. apply H. exists m. auto.
  - destruct s as [|c s].
    + split.
      * intros Hk s' [_ ->]. exact Hk.
      * intros H. apply H. auto.
    + split; [|reflexivity]. intros _ s' [E _]. discriminate.
Qed.

(** Soundness: an answer comes from a way of matching. *)
Lemma run_Some (A : Type) r : forall s (k : jsstring -> option A) a,
  run r s k = Some a -> exists s', den r s s' /\ k s' = Some a.
Proof.
  induction r as [l|p|p|r IH|r1 IH1 r2 IH2|]; intros s k a; simpl.
  - destruct (stripPrefix l s) as [s0|] eqn:E; [|discriminate].
    apply stripPrefix_Some in E. intros Hk. exists s0. auto.
  - destruct s as [|c s]; [discriminate|].
    destruct (p c) eqn:Hp; [|discriminate].
    intros Hk. exists s. split; [exists c; auto|exact Hk].
  - intros H. apply starK_Some in H as (l & s' & Hl & E & Hk).
    exists s'. split; [exists l; auto|exact Hk].
  - destruct (run r s k) eqn:E.
    + intros E'; inversion E'; subst. apply IH in E as (s' & Hd & Hk).
      exists s'. auto.
    + intros Hk. exists s. auto.
  - intros H. apply IH1 in H as (m & H1 & H). apply IH2 in H as (s' & H2 & Hk).
    exists s'. split; [exists m; auto|exact Hk].
  - destruct s as [|c s]; [|discriminate]. intros Hk. exists []. auto.
Qed.

Lemma den_suffix r : forall s s', den r s s' -> exists m, s = m ++ s'.
Proof.
  induction r as [l|p|p|r IH|r1 IH1 r2 IH2|]; intros s s'; simpl.
  - intros ->. eauto.
  - intros (c & _ & ->). exists [c]. reflexivity.
  - intros (l & _ & ->). eauto.
  - intros [->|H]; [exists []; reflexivity|eauto].
  - intros (m & H1 & H2). apply IH1 in H1 as (m1 & ->). apply IH2 in H2 as (m2 & ->).
    exists (m1 ++ m2). rewrite app_assoc. reflexivity.
  - intros [-> ->]. exists []. reflexivity.
Qed.

Lemma matchAt_None r s : matchAt r s = None <-> forall s', ~ den r s s'.
Proof.
  unfold matchAt. rewrite run_None. split.
  - intros H s' Hd. specialize (H s' Hd). discriminate.
  - intros H s' Hd. destruct (H s' Hd).
Qed.

Lemma matchAt_Some r s rest : matchAt r s = Some rest -> den r s rest.
Proof.
  unfold matchAt. intros H. apply run_Some in H as (s' & Hd & E).
  inversion E; subst. exact Hd.
Qed.

Lemma matchAt_den r s s' : den r s s' -> exists rest, matchAt r s = Some rest.
Proof.
  intros Hd. destruct (matchAt r s) as [rest|] eqn:E; [eauto|].
  rewrite matchAt_None in E. destruct (E s' Hd).
Qed.

(** ** The leftmost search *)

Lemma firstn_matched (m rest : jsstring) :
  firstn (length (m ++ rest) - length rest) (m ++ rest) = m.
Proof.
  rewrite length_app, Nat.add_sub.
  rewrite firstn_app, Nat.sub_diag, firstn_all. simpl. apply app_nil_r.
Qed.

Lemma exec_unfold r s :
  exec r s =
  match matchAt r s with
  | Some rest => Some ([], firstn (length s - length rest) s, rest)
  | None =>
      match s with
      | [] => None
      | c :: s' =>
          match exec r s' with
          | Some (b, m, a) => Some (c :: b, m, a)
          | None => None
          end
      end
  end.
Proof. destruct s; reflexivity. Qed.

Lemma exec_None r s :
  exec r s = None <-> forall b q, s = b ++ q -> matchAt r q = None.
Proof.
  induction s as [|c s IH]; simpl.
  - destruct (matchAt r []) eqn:E.
    + split; [discriminate|]. intros H. rewrite (H [] []) in E by reflexivity. discriminate.
    + split; [|reflexivity]. intros _ b q Hs.
      symmetry in Hs. apply app_eq_nil in Hs as [_ ->]. exact E.
  - destruct (matchAt r (c :: s)) eqn:E.
    + split; [discriminate|]. intros H. rewrite (H [] (c :: s)) in E by reflexivity.
      discriminate.
    + destruct (exec r s) as [[[b m] a]|] eqn:Es.
      * split; [discriminate|]. intros H.
        assert (Hn : @None (jsstring * jsstring * jsstring) = Some (b, m, a)); [|discriminate].
        symmetry. apply IH. intros b' q Hs. apply (H (c :: b') q). simpl; congruence.
      * split; [|reflexivity]. intros _ b q Hs. destruct b as [|d b]; simpl in Hs.
        -- subst q. exact E.
        -- inversion Hs; subst. destruct IH as [IH _]. apply (IH eq_refl b q). reflexivity.
Qed.

Lemma exec_Some r s b m a :
  exec r s = Some (b, m, a) ->
  s = b ++ m ++ a /\ matchAt r (m ++ a) = Some a /\
  forall b1 b2, b = b1 ++ b2 -> b2 <> [] -> matchAt r (b2 ++ m ++ a) = None.
Proof.
  revert b; induction s as [|c s IH]; intros b; cbn [exec].
  - destruct (matchAt r []) as [rest|] eqn:E; [|discriminate].
    intros H; inversion H; subst. simpl.
    pose proof (matchAt_Some _ _ _ E) as E'. apply den_suffix in E'.
      destruct E' as (m0 & Hm).
    symmetry in Hm. apply app_eq_nil in Hm as [-> ->].
    refine (conj eq_refl (conj E _)).
    intros b1 b2 Hb. symmetry in Hb. apply app_eq_nil in Hb as [_ ->]. congruence.
  - destruct (matchAt r (c :: s)) as [rest|] eqn:E.
    + pose proof (matchAt_Some _ _ _ E) as E'. apply den_suffix in E'.
      destruct E' as (m0 & Hm).
      assert (Hf : firstn (length (c :: s) - length rest) (c :: s) = m0).
      { rewrite Hm. apply firstn_matched. }
      rewrite Hf. intros H; inversion H; subst b m a. clear H. simpl.
      refine (conj Hm (conj _ _)).
      * rewrite <- Hm. exact E.
      * intros b1 b2 Hb. symmetry in Hb. apply app_eq_nil in Hb as [_ ->]. congruence.
    + destruct (exec r s) as [[[b' m'] a']|] eqn:Es; [|discriminate].
      intros H; inversion H; subst. clear H.
      destruct (IH b' eq_refl) as (Hs & Hm & Hb). subst s.
      refine (conj eq_refl (conj Hm _)).
      intros b1 b2 Hb12 Hne. destruct b1 as [|d b1]; simpl in Hb12.
      * subst b2. exact E.
      * inversion Hb12; subst. apply (Hb b1 b2); auto.
Qed.

Lemma exec_intro r b q a :
  matchAt r q = Some a ->
  (forall b1 b2, b = b1 ++ b2 -> b2 <> [] -> matchAt r (b2 ++ q) = None) ->
  exists m, q = m ++ a /\ exec r (b ++ q) = Some (b, m, a).
Proof.
  intros Hq. pose proof (matchAt_Some _ _ _ Hq) as Hd. apply den_suffix in Hd.
  destruct Hd as (m & ->).
  intros Hb. exists m. split; [reflexivity|].
  induction b as [|c b IH].
  - simpl. rewrite exec_unfold, Hq, firstn_matched. reflexivity.
  - pose proof (Hb [] (c :: b) eq_refl ltac:(discriminate)) as H0.
    rewrite exec_unfold, H0. cbn [app]. rewrite IH; [reflexivity|].
    intros b1 b2 Hb12 Hne. apply (Hb (c :: b1) b2); [simpl; congruence|assumption].
Qed.

Lemma test_false r s :
  test r s = false <-> forall b q s', s = b ++ q -> ~ den r q s'.
Proof.
  unfold test. destruct (exec r s) as [[[b m] a]|] eqn:E.
  - split; [discriminate|]. intros H. exfalso.
    apply exec_Some in E as (Hs & Hm & _). apply matchAt_Some in Hm.
    exact (H b (m ++ a) a Hs Hm).
  - split; [|reflexivity]. intros _ b q s' Hs Hd.
    rewrite exec_None in E. specialize (E b q Hs). rewrite matchAt_None in E.
    exact (E s' Hd).
Qed.

(** ** Global replacement is total: the fuel never runs out *)

Lemma replaceAllFuel_enough r repl : forall f1 f2 s,
  length s < f1 -> length s < f2 ->
  replaceAllFuel f1 r repl s = replaceAllFuel f2 r repl s.
Proof.
  induction f1 as [|f1 IH]; intros f2 s H1 H2; [lia|].
  destruct f2 as [|f2]; [lia|]. simpl.
  destruct (exec r s) as [[[b m] a]|] eqn:E; [|reflexivity].
  apply exec_Some in E as (Hs & _ & _).
  assert (Hl : length s = length b + length m + length a).
  { subst s. rewrite !length_app. lia. }
  destruct m as [|d m].
  - destruct a as [|c a]; [reflexivity|]. simpl in Hl.
    do 3 f_equal. apply IH; lia.
  - simpl in Hl. do 2 f_equal. apply IH; lia.
Qed.

Lemma replaceAll_eq r repl s :
  replaceAll r repl s =
  match exec r s with
  | None => s
  | Some (b, [], []) => b ++ repl
  | Some (b, [], c :: a) => b ++ repl ++ c :: replaceAll r repl a
  | Some (b, _ :: _, a) => b ++ repl ++ replaceAll r repl a
  end.
Proof.
  unfold replaceAll at 1. cbn [replaceAllFuel].
  destruct (exec r s) as [[[b m] a]|] eqn:E; [|reflexivity].
  apply exec_Some in E as (Hs & _ & _).
  assert (Hl : length s = length b + length m + length a).
  { subst s. rewrite !length_app. lia. }
  destruct m as [|d m].
  - destruct a as [|c a]; [reflexivity|]. simpl in Hl.
    do 3 f_equal. unfold replaceAll. apply replaceAllFuel_enough; lia.
  - simpl in Hl. do 2 f_equal. unfold replaceAll. apply replaceAllFuel_enough; lia.
Qed.

Lemma replaceAll_nomatch r repl s : test r s = false -> replaceAll r repl s = s.
Proof.
  unfold test. rewrite replaceAll_eq.
  destruct (exec r s) as [[[b m] a]|]; [discriminate|reflexivity].
Qed.

Lemma replace_nomatch r repl s : test r s = false -> replace r repl s = s.
Proof.
  unfold test, replace.
  destruct (exec r s) as [[[b m] a]|]; [discriminate|reflexivity].
Qed.

(** ** Anchored patterns *)

Lemma anchored_seq r1 r2 : anchored r2 -> anchored (Seq r1 r2).
Proof. intros H s s' (m & _ & H2). exact (H _ _ H2). Qed.

Lemma anchored_eos : anchored Eos.
Proof. intros s s' [_ H]. exact H. Qed.

Create HintDb anchored.
#[local] Hint Resolve anchored_seq anchored_eos : anchored.

Lemma anchored_footer : anchored footerPattern.
Proof. unfold footerPattern. auto 20 with anchored. Qed.

Lemma anchored_separator : anchored separatorPattern.
Proof. unfold separatorPattern. auto 20 with anchored. Qed.

Lemma anchored_newlines : anchored newlinesPattern.
Proof. unfold newlinesPattern, Plus. auto 20 with anchored. Qed.

Lemma exec_nil r : (forall s', ~ den r [] s') -> exec r [] = None.
Proof.
  intros H. apply exec_None. intros b q E. symmetry in E.
  apply app_eq_nil in E as [_ ->]. apply matchAt_None. exact H.
Qed.

(** With an anchored pattern that cannot match the empty string the [g]
    flag changes nothing: there is at most one match. *)
Lemma replaceAll_anchored r repl s :
  anchored r -> (forall s', ~ den r [] s') ->
  replaceAll r repl s = replace r repl s.
Proof.
  intros Ha Hne. rewrite replaceAll_eq. unfold replace.
  destruct (exec r s) as [[[b m] a]|] eqn:E; [|reflexivity].
  apply exec_Some in E as (_ & Hm & _). apply matchAt_Some in Hm.
  pose proof (Ha _ _ Hm) as ->. destruct m as [|d m].
  - destruct (Hne _ Hm).
  - rewrite replaceAll_eq, exec_nil by assumption. reflexivity.
Qed.

(** The leftmost suffix that an anchored pattern matches is what [replace]
    cuts off. *)
Lemma replace_anchored r repl b q :
  anchored r -> (exists s', den r q s') ->
  (forall b1 b2 s', b = b1 ++ b2 -> b2 <> [] -> ~ den r (b2 ++ q) s') ->
  replace r repl (b ++ q) = b ++ repl.
Proof.
  intros Ha (s' & Hq) Hb.
  destruct (matchAt_den _ _ _ Hq) as (rest & Hm).
  pose proof (Ha _ _ (matchAt_Some _ _ _ Hm)) as ->.
  destruct (exec_intro r b q [] Hm) as (m & _ & E).
  - intros b1 b2 E1 E2. apply matchAt_None. intros s0. exact (Hb b1 b2 s0 E1 E2).
  - unfold replace. rewrite E, app_nil_r. reflexivity.
Qed.

(** ** Cutting a string at a character *)

Lemma span_unique (p : char -> bool) : forall t1 t2 c1 c2 r1 r2,
  Forall (fun c => p c = true) t1 -> Forall (fun c => p c = true) t2 ->
  p c1 = false -> p c2 = false ->
  t1 ++ c1 :: r1 = t2 ++ c2 :: r2 -> t1 = t2 /\ c1 = c2 /\ r1 = r2.
Proof.
  induction t1 as [|a t1 IH]; intros t2 c1 c2 r1 r2 H1 H2 Hc1 Hc2 E.
  - destruct t2 as [|b t2]; simpl in E.
    + inversion E; auto.
    + inversion E; subst. inversion H2; subst. congruence.
  - destruct t2 as [|b t2]; simpl in E.
    + inversion E; subst. inversion H1; subst. congruence.
    + inversion E; subst. inversion H1; subst. inversion H2; subst.
      destruct (IH t2 c1 c2 r1 r2) as (-> & -> & ->); auto.
Qed.

(** The one occurrence of a character. *)
Lemma occurrence_unique (c : char) : forall l1 l2 r1 r2,
  ~ In c l2 -> ~ In c r2 ->
  l1 ++ c :: r1 = l2 ++ c :: r2 -> l1 = l2 /\ r1 = r2.
Proof.
  induction l1 as [|a l1 IH]; intros l2 r1 r2 Hl Hr E.
  - destruct l2 as [|b l2]; simpl in E.
    + inversion E; auto.
    + inversion E; subst. destruct Hl. left; reflexivity.
  - destruct l2 as [|b l2]; simpl in E.
    + inversion E; subst. destruct Hr. apply in_or_app. right. left. reflexivity.
    + inversion E; subst.
      destruct (IH l2 r1 r2) as (-> & ->); auto.
      intros Hin. apply Hl. right. exact Hin.
Qed.

(** ** What the patterns of the source match *)

Ltac assoc :=
  repeat (rewrite <- app_assoc || rewrite <- app_comm_cons || rewrite app_nil_r).

Ltac break :=
  repeat match goal with
    | H : exists _, _ |- _ => destruct H as (? & H)
    | H : _ /\ _ |- _ => destruct H as (? & ?)
    end.

Lemma idToken_cons c l :
  idChar c = true -> Forall (fun c => idChar c = true) l -> idToken (c :: l).
Proof. intros Hc Hl. split; [discriminate|constructor; assumption]. Qed.

Lemma den_marker q s' :
  den markerPattern q s' <-> exists i, idToken i /\ q = idLine i ++ s'.
Proof.
  unfold markerPattern, Plus, idLine. cbn [den]. split.
  - intros (m & -> & m0 & (m1 & (c & Hc & ->) & (l & Hl & ->)) & ->).
    exists (c :: l). split; [apply idToken_cons; assumption|].
    simpl. rewrite <- !app_assoc. reflexivity.
  - intros (i & (Hne & Hi) & ->). destruct i as [|c i]; [congruence|].
    inversion Hi; subst.
    exists (c :: i ++ markerClose ++ s'). split; [rewrite <- !app_assoc; reflexivity|].
    exists (markerClose ++ s'). split; [|reflexivity].
    exists (i ++ markerClose ++ s'). split; [exists c; auto|].
    exists i. auto.
Qed.

Lemma den_strayMarker q s' :
  den strayMarkerPattern q s' <->
  exists n i w, Forall (fun c => isLF c = true) n /\ idToken i /\ blank w /\
                q = n ++ idLine i ++ w ++ s'.
Proof.
  unfold strayMarkerPattern, Plus, idLine, blank. cbn [den]. split.
  - intros (m & (n & Hn & ->) & m2 & -> & m3 & (m4 & (c & Hc & ->) & (l & Hl & ->))
            & m5 & -> & w & Hw & ->).
    exists n, (c :: l), w.
    split; [assumption|]. split; [apply idToken_cons; assumption|].
    split; [assumption|].
    simpl. rewrite <- !app_assoc. reflexivity.
  - intros (n & i & w & Hn & (Hne & Hi) & Hw & ->). destruct i as [|c i]; [congruence|].
    inversion Hi; subst.
    exists ((markerOpen ++ (c :: i) ++ markerClose) ++ w ++ s'). split; [exists n; auto|].
    exists (c :: i ++ markerClose ++ w ++ s').
    split; [simpl; rewrite <- !app_assoc; reflexivity|].
    exists (markerClose ++ w ++ s'). split.
    + exists (i ++ markerClose ++ w ++ s'). split; [exists c; auto|]. exists i. auto.
    + exists (w ++ s'). split; [reflexivity|]. exists w. auto.
Qed.

Lemma den_separator q s' :
  den separatorPattern q s' <-> exists w, blank w /\ q = separator ++ w /\ s' = [].
Proof.
  unfold separatorPattern, blank. cbn [den]. split.
  - intros (m & -> & m1 & (w & Hw & ->) & -> & ->).
    exists w. rewrite app_nil_r. auto.
  - intros (w & Hw & -> & ->). exists w. split; [reflexivity|].
    exists []. split; [exists w; rewrite app_nil_r; auto|auto].
Qed.

Lemma den_newlines q s' :
  den newlinesPattern q s' <->
  exists l, Forall (fun c => isLF c = true) l /\ l <> [] /\ q = LF :: l /\ s' = [].
Proof.
  unfold newlinesPattern, Plus. cbn [den]. split.
  - intros (m & -> & m1 & (m2 & (c & Hc & ->) & (l & Hl & ->)) & -> & ->).
    exists (c :: l ++ []). split; [|split; [discriminate|auto]].
    constructor; [assumption|]. rewrite app_nil_r. assumption.
  - intros (l & Hl & Hne & -> & ->). destruct l as [|c l]; [congruence|].
    inversion Hl; subst.
    exists (c :: l). split; [reflexivity|].
    exists []. split; [|auto].
    exists l. split; [exists c; auto|]. exists l. rewrite app_nil_r. auto.
Qed.

Lemma den_footer q s' :
  den footerPattern q s' <->
  exists c u i w, oneLine c /\ oneLineOpt u /\ idToken i /\ blank w /\
                  q = footerText c u i w /\ s' = [].
Proof.
  unfold footerPattern, Plus, footerText, idLine, blank, oneLine. cbn [den]. split.
  - intros (m1 & -> & m2 & -> & m3 & (c & Hc & ->) & m4 & -> & m5 & Hopt & m8 & E8
            & m9 & (m10 & (a & Ha & E10) & (l & Hl & El)) & m11 & E11 & m12
            & (w & Hw & Ew) & -> & ->).
    subst. destruct Hopt as [E|(m6 & E6 & m7 & (u & Hu & Eu) & E7)].
    + subst. exists c, None, (a :: l), w.
      split; [assumption|]. split; [exact I|]. split; [apply idToken_cons; assumption|].
      split; [assumption|]. split; [|reflexivity].
      simpl. rewrite <- !app_assoc. simpl. rewrite app_nil_r. reflexivity.
    + subst. exists c, (Some u), (a :: l), w.
      split; [assumption|]. split; [assumption|]. split; [apply idToken_cons; assumption|].
      split; [assumption|]. split; [|reflexivity].
      simpl. rewrite <- !app_assoc. simpl. rewrite app_nil_r. reflexivity.
  - intros (c & u & i & w & Hc & Hu & (Hne & Hi) & Hw & -> & ->).
    destruct i as [|a i]; [congruence|]. inversion Hi; subst.
    eexists. split; [rewrite <- !app_assoc; simpl; reflexivity|].
    eexists. split; [reflexivity|].
    eexists. split; [exists c; split; [assumption|reflexivity]|].
    eexists. split; [reflexivity|].
    exists (markerOpen ++ (a :: i) ++ markerClose ++ w). split.
    + destruct u as [u'|]; [right|left; reflexivity].
      eexists. split; [reflexivity|].
      eexists. split; [exists u'; split; [assumption|reflexivity]|].
      reflexivity.
    + eexists. split; [reflexivity|].
      exists (markerClose ++ w). split.
      * exists (i ++ markerClose ++ w). split; [exists a; auto|]. exists i. auto.
      * eexists. split; [reflexivity|].
        exists []. split; [exists w; rewrite app_nil_r; auto|auto].
Qed.

(** ** The stripper on a body without marker *)

Lemma strip_unfold content :
  Create.stripExistingFooter content =
  replaceAll newlinesPattern [LF]
    (replaceAll separatorPattern []
       (replaceAll strayMarkerPattern [] (replace footerPattern [] content))).
Proof. reflexivity. Qed.

Lemma detect_None b : Create.detectNoteId b = None <-> ~ hasMarker b.
Proof.
  unfold Create.detectNoteId, detectWith. fold markerPattern.
  assert (H : exec markerPattern b = None <-> test markerPattern b = false).
  { unfold test. destruct (exec markerPattern b); split; congruence. }
  assert (H' : match exec markerPattern b with
               | Some (_, m, _) => Some (group1 m)
               | None => None
               end = None <-> exec markerPattern b = None).
  { destruct (exec markerPattern b) as [[[? ?] ?]|]; split; congruence. }
  rewrite H', H, test_false. split.
  - intros Hn (p & i & rest & Hi & ->).
    apply (Hn p (idLine i ++ rest) rest eq_refl). apply den_marker. eauto.
  - intros Hn p q s' -> Hd. apply den_marker in Hd as (i & Hi & ->).
    apply Hn. exists p, i, s'. auto.
Qed.

Lemma footerText_marker c u i w :
  exists p, footerText c u i w = p ++ idLine i ++ w.
Proof.
  unfold footerText. destruct u as [u'|].
  - exists (separator ++ LF :: createdTag ++ c ++ LF :: updatedTag ++ u' ++ [LF]).
    assoc. reflexivity.
  - exists (separator ++ LF :: createdTag ++ c ++ [LF]).
    assoc. reflexivity.
Qed.

Lemma test_footer_bare b : ~ hasMarker b -> test footerPattern b = false.
Proof.
  intros Hn. apply test_false. intros p q s' -> Hd.
  apply den_footer in Hd as (c & u & i & w & _ & _ & Hi & _ & -> & _).
  destruct (footerText_marker c u i w) as (p' & E). rewrite E in Hn.
  apply Hn. exists (p ++ p'), i, w. split; [assumption|].
  rewrite <- app_assoc. reflexivity.
Qed.

Lemma test_stray_bare b : ~ hasMarker b -> test strayMarkerPattern b = false.
Proof.
  intros Hn. apply test_false. intros p q s' -> Hd.
  apply den_strayMarker in Hd as (n & i & w & _ & Hi & _ & ->).
  apply Hn. exists (p ++ n), i, (w ++ s'). split; [assumption|].
  rewrite <- !app_assoc. reflexivity.
Qed.

Lemma test_separator_false b :
  test separatorPattern b = false <-> ~ endsWithSeparator b.
Proof.
  rewrite test_false. split.
  - intros Hn (p & w & Hw & ->).
    apply (Hn p (separator ++ w) [] eq_refl). apply den_separator. exists w. auto.
  - intros Hn p q s' -> Hd. apply den_separator in Hd as (w & Hw & -> & _).
    apply Hn. exists p, w. auto.
Qed.

Lemma isLF_eq c : isLF c = true -> c = LF.
Proof. unfold isLF. intros H. apply N.eqb_eq in H. exact H. Qed.

Lemma matchAt_newlines s :
  matchAt newlinesPattern s =
  if forallb isLF s && (2 <=? length s)%nat then Some [] else None.
Proof.
  destruct (forallb isLF s && (2 <=? length s)%nat) eqn:E.
  - apply andb_true_iff in E as [Hall Hlen]. apply Nat.leb_le in Hlen.
    rewrite forallb_forall in Hall.
    destruct s as [|a [|b s]]; simpl in Hlen; try lia.
    assert (Hd : den newlinesPattern (a :: b :: s) []).
    { apply den_newlines. exists (b :: s). split.
      - apply Forall_forall. intros x Hx. apply Hall. right. exact Hx.
      - split; [discriminate|]. split; [|reflexivity].
        f_equal. apply isLF_eq, Hall. left. reflexivity. }
    destruct (matchAt_den _ _ _ Hd) as (rest & Hm). rewrite Hm.
    f_equal. exact (anchored_newlines _ _ (matchAt_Some _ _ _ Hm)).
  - apply matchAt_None. intros s' Hd.
    apply den_newlines in Hd as (l & Hl & Hne & -> & _).
    destruct l as [|c l]; [congruence|].
    assert (H : forallb isLF (LF :: c :: l) = true).
    { change (forallb isLF (LF :: c :: l)) with (forallb isLF (c :: l)).
      apply forallb_forall. rewrite Forall_forall in Hl. exact Hl. }
    rewrite H in E. simpl in E. discriminate.
Qed.

Lemma newlines_nonempty s' : ~ den newlinesPattern [] s'.
Proof. intros Hd. apply den_newlines in Hd as (l & _ & _ & E & _). discriminate. Qed.

Lemma separator_nonempty s' : ~ den separatorPattern [] s'.
Proof. intros Hd. apply den_separator in Hd as (w & _ & E & _). discriminate. Qed.

(** The last replacement of the stripper is the specification's
    [normalize]. *)
Lemma newlines_normalize b : replaceAll newlinesPattern [LF] b = normalize b.
Proof.
  rewrite replaceAll_anchored by (apply anchored_newlines || apply newlines_nonempty).
  unfold replace. induction b as [|c b IH].
  - rewrite exec_nil by apply newlines_nonempty. reflexivity.
  - rewrite exec_unfold, matchAt_newlines. cbn [normalize].
    destruct (forallb isLF (c :: b) && (2 <=? length (c :: b))%nat); [reflexivity|].
    destruct (exec newlinesPattern b) as [[[b0 m] a]|]; simpl in *; congruence.
Qed.

Lemma normalize_prefix b :
  exists t, Forall (fun c => isLF c = true) t /\ b = normalize b ++ t.
Proof.
  induction b as [|c b (t & Ht & IH)]; [exists []; auto|].
  cbn [normalize].
  destruct (forallb isLF (c :: b) && (2 <=? length (c :: b))%nat) eqn:E.
  - apply andb_true_iff in E as [Hall _]. simpl in Hall.
    apply andb_true_iff in Hall as [Hc Hb]. exists b. split.
    + apply Forall_forall. rewrite forallb_forall in Hb. exact Hb.
    + apply isLF_eq in Hc. subst c. reflexivity.
  - exists t. split; [assumption|]. simpl. congruence.
Qed.

Lemma normalize_idem b : normalize (normalize b) = normalize b.
Proof.
  induction b as [|c b IH]; [reflexivity|]. cbn [normalize].
  destruct (forallb isLF (c :: b) && (2 <=? length (c :: b))%nat) eqn:E;
    [reflexivity|].
  cbn [normalize]. rewrite IH.
  destruct (forallb isLF (c :: normalize b)
            && (2 <=? length (c :: normalize b))%nat) eqn:E'; [|reflexivity].
  exfalso. apply andb_true_iff in E' as [Hall Hlen]. apply Nat.leb_le in Hlen.
  destruct (normalize_prefix b) as (t & Ht & Hb).
  assert (forallb isLF (c :: b) && (2 <=? length (c :: b))%nat = true); [|congruence].
  apply andb_true_iff. split.
  - rewrite Hb. simpl in *. apply andb_true_iff in Hall as [Hc Hn].
    rewrite Hc. simpl. rewrite forallb_app, Hn. simpl.
    rewrite forallb_forall. rewrite Forall_forall in Ht. exact Ht.
  - apply Nat.leb_le. rewrite Hb. simpl in *. rewrite length_app. lia.
Qed.

Lemma strip_bare b :
  ~ hasMarker b -> ~ endsWithSeparator b ->
  Create.stripExistingFooter b = normalize b.
Proof.
  intros Hm Hs. rewrite strip_unfold.
  rewrite (replace_nomatch _ _ _ (test_footer_bare _ Hm)).
  rewrite (replaceAll_nomatch _ _ _ (test_stray_bare _ Hm)).
  rewrite (replaceAll_nomatch separatorPattern) by (apply test_separator_false; exact Hs).
  apply newlines_normalize.
Qed.

Lemma blank_LF t : Forall (fun c => isLF c = true) t -> blank t.
Proof.
  unfold blank. apply Forall_impl. intros c Hc. apply isLF_eq in Hc. subst. reflexivity.
Qed.

Lemma normalize_bare b :
  ~ hasMarker b -> ~ endsWithSeparator b ->
  ~ hasMarker (normalize b) /\ ~ endsWithSeparator (normalize b).
Proof.
  intros Hm Hs. destruct (normalize_prefix b) as (t & Ht & Hb). split.
  - intros (p & i & rest & Hi & E). apply Hm. exists p, i, (rest ++ t).
    split; [assumption|]. rewrite Hb, E, <- !app_assoc. reflexivity.
  - intros (p & w & Hw & E). apply Hs. exists p, (w ++ t). split.
    + apply Forall_app. split; [assumption|apply blank_LF; assumption].
    + rewrite Hb, E, <- !app_assoc. reflexivity.
Qed.

(** ** Removing the footer: the first replacement *)

Lemma span_unique2 (p : char -> bool) t1 k1 t2 k2 c1 c2 r1 r2 :
  Forall (fun c => p c = true) t1 -> Forall (fun c => p c = true) k1 ->
  Forall (fun c => p c = true) t2 -> Forall (fun c => p c = true) k2 ->
  p c1 = false -> p c2 = false ->
  t1 ++ k1 ++ c1 :: r1 = t2 ++ k2 ++ c2 :: r2 ->
  t1 ++ k1 = t2 ++ k2 /\ r1 = r2.
Proof.
  intros Ht1 Hk1 Ht2 Hk2 Hc1 Hc2 E. rewrite !app_assoc in E.
  apply (span_unique p) in E as (E1 & _ & E2); auto; apply Forall_app; auto.
Qed.

Lemma cons_tail_eq (a b : char) l l' : a :: l = b :: l' -> l = l'.
Proof. intros E. inversion E. reflexivity. Qed.

Ltac strip E :=
  repeat match type of E with
    | _ :: _ = _ :: _ => apply cons_tail_eq in E
    end.

Ltac revnorm H :=
  repeat (rewrite rev_app_distr in H || (progress cbn [rev app] in H) || rewrite <- app_assoc in H).

Ltac literal := repeat constructor.

Lemma footerText_prefix x c u i w c' u' i' w' :
  oneLine c -> oneLineOpt u -> idToken i -> blank w ->
  oneLine c' -> oneLineOpt u' -> idToken i' -> blank w' ->
  x ++ footerText c u i w = footerText c' u' i' w' -> x = [].
Proof.
  intros Hc Hu [_ Hi] Hw Hc' Hu' [_ Hi'] Hw' E.
  apply (f_equal (@rev char)) in E.
  apply Forall_rev in Hc, Hi, Hw, Hc', Hi', Hw'.
  unfold footerText, idLine, separator, markerOpen, markerClose, LF in E.
  assert (Hct : Forall (fun c => notLF c = true) (rev createdTag)) by literal.
  assert (Hut : Forall (fun c => notLF c = true) (rev updatedTag)) by literal.
  destruct u as [u|], u' as [u'|]; cbn [oneLineOpt] in Hu, Hu';
    try apply Forall_rev in Hu; try apply Forall_rev in Hu';
    revnorm E;
    apply (span_unique isSpace) in E as (_ & _ & E); auto; strip E;
    apply (span_unique idChar) in E as (_ & _ & E); auto; strip E.
  - apply (span_unique2 notLF) in E as (_ & E); auto.
    apply (span_unique2 notLF) in E as (_ & E); auto.
    strip E. apply (f_equal (@rev char)) in E. rewrite rev_involutive in E. exact E.
  - apply (span_unique2 notLF) in E as (E & _); auto.
    apply (f_equal (@rev char)) in E. revnorm E. rewrite !rev_involutive in E.
    discriminate E.
  - apply (span_unique2 notLF) in E as (E & _); auto.
    apply (f_equal (@rev char)) in E. revnorm E. rewrite !rev_involutive in E.
    discriminate E.
  - apply (span_unique2 notLF) in E as (_ & E); auto.
    strip E. apply (f_equal (@rev char)) in E. rewrite rev_involutive in E. exact E.
Qed.

Lemma replace_footer b c u i w :
  oneLine c -> oneLineOpt u -> idToken i -> blank w ->
  replace footerPattern [] (b ++ footerText c u i w) = b.
Proof.
  intros Hc Hu Hi Hw.
  rewrite replace_anchored; [apply app_nil_r|apply anchored_footer| |].
  - exists []. apply den_footer. exists c, u, i, w. auto 10.
  - intros b1 b2 s' _ Hne Hd.
    apply den_footer in Hd as (c' & u' & i' & w' & Hc' & Hu' & Hi' & Hw' & E & _).
    apply Hne. eapply footerText_prefix; [| | | | | | | |exact E]; assumption.
Qed.

(** A body without marker and without trailing separator comes back,
    normalized, when a footer with a Created line is appended and
    stripped. *)
Lemma strip_footer b c u i w :
  ~ hasMarker b -> ~ endsWithSeparator b ->
  oneLine c -> oneLineOpt u -> idToken i -> blank w ->
  Create.stripExistingFooter (b ++ footerText c u i w) = normalize b.
Proof.
  intros Hm Hs Hc Hu Hi Hw.
  rewrite <- (strip_bare b Hm Hs). rewrite !strip_unfold.
  rewrite replace_footer by assumption.
  rewrite (replace_nomatch _ _ _ (test_footer_bare _ Hm)). reflexivity.
Qed.

(** ** Removing stray markers: the second replacement *)

Lemma starK_greedy (A : Type) p (k : jsstring -> option A) l r a :
  Forall (fun c => p c = true) l ->
  match r with [] => True | c :: _ => p c = false end ->
  k r = Some a -> starK p k (l ++ r) = Some a.
Proof.
  intros Hl Hr Hk. induction Hl as [|c l Hc Hl IH]; simpl.
  - destruct r as [|c r]; simpl; [exact Hk|]. rewrite Hr. exact Hk.
  - rewrite Hc, IH. reflexivity.
Qed.

Lemma idChar_notLT c : idChar c = true -> c <> LT.
Proof. intros H ->. discriminate H. Qed.

Lemma isSpace_notLT c : isSpace c = true -> c <> LT.
Proof. intros H ->. discriminate H. Qed.

Lemma idChar_notLF c : idChar c = true -> notLF c = true.
Proof.
  intros H. unfold notLF. destruct (N.eqb_spec c 10) as [->|]; [discriminate H|reflexivity].
Qed.

Lemma matchAt_stray n i w r :
  Forall (fun c => isLF c = true) n -> idToken i -> blank w ->
  match r with [] => True | c :: _ => isSpace c = false end ->
  matchAt strayMarkerPattern (n ++ idLine i ++ w ++ r) = Some r.
Proof.
  intros Hn [Hne Hi] Hw Hr. destruct i as [|a i]; [congruence|].
  inversion Hi as [|? ? Ha Hi']; subst.
  unfold matchAt, strayMarkerPattern, Plus, idLine. cbn [run].
  apply starK_greedy; [assumption|reflexivity|].
  rewrite <- app_assoc, stripPrefix_app. cbn [app]. rewrite Ha.
  rewrite <- app_assoc.
  apply starK_greedy; [assumption|reflexivity|].
  rewrite stripPrefix_app.
  apply starK_greedy; [assumption|assumption|reflexivity].
Qed.

Lemma idLine_LT i : idLine i = LT :: markerRest i.
Proof. reflexivity. Qed.

Lemma markerRest_oneLine i : idToken i -> oneLine (markerRest i).
Proof.
  intros [_ Hi]. unfold markerRest, oneLine.
  apply Forall_app. split; [repeat constructor|].
  apply Forall_app. split; [|repeat constructor].
  eapply Forall_impl; [|exact Hi]. apply idChar_notLF.
Qed.

Lemma markerRest_noLT i w :
  idToken i -> blank w -> ~ In LT (markerRest i ++ w).
Proof.
  intros [_ Hi] Hw Hin. unfold markerRest in Hin. unfold blank in Hw.
  rewrite <- !app_assoc in Hin.
  repeat (apply in_app_or in Hin as [Hin|Hin]).
  - simpl in Hin. repeat (destruct Hin as [Hin|Hin]; [discriminate Hin|]). exact Hin.
  - rewrite Forall_forall in Hi. exact (idChar_notLT _ (Hi _ Hin) eq_refl).
  - simpl in Hin. repeat (destruct Hin as [Hin|Hin]; [discriminate Hin|]). exact Hin.
  - rewrite Forall_forall in Hw. exact (isSpace_notLT _ (Hw _ Hin) eq_refl).
Qed.

(** A marker that begins inside a marker-free body cannot end inside it,
    and cannot run over a line break. *)
Lemma marker_across b p l i t z :
  ~ hasMarker b -> idToken i -> b = p ++ LT :: l ->
  markerRest i ++ t = l ++ LF :: z -> False.
Proof.
  intros Hm Hi -> E.
  apply app_eq_app in E as (l2 & [[E1 E2]|[E1 E2]]).
  - destruct l2 as [|c l2].
    + rewrite app_nil_r in E1. subst l. apply Hm.
      exists p, i, []. split; [assumption|]. rewrite idLine_LT, app_nil_r. reflexivity.
    + simpl in E2. inversion E2; subst c.
      pose proof (markerRest_oneLine i Hi) as Ho. unfold oneLine in Ho. rewrite E1 in Ho.
      apply Forall_app in Ho as [_ Ho]. inversion Ho as [|? ? Hc _]. discriminate Hc.
  - subst l. apply Hm. exists p, i, l2. split; [assumption|].
    rewrite idLine_LT. simpl. rewrite <- app_assoc. reflexivity.
Qed.

Lemma stray_no_earlier b i w b1 b2 s' :
  ~ hasMarker b -> idToken i -> blank w ->
  b ++ separator = b1 ++ b2 -> b2 <> [] ->
  ~ den strayMarkerPattern (b2 ++ LF :: idLine i ++ w) s'.
Proof.
  intros Hm Hi Hw Hb Hne Hd.
  apply den_strayMarker in Hd as (n & i' & w' & Hn & Hi' & Hw' & E).
  assert (E' : b ++ (separator ++ [LF]) ++ LT :: markerRest i ++ w
               = (b1 ++ n) ++ LT :: markerRest i' ++ w' ++ s').
  { transitivity ((b ++ separator) ++ LF :: idLine i ++ w).
    - rewrite <- !app_assoc. reflexivity.
    - rewrite Hb, <- app_assoc, E, <- !app_assoc. reflexivity. }
  apply app_eq_app in E' as (l & [[E1 E2]|[E1 E2]]).
  - destruct l as [|c l]; [discriminate E2|].
    simpl in E2. inversion E2 as [[Hc E3]]. subst c.
    rewrite app_assoc in E3.
    eapply (marker_across b (b1 ++ n) l i'); [assumption|assumption|exact E1|].
    rewrite <- app_assoc in E3. exact E3.
  - symmetry in E2.
    apply occurrence_unique in E2 as [E2 _];
      [|intros Hin; simpl in Hin;
        repeat (destruct Hin as [Hin|Hin]; [discriminate Hin|]); exact Hin
       |apply markerRest_noLT; assumption].
    subst l. rewrite app_assoc, Hb, <- app_assoc in E1.
    apply app_inv_head in E1. subst n.
    apply Forall_app in Hn as [Hn _].
    apply (f_equal (@rev char)) in Hb. rewrite !rev_app_distr in Hb.
    destruct (rev b2) as [|c r] eqn:Er.
    + apply Hne. rewrite <- (rev_involutive b2), Er. reflexivity.
    + simpl in Hb. injection Hb as Hc _.
      apply Forall_rev in Hn. rewrite Er in Hn. inversion Hn as [|? ? Hc' _].
      subst c. discriminate Hc'.
Qed.

Lemma stray_nonempty s' : ~ den strayMarkerPattern [] s'.
Proof.
  intros Hd. apply den_strayMarker in Hd as (n & i & w & _ & _ & _ & E).
  destruct n; [|discriminate E]. rewrite idLine_LT in E. discriminate E.
Qed.

(** A footer with the marker only: the first replacement leaves it. *)
Lemma test_footer_idOnly b i w :
  idToken i -> blank w ->
  test footerPattern (b ++ separator ++ LF :: idLine i ++ w) = false.
Proof.
  intros [_ Hi] Hw. apply test_false. intros p q s' E Hd.
  apply den_footer in Hd as (c' & u' & i' & w' & Hc' & Hu' & [_ Hi'] & Hw' & -> & _).
  symmetry in E. apply (f_equal (@rev char)) in E.
  apply Forall_rev in Hi, Hw, Hc', Hi', Hw'.
  unfold footerText, idLine, separator, markerOpen, markerClose, LF in E.
  assert (Hct : Forall (fun c => notLF c = true) (rev createdTag)) by literal.
  assert (Hut : Forall (fun c => notLF c = true) (rev updatedTag)) by literal.
  destruct u' as [u'|]; cbn [oneLineOpt] in Hu'; try apply Forall_rev in Hu';
    revnorm E;
    apply (span_unique isSpace) in E as (_ & _ & E); auto; strip E;
    apply (span_unique idChar) in E as (_ & _ & E); auto; strip E.
  - apply (span_unique2 notLF (rev u') (rev updatedTag) [] [45; 45; 45]%N 10%N 10%N)
      in E as (E & _); auto; try (solve [literal]).
    apply (f_equal (@rev char)) in E. revnorm E. rewrite !rev_involutive in E.
    discriminate E.
  - apply (span_unique2 notLF (rev c') (rev createdTag) [] [45; 45; 45]%N 10%N 10%N)
      in E as (E & _); auto; try (solve [literal]).
    apply (f_equal (@rev char)) in E. revnorm E. rewrite !rev_involutive in E.
    discriminate E.
Qed.

Lemma replaceAll_stray_idOnly b i w :
  ~ hasMarker b -> idToken i -> blank w ->
  replaceAll strayMarkerPattern [] (b ++ separator ++ LF :: idLine i ++ w)
  = b ++ separator.
Proof.
  intros Hm Hi Hw. rewrite replaceAll_eq.
  assert (Hq : matchAt strayMarkerPattern (LF :: idLine i ++ w) = Some []).
  { pose proof (matchAt_stray [LF] i w [] ltac:(literal) Hi Hw I) as H.
    rewrite app_nil_r in H. exact H. }
  destruct (exec_intro strayMarkerPattern (b ++ separator) _ _ Hq) as (m & Em & E).
  - intros b1 b2 E1 E2. apply matchAt_None. intros s'.
    apply (stray_no_earlier b i w b1 b2 s'); assumption.
  - rewrite app_nil_r in Em. subst m. rewrite <- app_assoc in E. rewrite E.
    rewrite replaceAll_eq, exec_nil by apply stray_nonempty.
    rewrite app_nil_r. reflexivity.
Qed.

(** A separator at the very end is cut off, whatever stands before it. *)
Lemma replace_separator_end b :
  replaceAll separatorPattern [] (b ++ separator) = b.
Proof.
  rewrite replaceAll_anchored by (apply anchored_separator || apply separator_nonempty).
  rewrite replace_anchored; [apply app_nil_r|apply anchored_separator| |].
  - exists []. apply den_separator. exists []. split; [constructor|].
    rewrite app_nil_r. auto.
  - intros b1 b2 s' _ Hne Hd. apply den_separator in Hd as (w & Hw & E & _).
    apply (f_equal (@rev char)) in E. rewrite !rev_app_distr in E.
    unfold blank in Hw. apply Forall_rev in Hw.
    destruct (rev w) as [|c r] eqn:Er.
    + simpl in E. strip E. apply Hne.
      rewrite <- (rev_involutive b2), E. reflexivity.
    + simpl in E. injection E as Hc _. inversion Hw as [|? ? Hc' _].
      subst c. discriminate Hc'.
Qed.

Lemma strip_idOnly b i w :
  ~ hasMarker b -> idToken i -> blank w ->
  Create.stripExistingFooter (b ++ separator ++ LF :: idLine i ++ w) = normalize b.
Proof.
  intros Hm Hi Hw. rewrite strip_unfold.
  rewrite (replace_nomatch _ _ _ (test_footer_idOnly b i w Hi Hw)).
  rewrite replaceAll_stray_idOnly by assumption.
  rewrite replace_separator_end. apply newlines_normalize.
Qed.

(** ** Bodies whose only [<] begin markers *)

Lemma hasMarker_LT b : hasMarker b -> In LT b.
Proof.
  intros (p & i & rest & _ & ->). apply in_or_app. right.
  rewrite idLine_LT. left. reflexivity.
Qed.

Lemma In_replace c r repl s :
  In c (replace r repl s) -> In c s \/ In c repl.
Proof.
  unfold replace. destruct (exec r s) as [[[b m] a]|] eqn:E; [|auto].
  apply exec_Some in E as (-> & _ & _). intros H.
  apply in_app_or in H as [H|H]; [left; apply in_or_app; auto|].
  apply in_app_or in H as [H|H]; [auto|].
  left. apply in_or_app. right. apply in_or_app. auto.
Qed.

Lemma markersOnly_suffix p s : markersOnly (p ++ s) -> markersOnly s.
Proof.
  intros H p' q E. apply (H (p ++ p') q). rewrite E, <- app_assoc. reflexivity.
Qed.

(** A marker stays on its line: cutting the body at a line break keeps
    every marker of the first part whole. *)
Lemma markersOnly_prefix b z : markersOnly (b ++ LF :: z) -> markersOnly b.
Proof.
  intros H p q ->. destruct (H p (q ++ LF :: z)) as (i & rest & Hi & E).
  { rewrite <- app_assoc. reflexivity. }
  change (idLine i ++ rest) with (LT :: markerRest i ++ rest) in E.
  apply cons_tail_eq in E.
  apply app_eq_app in E as (l & [[E1 E2]|[E1 E2]]).
  - exists i, l. split; [assumption|]. subst q. reflexivity.
  - destruct l as [|c l].
    + exists i, []. split; [assumption|].
      rewrite app_nil_r in *. rewrite <- E1. reflexivity.
    + exfalso. simpl in E2. injection E2 as Hc _. subst c.
      pose proof (markerRest_oneLine i Hi) as Ho. unfold oneLine in Ho.
      rewrite E1 in Ho. apply Forall_app in Ho as [_ Ho].
      inversion Ho as [|? ? Hc _]. discriminate Hc.
Qed.

Lemma markersOnly_match s p q :
  markersOnly s -> s = p ++ LT :: q ->
  exists rest, matchAt strayMarkerPattern (LT :: q) = Some rest.
Proof.
  intros H E. destruct (H p q E) as (i & rest & Hi & E').
  apply (matchAt_den _ _ rest). apply den_strayMarker.
  exists [], i, []. repeat split; try constructor; try apply Hi.
  rewrite E'. reflexivity.
Qed.

Lemma replace_footer_markersOnly b :
  markersOnly b -> markersOnly (replace footerPattern [] b).
Proof.
  intros H. unfold replace.
  destruct (exec footerPattern b) as [[[b0 m] a]|] eqn:E; [|exact H].
  apply exec_Some in E as (-> & Hm & _). apply matchAt_Some in Hm.
  apply den_footer in Hm as (c & u & i & w & _ & _ & _ & _ & Hm & ->).
  rewrite !app_nil_r in *. subst m. unfold footerText, separator in H.
  simpl in H. apply markersOnly_prefix in H. exact H.
Qed.

Lemma replaceAll_stray_noLT : forall n s,
  length s < n -> markersOnly s ->
  ~ In LT (replaceAll strayMarkerPattern [] s).
Proof.
  induction n as [|n IH]; intros s Hlen H; [lia|].
  rewrite replaceAll_eq.
  destruct (exec strayMarkerPattern s) as [[[b m] a]|] eqn:E.
  - apply exec_Some in E as (Hs & Hm & Hb).
    assert (Hnb : ~ In LT b).
    { intros Hin. apply in_split in Hin as (p & q & ->).
      destruct (markersOnly_match s p (q ++ m ++ a) H) as (rest & Hr).
      { rewrite Hs, <- app_assoc. reflexivity. }
      pose proof (Hb p (LT :: q) eq_refl ltac:(discriminate)) as Hn0.
      cbn [app] in Hn0. congruence. }
    assert (Hne : m <> []).
    { intros ->. simpl in Hm. apply matchAt_Some, den_strayMarker in Hm
        as (n0 & i & w & _ & _ & _ & Em).
      apply (f_equal (@length char)) in Em. rewrite idLine_LT in Em.
      rewrite !length_app in Em. simpl in Em. rewrite !length_app in Em. lia. }
    destruct m as [|d m]; [congruence|].
    simpl. intros Hin. apply in_app_or in Hin as [Hin|Hin]; [auto|].
    revert Hin. apply IH.
    + subst s. rewrite !length_app in Hlen. simpl in Hlen. lia.
    + subst s. rewrite app_assoc in H. apply markersOnly_suffix in H. exact H.
  - intros Hin. apply in_split in Hin as (p & q & Es).
    destruct (markersOnly_match s p q H Es) as (rest & Hr).
    rewrite exec_None in E. rewrite (E p (LT :: q) Es) in Hr. discriminate Hr.
Qed.

Lemma strip_markersOnly b :
  markersOnly b -> ~ In LT (Create.stripExistingFooter b).
Proof.
  intros H. rewrite strip_unfold.
  rewrite !replaceAll_anchored
    by (apply anchored_newlines || apply newlines_nonempty
        || apply anchored_separator || apply separator_nonempty).
  intros Hin.
  apply In_replace in Hin as [Hin|[Hin|[]]]; [|discriminate Hin].
  apply In_replace in Hin as [Hin|[]].
  revert Hin. apply (replaceAll_stray_noLT (S (length (replace footerPattern [] b)))).
  - lia.
  - apply replace_footer_markersOnly. exact H.
Qed.

(** ** Numbers and dates *)

Lemma str_uint_oneLine d : oneLine (str (NilEmpty.string_of_uint d)).
Proof. induction d; simpl; constructor; (reflexivity || assumption). Qed.

Lemma numberToString_oneLine n : oneLine (numberToString n).
Proof.
  unfold numberToString.
  destruct (Z.to_int n) as [d|d].
  - destruct d; [repeat constructor|exact (str_uint_oneLine _)..].
  - change (oneLine (45%N :: str (NilZero.string_of_uint d))).
    constructor; [reflexivity|].
    destruct d; [repeat constructor|exact (str_uint_oneLine _)..].
Qed.

Lemma padStart_oneLine n fill s :
  oneLine fill -> oneLine s -> oneLine (padStart n fill s).
Proof.
  intros Hf Hs. unfold padStart.
  destruct (n <=? length s)%nat; [assumption|].
  destruct fill as [|c fill]; [assumption|].
  apply Forall_app. split; [|assumption].
  set (k := (n - length s)%nat).
  assert (H : oneLine (concat (repeat (c :: fill) k))).
  { apply Forall_concat. apply Forall_forall. intros x Hx.
    apply repeat_spec in Hx. subst x. exact Hf. }
  rewrite <- (firstn_skipn k) in H. apply Forall_app in H as [H _]. exact H.
Qed.

Lemma buildGMTOffset_oneLine d : oneLine (BatchUpdate.buildGMTOffset d).
Proof.
  unfold BatchUpdate.buildGMTOffset. cbv zeta.
  destruct (Z.abs (- getTimezoneOffset d) mod 60 =? 0)%Z;
    destruct (0 <=? - getTimezoneOffset d)%Z;
    repeat (apply Forall_app; split);
    try apply numberToString_oneLine; try apply padStart_oneLine;
    try apply numberToString_oneLine; repeat constructor.
Qed.

Lemma formatDate_oneLine d :
  oneLine (toLocaleString d) -> oneLine (BatchUpdate.formatDate d).
Proof.
  intros H. unfold BatchUpdate.formatDate. cbv zeta.
  apply Forall_app. split; [assumption|].
  apply Forall_app. split; [repeat constructor|apply buildGMTOffset_oneLine].
Qed.

Lemma stamp_oneLine d :
  oneLine (toLocaleString d) ->
  oneLine (32%N :: BatchUpdate.formatDate d ++ str "*").
Proof.
  intros H. constructor; [reflexivity|].
  apply Forall_app. split; [apply formatDate_oneLine; assumption|repeat constructor].
Qed.

Lemma buildUpdateFooter_text i d :
  BatchUpdate.buildUpdateFooter i true true d =
  footerText (32%N :: BatchUpdate.formatDate d ++ str "*")
    (Some (32%N :: BatchUpdate.formatDate d ++ str "*")) i [].
Proof.
  unfold BatchUpdate.buildUpdateFooter, footerText, idLine. cbv zeta.
  change (str "*Created: ") with (createdTag ++ [32%N]).
  change (str "*Last Updated: ") with (updatedTag ++ [32%N]).
  assoc. reflexivity.
Qed.

Lemma two_digits m :
  (1 <= m < 60)%Z ->
  padStart 2 (str "0") (numberToString m) = [digit (m / 10); digit (m mod 10)].
Proof.
  intros Hm.
  assert (Hall : forallb (fun k =>
            jsstring_eqb (padStart 2 (str "0") (numberToString (Z.of_nat k)))
              [digit (Z.of_nat k / 10); digit (Z.of_nat k mod 10)])
            (seq 1 59) = true) by (vm_compute; reflexivity).
  rewrite forallb_forall in Hall.
  specialize (Hall (Z.to_nat m)). rewrite Z2Nat.id in Hall by lia.
  unfold jsstring_eqb in Hall.
  destruct (list_eq_dec N.eq_dec _ _) as [E|]; [exact E|].
  assert (false = true); [|discriminate]. apply Hall. apply in_seq. lia.
Qed.

(** ** From the tests that compute to the conditions they decide *)

Lemma forallb_Forall (p : char -> bool) l :
  forallb p l = true <-> Forall (fun c => p c = true) l.
Proof. rewrite forallb_forall, Forall_forall. reflexivity. Qed.

Lemma validId_idToken i : validId i = true -> idToken i.
Proof.
  destruct i as [|c i]; [discriminate|]. intros H. split; [discriminate|].
  apply forallb_Forall. exact H.
Qed.

Lemma singleLine_oneLine l : singleLine l = true -> oneLine l.
Proof. apply forallb_Forall. Qed.

Lemma allSpace_blank w : allSpace w = true -> blank w.
Proof. apply forallb_Forall. Qed.

Lemma trailingSeparator_false b :
  trailingSeparator b = false -> ~ endsWithSeparator b.
Proof. apply test_separator_false. Qed.

Lemma markersOnlyb_sound b : markersOnlyb b = true -> markersOnly b.
Proof.
  induction b as [|c b IH]; intros H p q E.
  - destruct p; discriminate E.
  - cbn [markersOnlyb] in H. apply andb_true_iff in H as [Hc Hb].
    destruct p as [|d p]; simpl in E.
    + injection E as -> ->. rewrite N.eqb_refl in Hc.
      destruct (matchAt markerPattern (LT :: q)) as [rest|] eqn:Em; [|discriminate].
      apply matchAt_Some, den_marker in Em as (i & Hi & Em). eauto.
    + injection E as -> E. exact (IH Hb p q E).
Qed.

Lemma noLT_noMarker b : ~ In LT b -> Create.detectNoteId b = None.
Proof. intros H. apply detect_None. intros Hm. exact (H (hasMarker_LT b Hm)). Qed.

(** ** What [detectNoteId] returns *)

Lemma group1_idLine i : group1 (idLine i) = i.
Proof.
  unfold group1, idLine. rewrite !length_app.
  change (length markerOpen) with 14. change (length markerClose) with 4.
  replace (14 + (length i + 4) - 14 - 4) with (length i) by lia.
  change (skipn 14 (markerOpen ++ i ++ markerClose)) with (i ++ markerClose).
  rewrite firstn_app, Nat.sub_diag, firstn_all. simpl. apply app_nil_r.
Qed.

Lemma detect_Some b x : Create.detectNoteId b = Some x -> idToken x.
Proof.
  unfold Create.detectNoteId, detectWith. fold markerPattern.
  destruct (exec markerPattern b) as [[[p m] a]|] eqn:E; [|discriminate].
  intros H. injection H as <-.
  apply exec_Some in E as (_ & Hm & _).
  apply matchAt_Some, den_marker in Hm as (i & Hi & Hm).
  apply app_inv_tail in Hm. subst m. rewrite group1_idLine. exact Hi.
Qed.

Lemma detect_truthy b x : Create.detectNoteId b = Some x -> truthy (Some x) = true.
Proof.
  intros H. apply detect_Some in H as [Hne _]. destruct x; [congruence|reflexivity].
Qed.

(** ** The batch loop, one file at a time *)

Section Batch.

Import BatchUpdate.

Variable E : env.
Variable flags : Flags.

Lemma processFile_skip file content c w :
  files w file = Some content ->
  detectNoteId content = None ->
  processFile E flags file (c, w)
  = (Ok tt, (incSkipped c,
             {| files := files w;
                trace := trace w ++ [Log (MsgProcessing file)]
                           ++ [Log MsgSkippingNoId] |})).
Proof.
  intros Hf Hd. unfold processFile, tryCatch, bind, liftW, log, emit, readFileSync.
  cbn. rewrite Hf. cbn. rewrite Hd. cbn. rewrite <- app_assoc. reflexivity.
Qed.

Hypothesis Hdry : dry_run flags = false.
Hypothesis Hmut : forall t r, isMutation r -> bear E t r <> None.

Lemma processFile_update file content x c w :
  files w file = Some content ->
  detectNoteId content = Some x ->
  (forall t, bear E t (openNote x) <> None) ->
  (write_back flags = true -> writable E file = true) ->
  exists w',
    processFile E flags file (c, w) = (Ok tt, (incProcessed (incUpdated c), w'))
    /\ forall p, p <> file -> files w' p = files w p.
Proof.
  intros Hf Hd Hx Hw. pose proof (detect_truthy _ _ Hd) as Ht.
  unfold processFile, tryCatch, bind, liftW, log, emit, readFileSync.
  cbn. rewrite Hf. cbn. change (Create.detectNoteId content) with (detectNoteId content).
  rewrite Hd, Ht, Hdry. cbn.
  unfold noteExists, tryCatch, bind, bearExec. cbn.
  fold (openNote x).
  destruct (bear E _ (openNote x)) as [resp|] eqn:Eo; [|destruct (Hx _ Eo)].
  cbn. unfold updateNote, bind, bearExec, when, log, emit. cbn.
  match goal with |- context [bear E ?t ?r] =>
    destruct (bear E t r) as [resp'|] eqn:Ea;
      [|exfalso; apply (Hmut t r); [left; reflexivity|exact Ea]]
  end.
  cbn. destruct (write_back flags) eqn:Ewb; cbn.
  - unfold writeFileSync. rewrite (Hw eq_refl). cbn.
    eexists. split; [reflexivity|]. cbn. intros p Hp.
    unfold jsstring_eqb. destruct (list_eq_dec N.eq_dec p file); [contradiction|reflexivity].
  - eexists. split; [reflexivity|]. cbn. reflexivity.
Qed.

Lemma processFile_create file content x c w :
  files w file = Some content ->
  detectNoteId content = Some x ->
  (forall t, bear E t (openNote x) = None) ->
  (write_back flags = true -> writable E file = true) ->
  exists w',
    processFile E flags file (c, w) = (Ok tt, (incProcessed (incCreated c), w'))
    /\ forall p, p <> file -> files w' p = files w p.
Proof.
  intros Hf Hd Hx Hw. pose proof (detect_truthy _ _ Hd) as Ht.
  unfold processFile, tryCatch, bind, liftW, log, emit, readFileSync.
  cbn. rewrite Hf. cbn. change (Create.detectNoteId content) with (detectNoteId content).
  rewrite Hd, Ht, Hdry. cbn.
  unfold noteExists, tryCatch, bind, bearExec. cbn.
  fold (openNote x). rewrite Hx. cbn.
  unfold createNote, bind, bearExec, when, log, emit. cbn.
  match goal with |- context [bear E ?t ?r] =>
    destruct (bear E t r) as [resp'|] eqn:Ea;
      [|exfalso; apply (Hmut t r); [right; reflexivity|exact Ea]]
  end.
  cbn. destruct (write_back flags) eqn:Ewb; cbn.
  - unfold writeFileSync. rewrite (Hw eq_refl). cbn.
    eexists. split; [reflexivity|]. cbn. intros p Hp.
    unfold jsstring_eqb. destruct (list_eq_dec N.eq_dec p file); [contradiction|reflexivity].
  - eexists. split; [reflexivity|]. cbn. reflexivity.
Qed.

(** The loop over files of three kinds, in whatever order: without marker,
    with the marker of a note that the store knows, with the marker of a
    note that it does not know. *)
Lemma loop_tally : forall fs unmarked existing missing c w,
  Permutation fs (unmarked ++ existing ++ missing) ->
  NoDup fs ->
  (forall f, In f unmarked ->
     exists b, files w f = Some b /\ detectNoteId b = None) ->
  (forall f, In f existing ->
     exists b x, files w f = Some b /\ detectNoteId b = Some x
                 /\ forall t, bear E t (openNote x) <> None) ->
  (forall f, In f missing ->
     exists b x, files w f = Some b /\ detectNoteId b = Some x
                 /\ forall t, bear E t (openNote x) = None) ->
  (write_back flags = true ->
   forall f, In f (existing ++ missing) -> writable E f = true) ->
  exists c' w',
    forEach fs (processFile E flags) (c, w) = (Ok tt, (c', w'))
    /\ skipped c' = skipped c + length unmarked
    /\ updated c' = updated c + length existing
    /\ created c' = created c + length missing
    /\ errors c' = errors c
    /\ processed c' = processed c + length existing + length missing.
Proof.
  induction fs as [|f fs IH]; intros unmarked existing missing c w Hp Hnd Hu He Hm Hw.
  - apply Permutation_nil in Hp. apply app_eq_nil in Hp as [-> Hp].
    apply app_eq_nil in Hp as [-> ->].
    exists c, w. cbn. repeat split; lia.
  - inversion Hnd as [|? ? Hnin Hnd']; subst.
    assert (Hin : In f (unmarked ++ existing ++ missing)).
    { apply (Permutation_in f Hp). left. reflexivity. }
    assert (Hrest : forall l1 l2 (w' : world),
              Permutation fs (l1 ++ l2) ->
              (forall p, p <> f -> files w' p = files w p) ->
              forall g, In g (l1 ++ l2) -> files w' g = files w g).
    { intros l1 l2 w' Hp' Hf g Hg. apply Hf. intros ->. apply Hnin.
      apply (Permutation_in _ (Permutation_sym Hp')). exact Hg. }
    cbn [forEach]. unfold bind at 1.
    apply in_app_or in Hin as [Hin|Hin]; [|apply in_app_or in Hin as [Hin|Hin]].
    + (* no marker *)
      destruct (Hu f Hin) as (b & Hb & Hd).
      apply in_split in Hin as (u1 & u2 & ->).
      rewrite <- app_assoc in Hp.
      apply (Permutation_cons_app_inv u1 (u2 ++ existing ++ missing)) in Hp.
      rewrite app_assoc in Hp.
      rewrite (processFile_skip f b c w Hb Hd).
      destruct (IH (u1 ++ u2) existing missing (incSkipped c)
                  {| files := files w;
                     trace := trace w ++ [Log (MsgProcessing f)] ++ [Log MsgSkippingNoId] |}
                  Hp Hnd')
        as (c' & w' & Hr & H1 & H2 & H3 & H4 & H5); cbn [files]; try assumption.
      { intros g Hg. apply Hu. apply in_app_or in Hg as [Hg|Hg]; apply in_or_app;
          [left|right; right]; exact Hg. }
      exists c', w'. split; [exact Hr|]. cbn in H1, H2, H3, H4, H5.
      rewrite !length_app in *. cbn [length]. repeat split; lia.
    + (* the note exists *)
      destruct (He f Hin) as (b & x & Hb & Hd & Hx).
      destruct (processFile_update f b x c w Hb Hd Hx) as (w1 & -> & Hf1).
      { intros Hwb. apply (Hw Hwb). apply in_or_app. left. exact Hin. }
      apply in_split in Hin as (e1 & e2 & ->).
      assert (Hp' : Permutation fs (unmarked ++ (e1 ++ e2) ++ missing)).
      { rewrite <- !app_assoc. rewrite (app_assoc unmarked e1).
        apply Permutation_cons_app_inv with (a := f).
        rewrite <- !app_assoc in *. exact Hp. }
      pose proof (Hrest _ _ w1 Hp' Hf1) as Hsame.
      destruct (IH unmarked (e1 ++ e2) missing (incProcessed (incUpdated c)) w1 Hp' Hnd')
        as (c' & w' & Hr & H1 & H2 & H3 & H4 & H5).
      { intros g Hg. rewrite Hsame by (apply in_or_app; left; exact Hg). apply Hu, Hg. }
      { intros g Hg. rewrite Hsame by (apply in_or_app; right; apply in_or_app; left; exact Hg).
        apply He. apply in_app_or in Hg as [Hg|Hg]; apply in_or_app;
          [left|right; right]; exact Hg. }
      { intros g Hg. rewrite Hsame by (apply in_or_app; right; apply in_or_app; right; exact Hg).
        apply Hm, Hg. }
      { intros Hwb g Hg. apply (Hw Hwb). rewrite <- app_assoc in Hg.
        apply in_app_or in Hg as [Hg|Hg]; [apply in_or_app; left; apply in_or_app; left; exact Hg|].
        rewrite <- app_assoc. apply in_or_app. right. right. exact Hg. }
      exists c', w'. split; [exact Hr|]. cbn in H1, H2, H3, H4, H5.
      rewrite !length_app in *. cbn [length]. repeat split; lia.
    + (* the note does not exist *)
      destruct (Hm f Hin) as (b & x & Hb & Hd & Hx).
      destruct (processFile_create f b x c w Hb Hd Hx) as (w1 & -> & Hf1).
      { intros Hwb. apply (Hw Hwb). apply in_or_app. right. exact Hin. }
      apply in_split in Hin as (m1 & m2 & ->).
      assert (Hp' : Permutation fs (unmarked ++ existing ++ m1 ++ m2)).
      { rewrite !app_assoc.
        apply Permutation_cons_app_inv with (a := f).
        rewrite <- !app_assoc in *. exact Hp. }
      pose proof (Hrest _ _ w1 Hp' Hf1) as Hsame.
      destruct (IH unmarked existing (m1 ++ m2) (incProcessed (incCreated c)) w1 Hp' Hnd')
        as (c' & w' & Hr & H1 & H2 & H3 & H4 & H5).
      { intros g Hg. rewrite Hsame by (apply in_or_app; left; exact Hg). apply Hu, Hg. }
      { intros g Hg. rewrite Hsame by (apply in_or_app; right; apply in_or_app; left; exact Hg).
        apply He, Hg. }
      { intros g Hg. rewrite Hsame by (apply in_or_app; right; apply in_or_app; right; exact Hg).
        apply Hm. apply in_app_or in Hg as [Hg|Hg]; apply in_or_app;
          [left|right; right]; exact Hg. }
      { intros Hwb g Hg. apply (Hw Hwb).
        apply in_app_or in Hg as [Hg|Hg]; [apply in_or_app; left; exact Hg|].
        apply in_or_app. right.
        apply in_app_or in Hg as [Hg|Hg]; apply in_or_app; [left|right; right]; exact Hg. }
      exists c', w'. split; [exact Hr|]. cbn in H1, H2, H3, H4, H5.
      rewrite !length_app in *. cbn [length]. repeat split; lia.
Qed.

End Batch.

(** ** A program logic on traces

    [hoare P c Q X]: from a world whose trace satisfies [P], the command [c]
    either returns [a] with a trace that satisfies [Q a], or throws with a
    trace that satisfies [X]. *)

Section Hoare.

Context {A B : Type}.
Variables (P : list event -> Prop) (X : list event -> Prop).

Lemma hoare_ret (a : A) (Q : A -> list event -> Prop) :
  (forall t, P t -> Q a t) -> hoare P (ret a) Q X.
Proof. intros H w Hw. apply H, Hw. Qed.

Lemma hoare_throw (e : error) (Q : A -> list event -> Prop) :
  (forall t, P t -> X t) -> hoare P (throw e) Q X.
Proof. intros H w Hw. apply H, Hw. Qed.

Lemma hoare_bind (c : M world A) (f : A -> M world B)
  (Q1 : A -> list event -> Prop) (Q2 : B -> list event -> Prop) :
  hoare P c Q1 X -> (forall a, hoare (Q1 a) (f a) Q2 X) ->
  hoare P (bind c f) Q2 X.
Proof.
  intros Hc Hf w Hw. unfold bind. specialize (Hc w Hw).
  destruct (c w) as [[a|e] w']; [apply Hf, Hc|exact Hc].
Qed.

Lemma hoare_tryCatch (c : M world A) (h : error -> M world A)
  (Q : A -> list event -> Prop) (X1 : list event -> Prop) :
  hoare P c Q X1 -> (forall e, hoare X1 (h e) Q X) ->
  hoare P (tryCatch c h) Q X.
Proof.
  intros Hc Hh w Hw. unfold tryCatch. specialize (Hc w Hw).
  destruct (c w) as [[a|e] w']; [exact Hc|apply Hh, Hc].
Qed.

Lemma hoare_conseq (c : M world A) (P' : list event -> Prop)
  (Q Q' : A -> list event -> Prop) (X' : list event -> Prop) :
  hoare P' c Q' X' ->
  (forall t, P t -> P' t) -> (forall a t, Q' a t -> Q a t) ->
  (forall t, X' t -> X t) ->
  hoare P c Q X.
Proof.
  intros Hc HP HQ HX w Hw. specialize (Hc w (HP _ Hw)).
  destruct (c w) as [[a|e] w']; auto.
Qed.

End Hoare.

Lemma hoare_emit (P : list event -> Prop) (e : event)
  (Q : unit -> list event -> Prop) (X : list event -> Prop) :
  (forall t, P t -> Q tt (t ++ [e])) -> hoare P (emit e) Q X.
Proof. intros H w Hw. apply H, Hw. Qed.

Lemma hoare_bearExec (P : list event -> Prop) (E : env) (r : request)
  (Q : response -> list event -> Prop) (X : list event -> Prop) :
  (forall t resp, P t -> Q resp (t ++ [Call r (Some resp)])) ->
  (forall t, P t -> X (t ++ [Call r None])) ->
  hoare P (bearExec E r) Q X.
Proof.
  intros H1 H2 w Hw. unfold bearExec.
  destruct (bear E (trace w) r); cbn; [apply H1|apply H2]; exact Hw.
Qed.

Lemma hoare_existsSync (P : list event -> Prop) (p : path)
  (X : list event -> Prop) :
  hoare P (existsSync p) (fun _ => P) X.
Proof. intros w Hw. exact Hw. Qed.

Lemma hoare_readFileSync (P : list event -> Prop) (p : path) :
  hoare P (readFileSync p) (fun _ => P) P.
Proof. intros w Hw. unfold readFileSync. destruct (files w p); exact Hw. Qed.

Lemma hoare_writeFileSync (P : list event -> Prop) (E : env) (p : path)
  (content : jsstring) (Q : unit -> list event -> Prop) :
  (forall t, P t -> Q tt (t ++ [FileWrite p content])) ->
  hoare P (writeFileSync E p content) Q P.
Proof.
  intros H w Hw. unfold writeFileSync.
  destruct (writable E p); cbn; [apply H|]; exact Hw.
Qed.

(** Commands that keep an invariant of the trace because each event they
    emit keeps it. *)
Section Invariant.

Variable Inv : list event -> Prop.
Variable Good : event -> Prop.
Hypothesis stable : forall t e, Inv t -> Good e -> Inv (t ++ [e]).

Lemma keeps_ret {A : Type} (a : A) (R : A -> Prop) : R a -> keeps Inv (ret a) R.
Proof. intros H. apply hoare_ret. auto. Qed.

Lemma keeps_throw {A : Type} (e : error) (R : A -> Prop) : keeps Inv (throw e) R.
Proof. apply hoare_throw. auto. Qed.

Lemma keeps_bind {A B : Type} (c : M world A) (f : A -> M world B)
  (R1 : A -> Prop) (R2 : B -> Prop) :
  keeps Inv c R1 -> (forall a, R1 a -> keeps Inv (f a) R2) -> keeps Inv (bind c f) R2.
Proof.
  intros Hc Hf. eapply hoare_bind; [exact Hc|].
  intros a w [Hi Hr]. exact (Hf a Hr w Hi).
Qed.

Lemma keeps_tryCatch {A : Type} (c : M world A) (h : error -> M world A)
  (R : A -> Prop) :
  keeps Inv c R -> (forall e, keeps Inv (h e) R) -> keeps Inv (tryCatch c h) R.
Proof. intros Hc Hh. eapply hoare_tryCatch; [exact Hc|exact Hh]. Qed.

Lemma keeps_log (m : message) : Good (Log m) -> keeps Inv (log m) (fun _ => True).
Proof. intros H. apply hoare_emit. auto. Qed.

Lemma keeps_bearExec (E : env) (r : request) :
  (forall res, Good (Call r res)) -> keeps Inv (bearExec E r) (fun _ => True).
Proof. intros H. apply hoare_bearExec; auto. Qed.

Lemma keeps_existsSync (p : path) : keeps Inv (existsSync p) (fun _ => True).
Proof. intros w Hw. split; [exact Hw|exact I]. Qed.

Lemma keeps_readFileSync (p : path) : keeps Inv (readFileSync p) (fun _ => True).
Proof. intros w Hw. unfold readFileSync. destruct (files w p); auto. Qed.

Lemma keeps_writeFileSync (E : env) (p : path) (content : jsstring) :
  Good (FileWrite p content) ->
  keeps Inv (writeFileSync E p content) (fun _ => True).
Proof. intros H. apply hoare_writeFileSync. auto. Qed.

Lemma keeps_when (b : bool) (c : M world unit) :
  keeps Inv c (fun _ => True) -> keeps Inv (when b c) (fun _ => True).
Proof. intros H. destruct b; [exact H|apply keeps_ret; exact I]. Qed.

Lemma keeps_argsWithPipe (E : env) (received : option jsstring) (required : bool) :
  keeps Inv (argsWithPipe E received required) (fun _ => True).
Proof.
  unfold argsWithPipe. destruct (truthy received); [apply keeps_ret; exact I|].
  destruct (pipe E); [destruct required|];
    (apply keeps_ret; exact I) || apply keeps_throw.
Qed.

End Invariant.

(** ** The working identifier of [UpdateText.run] *)

Section Supplied.

Variable E : env.
Variable flags : UpdateText.Flags.
Variable supplied : jsstring.
Hypothesis Ht : truthy (Some supplied) = true.

Lemma Inv_app t evs :
  (workingIdInv supplied) t -> callsSupplied supplied evs ->
  (forall resp d,
     In (Call (openNote supplied) (Some resp)) evs ->
     UpdateText.detectNoteId (note resp) = Some d -> d <> supplied ->
     mismatchLogged supplied d evs) ->
  (workingIdInv supplied) (t ++ evs).
Proof.
  intros [Ha Hb] Hc Hd. split.
  - intros r res Hin. apply in_app_or in Hin as [Hin|Hin]; eauto.
  - intros resp d Hin Hdet Hne. apply in_app_or in Hin as [Hin|Hin].
    + destruct (Hb resp d Hin Hdet Hne) as (H1 & H2 & H3).
      repeat split; apply in_or_app; left; assumption.
    + destruct (Hd resp d Hin Hdet Hne) as (H1 & H2 & H3).
      repeat split; apply in_or_app; right; assumption.
Qed.

Lemma Inv_stable t e : (workingIdInv supplied) t -> (workingIdGood supplied) e -> (workingIdInv supplied) (t ++ [e]).
Proof.
  intros Hi Hg. apply Inv_app; [exact Hi| |].
  - intros r res [Hin|[]]. subst e. apply Hg.
  - intros resp d [Hin|[]]. subst e. destruct Hg as [_ Hg]. discriminate Hg.
Qed.

Ltac in_list := cbn; repeat (try (left; reflexivity); right).

Ltac run_step :=
  cbn -[UpdateText.detectNoteId truthy jsstring_eqb firstn length Nat.ltb].

(* the calls among the listed events carry the supplied identifier *)
Ltac only_calls :=
  let r := fresh "r" in let res := fresh "res" in let Hin := fresh "Hin" in
  intros r res Hin; cbn in Hin;
  repeat (destruct Hin as [Hin|Hin]; [try discriminate Hin|]);
  try contradiction; injection Hin as <- _; reflexivity.

(* the one call to open-note among the listed events *)
Ltac the_call Hin :=
  cbn in Hin;
  repeat (destruct Hin as [Hin|Hin]; [try discriminate Hin|]);
  try contradiction; injection Hin as <-.

(** The check of the note's current content against the working
    identifier. *)
Lemma check_keeps :
  keeps (workingIdInv supplied)
    (currentContent <- UpdateText.getNoteContent E supplied ;;
     let detectedId := UpdateText.detectNoteId currentContent in
     (if truthy detectedId
         && negb (jsstring_eqb (orEmpty detectedId) supplied) then
        log (MsgMismatchEmbedded (orEmpty detectedId)) ;;
        log (MsgMismatchCurrent supplied) ;;
        log MsgIdsDontMatch ;;
        when (negb (UpdateText.no_confirm flags))
          (log MsgConsiderEmbedded ;; log MsgContinuingWithCurrent)
      else if truthy detectedId
              && jsstring_eqb (orEmpty detectedId) supplied then
        log MsgConfirmedMatching
      else ret tt) ;;
     when (negb (UpdateText.no_confirm flags) && truthy (Some currentContent))
       (log MsgPreviewHeader ;;
        log MsgRule ;;
        log (MsgPreview (firstn 200 currentContent
                           ++ (if (200 <? length currentContent)%nat
                               then str "..." else []))) ;;
        log MsgRule))%monad
    (fun _ => True).
Proof.
  intros w Hi.
  unfold UpdateText.getNoteContent, tryCatch, bind, bearExec, when, log, emit, ret.
  fold (openNote supplied). run_step.
  destruct (bear E (trace w) (openNote supplied)) as [resp|] eqn:Eb; run_step.
  - destruct (UpdateText.detectNoteId (note resp)) as [d|] eqn:Ed.
    + pose proof (detect_truthy _ _ Ed) as Htd.
      cbn [orEmpty]. rewrite Htd. cbn [andb].
      unfold jsstring_eqb. destruct (list_eq_dec N.eq_dec d supplied) as [->|Hne];
        cbn [negb];
        destruct (UpdateText.no_confirm flags); cbn [negb andb];
        try destruct (truthy (Some (note resp))); run_step;
        (split; [|exact I]);
        rewrite <- ?app_assoc; (apply Inv_app; [exact Hi|only_calls|]);
        intros resp' d' Hin Hd' Hne'; the_call Hin;
        change (UpdateText.detectNoteId (note resp))
          with (Create.detectNoteId (note resp)) in *;
        rewrite Ed in Hd'; injection Hd' as <-;
        try congruence;
        repeat split; in_list.
    + change (truthy (@None jsstring)) with false. cbn [andb]. run_step.
      destruct (UpdateText.no_confirm flags); cbn [negb andb];
        try destruct (truthy (Some (note resp))); run_step;
        (split; [|exact I]);
        rewrite <- ?app_assoc; (apply Inv_app; [exact Hi|only_calls|]);
        intros resp' d' Hin Hd' Hne'; the_call Hin;
        change (UpdateText.detectNoteId (note resp))
          with (Create.detectNoteId (note resp)) in *;
        congruence.
  - change (UpdateText.detectNoteId []) with (@None jsstring).
    change (truthy (@None jsstring)) with false.
    change (truthy (Some [])) with false. cbn [andb]. run_step.
    destruct (UpdateText.no_confirm flags); run_step;
      (split; [|exact I]);
      rewrite <- ?app_assoc; (apply Inv_app; [exact Hi|only_calls|]);
      intros resp' d' Hin Hd' Hne'; cbn in Hin;
      repeat (destruct Hin as [Hin|Hin]; [try discriminate Hin|]);
      contradiction.
Qed.

Hypothesis Hid : UpdateText.id flags = Some supplied.

Ltac good := first [exact I | split; reflexivity].
Ltac klog := apply (keeps_log (workingIdInv supplied) (workingIdGood supplied) Inv_stable); good.
Ltac kret := apply keeps_ret; try exact I.
Ltac kbind := eapply keeps_bind with (R1 := fun _ => True); [|intros ? _].

Lemma writeBack_keeps filePath content :
  keeps (workingIdInv supplied) (UpdateText.writeBackToFile E filePath content) (fun _ => True).
Proof.
  unfold UpdateText.writeBackToFile. apply keeps_tryCatch.
  - cbv zeta. kbind; [|klog].
    apply (keeps_writeFileSync (workingIdInv supplied) (workingIdGood supplied) Inv_stable). exact I.
  - intros _. klog.
Qed.

Lemma run_keeps cmdArgs :
  keeps (workingIdInv supplied) (UpdateText.run E flags cmdArgs) (fun _ => True).
Proof.
  unfold UpdateText.run. rewrite Hid, Ht. cbn [negb andb].
  kbind; [klog|]. kbind; [klog|].
  (* the content *)
  eapply keeps_bind with (R1 := fun _ => True).
  { destruct (truthy (UpdateText.content_file flags)); [kret|].
    apply keeps_argsWithPipe. }
  intros args _.
  eapply keeps_bind with (R1 := fun _ => True).
  { destruct (truthy (UpdateText.content_file flags)); [|kret].
    apply keeps_tryCatch; [|intros _; apply keeps_throw]. cbv zeta.
    eapply keeps_bind; [apply keeps_existsSync|intros found _].
    kbind; [destruct (negb found); [apply keeps_throw|kret]|].
    eapply keeps_bind; [apply keeps_readFileSync|intros content _].
    kbind; [klog|]. kbind; [klog|]. kbind; [klog|]. kret. }
  intros content _.
  (* the working identifier is the supplied one *)
  eapply keeps_bind with (R1 := fun a => a = Some supplied); [kret; reflexivity|].
  intros noteId ->. rewrite Ht. cbn [negb andb].
  eapply keeps_bind with (R1 := fun a => fst a = Some supplied); [kret; reflexivity|].
  intros found Hfound. rewrite Hfound, Ht. cbn [negb andb orEmpty when].
  kbind; [kret|].
  kbind; [apply check_keeps|].
  eapply keeps_bind with (R1 := fun _ => True).
  { destruct (truthy content); [|kret].
    kbind; [|kret]. apply keeps_when, writeBack_keeps. }
  intros content' _. cbv zeta.
  kbind; [klog|].
  eapply keeps_bind;
    [apply (keeps_bearExec (workingIdInv supplied) (workingIdGood supplied) Inv_stable); intros res; good|intros response _].
  kbind; [klog|].
  kbind; [|klog].
  destruct (UpdateText.view_updated flags); [|klog].
  kbind; [klog|]. kbind; [klog|]. kbind; [klog|]. klog.
Qed.

End Supplied.

Lemma hoare_any (A : Type) (P : list event -> Prop) (c : M world A) :
  hoare P c (fun _ _ => True) (fun _ => True).
Proof. intros w _. destruct (c w) as [[a|e] w']; exact I. Qed.

Lemma addTextDone_stable t e : addTextDone t -> True -> addTextDone (t ++ [e]).
Proof.
  intros (r & resp & Hin & Ha) _. exists r, resp. split; [|exact Ha].
  apply in_or_app. left. exact Hin.
Qed.

(** A run that returns has made its [add-text] call, and the call
    succeeded. *)
Lemma run_reaches (E : env) (flags : UpdateText.Flags) (cmdArgs : option jsstring) :
  hoare (fun _ => True) (UpdateText.run E flags cmdArgs)
    (fun _ t => addTextDone t) (fun _ => True).
Proof.
  unfold UpdateText.run.
  do 4 (eapply hoare_bind; [apply hoare_any|intros ?]). cbv zeta.
  do 5 (eapply hoare_bind; [apply hoare_any|intros ?]). cbv zeta.
  eapply hoare_bind; [apply hoare_any|intros ?].
  eapply hoare_bind with (Q1 := fun _ t => addTextDone t).
  - apply hoare_bearExec; [|auto]. intros t resp _.
    eexists _, resp. split; [apply in_or_app; right; left; reflexivity|reflexivity].
  - intros response.
    assert (K : keeps addTextDone
                  (log (MsgUpdatedWith
                          ((if UpdateText.creation_date flags
                            then [str "creation date"] else [])
                           ++ (if UpdateText.add_id flags
                               then [str "note ID"] else [])
                           ++ (if UpdateText.timestamp flags
                               then [str "timestamp"] else [])));;
                   (if UpdateText.view_updated flags
                    then log MsgUpdatedContentHeader;; log MsgRule;;
                         log (MsgNoteContents response);; log MsgRule
                    else log (MsgNoteContents response));;
                   log MsgUpdateCompleted)%monad (fun _ => True)).
    { pose proof (keeps_log addTextDone (fun _ => True) addTextDone_stable) as L.
      repeat (eapply keeps_bind with (R1 := fun _ => True); [|intros ? _]);
        try (apply L; exact I).
      destruct (UpdateText.view_updated flags); [|apply L; exact I].
      repeat (eapply keeps_bind with (R1 := fun _ => True); [|intros ? _]);
        apply L; exact I. }
    eapply hoare_conseq; [exact K|auto|intros u t [H _]; exact H|auto].
Qed.

(** ** The check of the note's current content *)

Section HoareE.

Context {A B : Type}.
Variables (P : list event -> Prop) (X : error -> list event -> Prop).

Lemma hoareE_ret (a : A) (Q : A -> list event -> Prop) :
  (forall t, P t -> Q a t) -> hoareE P (ret a) Q X.
Proof. intros H w Hw. apply H, Hw. Qed.

Lemma hoareE_bind (c : M world A) (f : A -> M world B)
  (Q1 : A -> list event -> Prop) (Q2 : B -> list event -> Prop) :
  hoareE P c Q1 X -> (forall a, hoareE (Q1 a) (f a) Q2 X) ->
  hoareE P (bind c f) Q2 X.
Proof.
  intros Hc Hf w Hw. unfold bind. specialize (Hc w Hw).
  destruct (c w) as [[a|e] w']; [apply Hf, Hc|exact Hc].
Qed.

(** A command whose errors need not be told apart. *)
Lemma hoareE_hoare (c : M world A) (Q : A -> list event -> Prop)
  (X' : list event -> Prop) :
  hoare P c Q X' -> (forall e t, X' t -> X e t) -> hoareE P c Q X.
Proof.
  intros Hc HX w Hw. specialize (Hc w Hw).
  destruct (c w) as [[a|e] w']; [exact Hc|apply HX, Hc].
Qed.

End HoareE.

Lemma unchecked_filter t : Forall unchecked t -> filter isMismatchLine t = [].
Proof.
  induction 1 as [|e t He _ IH]; [reflexivity|]. cbn [filter].
  destruct e as [m|m|r res|p c]; cbn [unchecked] in He;
    try rewrite He; try contradiction; exact IH.
Qed.

Lemma Forall_snoc (A : Type) (P : A -> Prop) t e :
  Forall P t -> P e -> Forall P (t ++ [e]).
Proof. intros Ht He. apply Forall_app. split; [exact Ht|constructor; [exact He|constructor]]. Qed.

Section Checked.

Variable E : env.
Variable flags : UpdateText.Flags.
Variable supplied : jsstring.
Hypothesis Ht : truthy (Some supplied) = true.

Lemma checked_stable t e :
  remoteChecked E supplied t -> isMismatchLine e = false ->
  remoteChecked E supplied (t ++ [e]).
Proof.
  intros (t1 & t2 & Et & Hq & Hf) He. exists t1, (t2 ++ [e]).
  split; [rewrite Et, <- app_assoc; reflexivity|]. split; [exact Hq|].
  rewrite filter_app, Hf. cbn [filter]. rewrite He. apply app_nil_r.
Qed.

Ltac run_step :=
  cbn -[UpdateText.detectNoteId truthy jsstring_eqb firstn length Nat.ltb].

(** From a trace without call, the check calls [open-note] and reports what
    the answer holds; it does not throw. *)
Lemma check_reports (X : error -> list event -> Prop) :
  hoareE (Forall unchecked)
    (currentContent <- UpdateText.getNoteContent E supplied ;;
     let detectedId := UpdateText.detectNoteId currentContent in
     (if truthy detectedId
         && negb (jsstring_eqb (orEmpty detectedId) supplied) then
        log (MsgMismatchEmbedded (orEmpty detectedId)) ;;
        log (MsgMismatchCurrent supplied) ;;
        log MsgIdsDontMatch ;;
        when (negb (UpdateText.no_confirm flags))
          (log MsgConsiderEmbedded ;; log MsgContinuingWithCurrent)
      else if truthy detectedId
              && jsstring_eqb (orEmpty detectedId) supplied then
        log MsgConfirmedMatching
      else ret tt) ;;
     when (negb (UpdateText.no_confirm flags) && truthy (Some currentContent))
       (log MsgPreviewHeader ;;
        log MsgRule ;;
        log (MsgPreview (firstn 200 currentContent
                           ++ (if (200 <? length currentContent)%nat
                               then str "..." else []))) ;;
        log MsgRule))%monad
    (fun _ => remoteChecked E supplied) X.
Proof.
  intros w Hq.
  assert (Hgoal : forall lines,
            filter isMismatchLine lines
            = mismatchReport supplied (bear E (trace w) (openNote supplied)) ->
            remoteChecked E supplied
              (trace w ++ Call (openNote supplied) (bear E (trace w) (openNote supplied))
                 :: lines)).
  { intros lines Hl. exists (trace w), lines. split; [reflexivity|]. split; [exact Hq|].
    rewrite filter_app, (unchecked_filter _ Hq). cbn [filter isMismatchLine app]. exact Hl. }
  unfold UpdateText.getNoteContent, tryCatch, bind, bearExec, when, log, emit, ret.
  fold (openNote supplied). run_step.
  unfold mismatchReport, remoteMarker in Hgoal.
  destruct (bear E (trace w) (openNote supplied)) as [resp|] eqn:Eb; run_step.
  - destruct (UpdateText.detectNoteId (note resp)) as [d|] eqn:Ed.
    + pose proof (detect_truthy _ _ Ed) as Htd.
      cbn [orEmpty]. rewrite Htd. cbn [andb].
      destruct (jsstring_eqb d supplied); cbn [negb];
        destruct (UpdateText.no_confirm flags); cbn [negb andb];
        try destruct (truthy (Some (note resp))); run_step;
        rewrite <- ?app_assoc; apply Hgoal; reflexivity.
    + change (truthy (@None jsstring)) with false. cbn [andb]. run_step.
      destruct (UpdateText.no_confirm flags); cbn [negb andb];
        try destruct (truthy (Some (note resp))); run_step;
        rewrite <- ?app_assoc; apply Hgoal; reflexivity.
  - change (UpdateText.detectNoteId []) with (@None jsstring).
    change (truthy (@None jsstring)) with false.
    change (truthy (Some [])) with false. cbn [andb]. run_step.
    destruct (UpdateText.no_confirm flags); run_step;
      rewrite <- ?app_assoc; apply Hgoal; reflexivity.
Qed.

Hypothesis Hid : UpdateText.id flags = Some supplied.

Ltac quiet_steps :=
  repeat first
    [ eapply keeps_bind with (R1 := fun _ => True); [|intros ? _]
    | apply (keeps_log (Forall unchecked) unchecked (Forall_snoc event unchecked));
      reflexivity
    | apply keeps_tryCatch; [|intros ?]
    | apply keeps_existsSync
    | apply keeps_readFileSync
    | apply keeps_argsWithPipe
    | apply keeps_throw
    | apply keeps_ret; exact I ].

Ltac checked_steps :=
  repeat first
    [ eapply keeps_bind with (R1 := fun _ => True); [|intros ? _]
    | apply (keeps_log (remoteChecked E supplied) (fun e => isMismatchLine e = false)
               checked_stable); reflexivity
    | apply (keeps_writeFileSync (remoteChecked E supplied)
               (fun e => isMismatchLine e = false) checked_stable); reflexivity
    | apply (keeps_bearExec (remoteChecked E supplied)
               (fun e => isMismatchLine e = false) checked_stable); intros ?; reflexivity
    | apply keeps_when
    | apply keeps_tryCatch; [|intros ?]
    | apply keeps_throw
    | apply keeps_ret; exact I ].

(** Unless reading the content file fails, the run makes the check. *)
Lemma run_checks cmdArgs :
  hoareE (Forall unchecked) (UpdateText.run E flags cmdArgs)
    (fun _ => remoteChecked E supplied)
    (fun e t => e = ErrReadingFile \/ remoteChecked E supplied t).
Proof.
  unfold UpdateText.run. rewrite Hid, Ht. cbn [negb andb].
  (* the lines before the content *)
  do 2 (eapply hoareE_bind with (Q1 := fun _ => Forall unchecked);
        [intros w Hw; apply Forall_snoc; [exact Hw|reflexivity]|intros ?]).
  eapply hoareE_bind with (Q1 := fun _ => Forall unchecked).
  { intros w Hw. destruct (truthy (UpdateText.content_file flags)); [exact Hw|].
    unfold argsWithPipe. destruct (truthy cmdArgs); [exact Hw|].
    destruct (pipe E); exact Hw. }
  intros args.
  (* the content: the only error that ends the run before the check *)
  eapply hoareE_bind with (Q1 := fun _ => Forall unchecked).
  { destruct (truthy (UpdateText.content_file flags)); [|apply hoareE_ret; auto].
    intros w Hw. unfold tryCatch.
    match goal with |- context [?c w] =>
      match c with
      | bind _ _ =>
          assert (K : keeps (Forall unchecked) c (fun _ => True));
            [|specialize (K w Hw); destruct (c w) as [[?|?] ?]]
      end
    end.
    - eapply keeps_bind; [apply keeps_existsSync|intros found _].
      eapply keeps_bind with (R1 := fun _ => True);
        [destruct (negb found); quiet_steps|intros ? _].
      quiet_steps.
    - apply K.
    - left. reflexivity. }
  intros content.
  eapply hoareE_bind with (Q1 := fun a t => Forall unchecked t /\ a = Some supplied);
    [apply hoareE_ret; auto|].
  intros noteId.
  eapply hoareE_bind
    with (Q1 := fun a t => Forall unchecked t /\ fst a = Some supplied).
  { intros w [Hw ->]. rewrite Ht. cbn [negb andb]. split; [exact Hw|reflexivity]. }
  intros found.
  eapply hoareE_bind with (Q1 := fun _ t => Forall unchecked t /\ fst found = Some supplied).
  { intros w [Hw Hf]. rewrite Hf, Ht. cbn [negb andb]. split; [exact Hw|reflexivity]. }
  intros _.
  eapply hoareE_bind with (Q1 := fun _ => remoteChecked E supplied).
  { intros w [Hw Hf]. rewrite Hf, Ht. cbn [when orEmpty].
    exact (check_reports (fun e t => e = ErrReadingFile \/ remoteChecked E supplied t)
             w Hw). }
  intros _.
  (* after the check *)
  apply hoareE_hoare with (X' := remoteChecked E supplied); [|intros e t H; right; exact H].
  eapply hoare_conseq with (Q' := fun a t => remoteChecked E supplied t /\ True)
                           (X' := remoteChecked E supplied)
                           (P' := remoteChecked E supplied);
    [|auto|intros ? t [H _]; exact H|auto].
  match goal with |- hoare _ ?c _ _ =>
    fold (keeps (remoteChecked E supplied) c (fun _ => True)) end.
  eapply keeps_bind with (R1 := fun _ => True).
  { unfold UpdateText.writeBackToFile. destruct (truthy content); checked_steps. }
  intros content' _. cbv zeta.
  eapply keeps_bind with (R1 := fun _ => True); [checked_steps|intros ? _].
  eapply keeps_bind with (R1 := fun _ => True); [checked_steps|intros response _].
  eapply keeps_bind with (R1 := fun _ => True); [checked_steps|intros ? _].
  eapply keeps_bind with (R1 := fun _ => True); [|intros ? _; checked_steps].
  destruct (UpdateText.view_updated flags); checked_steps.
Qed.

End Checked.

(** ** Write-back after the remote mutation *)

Lemma writesFollow_app m t u :
  writesFollow m (t ++ u)
  = writesFollow m t && writesFollow (m || existsb isSuccess t) u.
Proof.
  revert m; induction t as [|e t IH]; intros m; cbn [app writesFollow existsb].
  - rewrite orb_false_r. reflexivity.
  - destruct e as [msg|msg|r res|p c]; rewrite IH; cbn [isSuccess];
      rewrite ?orb_false_r, ?orb_false_l, ?andb_assoc, ?orb_assoc; reflexivity.
Qed.

Lemma beforeMutation_stable t e :
  beforeMutation t -> noWrite e -> beforeMutation (t ++ [e]).
Proof.
  unfold beforeMutation. intros H He. rewrite writesFollow_app, H.
  destruct e; try contradiction; reflexivity.
Qed.

Lemma afterMutation_stable t e :
  afterMutation t -> True -> afterMutation (t ++ [e]).
Proof.
  unfold afterMutation. intros [H1 H2] _.
  rewrite writesFollow_app, existsb_app, H1, H2. cbn [orb andb].
  split; [|reflexivity]. destruct e; reflexivity.
Qed.

Lemma mutation_done t r resp :
  beforeMutation t -> isMutationb r = true ->
  afterMutation (t ++ [Call r (Some resp)]).
Proof.
  unfold beforeMutation, afterMutation. intros H Hr.
  rewrite writesFollow_app, existsb_app, H. cbn. rewrite Hr, orb_true_r.
  split; reflexivity.
Qed.

Lemma afterMutation_before t : afterMutation t -> beforeMutation t.
Proof. intros [H _]. exact H. Qed.

(** A mutating call: before it nothing is written; once it has succeeded
    whatever follows may write. *)
Lemma hoare_mutation (E : env) (r : request) :
  isMutationb r = true ->
  hoare beforeMutation (bearExec E r) (fun _ => afterMutation) beforeMutation.
Proof.
  intros Hr. apply hoare_bearExec.
  - intros t resp Ht. apply mutation_done; assumption.
  - intros t Ht. apply beforeMutation_stable; [exact Ht|exact I].
Qed.

Ltac after_steps :=
  repeat first
    [ eapply keeps_bind with (R1 := fun _ => True); [|intros ? _]
    | apply (keeps_log afterMutation (fun _ => True) afterMutation_stable); exact I
    | apply (keeps_writeFileSync afterMutation (fun _ => True) afterMutation_stable);
      exact I
    | apply keeps_when
    | apply keeps_tryCatch; [|intros ?]
    | apply keeps_ret; exact I ].

Lemma after_hoare (A : Type) (c : M world A) :
  keeps afterMutation c (fun _ => True) ->
  hoare afterMutation c (fun _ => beforeMutation) beforeMutation.
Proof.
  intros K. eapply hoare_conseq; [exact K|auto| |].
  - intros a t [H _]. apply afterMutation_before, H.
  - apply afterMutation_before.
Qed.

Ltac before_log :=
  apply hoare_emit; intros t Ht; apply beforeMutation_stable; [exact Ht|exact I].

(** [BatchUpdate.updateNote] writes the file only after [add-text] has
    succeeded. *)
Lemma batch_updateNote_order (E : env) filePath noteId content flags :
  hoare beforeMutation (BatchUpdate.updateNote E filePath noteId content flags)
    (fun _ => beforeMutation) beforeMutation.
Proof.
  unfold BatchUpdate.updateNote. cbv zeta.
  eapply hoare_bind; [apply hoare_mutation; reflexivity|intros ?].
  apply after_hoare. after_steps.
Qed.

(** [BatchUpdate.createNote] writes the file only after [create] has
    succeeded. *)
Lemma batch_createNote_order (E : env) filePath noteId content flags :
  hoare beforeMutation (BatchUpdate.createNote E filePath noteId content flags)
    (fun _ => beforeMutation) beforeMutation.
Proof.
  unfold BatchUpdate.createNote. cbv zeta.
  eapply hoare_bind; [apply hoare_mutation; reflexivity|intros ?].
  apply after_hoare. after_steps.
Qed.

(** [Create.updateExistingNote] writes back only after [add-text] has
    succeeded. *)
Lemma create_updateExistingNote_order (E : env) noteId content flags :
  hoare beforeMutation (Create.updateExistingNote E noteId content flags)
    (fun _ => beforeMutation) beforeMutation.
Proof.
  unfold Create.updateExistingNote, Create.writeBackToFile. cbv zeta.
  eapply hoare_bind with (Q1 := fun _ => beforeMutation); [before_log|intros ?].
  eapply hoare_bind; [apply hoare_mutation; reflexivity|intros ?].
  apply after_hoare. after_steps.
Qed.

Lemma before_keeps_argsWithPipe E received required :
  hoare beforeMutation (argsWithPipe E received required)
    (fun _ => beforeMutation) beforeMutation.
Proof.
  pose proof (keeps_argsWithPipe beforeMutation E received required) as K.
  eapply hoare_conseq; [exact K|auto|intros a t [H _]; exact H|auto].
Qed.

(** [Create.run] writes back only after its calls to the remote store have
    succeeded. *)
Lemma create_run_order (E : env) flags cmdArgs :
  hoare beforeMutation (Create.run E flags cmdArgs)
    (fun _ => beforeMutation) beforeMutation.
Proof.
  unfold Create.run.
  eapply hoare_bind; [apply before_keeps_argsWithPipe|intros args].
  eapply hoare_bind with (Q1 := fun _ => beforeMutation).
  { destruct (truthy (Create.content_file flags)); [|apply hoare_ret; auto].
    eapply hoare_tryCatch with (X1 := beforeMutation); [|intros _; apply hoare_throw; auto]. cbv zeta.
    eapply hoare_bind with (Q1 := fun _ => beforeMutation);
      [apply hoare_existsSync|intros found].
    eapply hoare_bind with (Q1 := fun _ => beforeMutation);
      [destruct (negb found); [apply hoare_throw|apply hoare_ret]; auto|intros ?].
    eapply hoare_bind with (Q1 := fun _ => beforeMutation);
      [apply hoare_readFileSync|intros content].
    eapply hoare_bind with (Q1 := fun _ => beforeMutation); [before_log|intros ?]. apply hoare_ret. auto. }
  intros text. cbv zeta.
  destruct (truthy (if truthy text then Create.detectNoteId (orEmpty text) else None)).
  - eapply hoare_bind with (Q1 := fun _ => beforeMutation); [before_log|intros ?].
    eapply hoare_bind with (Q1 := fun _ => beforeMutation); [before_log|intros ?].
    apply create_updateExistingNote_order.
  - eapply hoare_bind with (Q1 := fun _ => beforeMutation).
    { destruct (truthy (Create.file flags)); [|apply hoare_ret; auto]. cbn [when].
      eapply hoare_tryCatch with (X1 := beforeMutation); [|intros _; apply hoare_throw; auto].
      eapply hoare_bind with (Q1 := fun _ => beforeMutation);
        [apply hoare_readFileSync|intros ?]. apply hoare_ret. auto. }
    intros _.
    eapply hoare_bind with (Q1 := fun _ => beforeMutation); [before_log|intros ?].
    eapply hoare_bind; [apply hoare_mutation; reflexivity|intros result].
    apply after_hoare. unfold Create.writeBackToFile. cbv zeta.
    eapply keeps_bind with (R1 := fun _ => True); [after_steps|intros ? _].
    eapply keeps_bind with (R1 := fun _ => True); [|intros ? _; after_steps].
    apply keeps_when.
    eapply keeps_bind with (R1 := fun _ => True); [after_steps|intros ? _].
    eapply keeps_bind with (R1 := fun _ => True);
      [apply (keeps_bearExec afterMutation (fun _ => True) afterMutation_stable);
       intros; exact I|intros ? _].
    after_steps.
Qed.

(** ** The stripper only deletes *)

Lemma deletion_refl a : deletion a a.
Proof. induction a; constructor; assumption. Qed.

Lemma deletion_nil_l b : deletion [] b.
Proof. induction b; constructor; assumption. Qed.

Lemma deletion_app a b c d : deletion a b -> deletion c d -> deletion (a ++ c) (b ++ d).
Proof. intros H1 H2. induction H1; cbn [app]; try constructor; assumption. Qed.

Lemma deletion_trans b c : deletion b c -> forall a, deletion a b -> deletion a c.
Proof.
  induction 1 as [|x b c _ IH|x b c _ IH]; intros a Ha.
  - exact Ha.
  - inversion Ha; subst; constructor; apply IH; assumption.
  - constructor. apply IH. exact Ha.
Qed.

Lemma deletion_length a b : deletion a b -> length a <= length b.
Proof. induction 1; simpl; lia. Qed.

Lemma deletion_cut b m a : deletion (b ++ a) (b ++ m ++ a).
Proof.
  apply deletion_app; [apply deletion_refl|].
  rewrite <- (app_nil_l a) at 1. apply deletion_app; [apply deletion_nil_l|apply deletion_refl].
Qed.

Lemma replace_deletion r s : deletion (replace r [] s) s.
Proof.
  unfold replace. destruct (exec r s) as [[[b m] a]|] eqn:E; [|apply deletion_refl].
  apply exec_Some in E as (-> & _ & _). apply deletion_cut.
Qed.

Lemma replaceAll_deletion r : forall n s, length s < n -> deletion (replaceAll r [] s) s.
Proof.
  induction n as [|n IH]; intros s Hlen; [lia|].
  rewrite replaceAll_eq.
  destruct (exec r s) as [[[b m] a]|] eqn:E; [|apply deletion_refl].
  apply exec_Some in E as (-> & _ & _).
  rewrite !length_app in Hlen.
  destruct m as [|d m].
  - destruct a as [|c a]; cbn [app].
    + rewrite app_nil_r. apply deletion_refl.
    + apply deletion_app; [apply deletion_refl|]. constructor.
      apply IH. simpl in Hlen. lia.
  - cbn [app]. apply deletion_app; [apply deletion_refl|].
    apply (deletion_trans _ _ (deletion_cut [] (d :: m) a)).
    cbn [app]. apply IH. simpl in Hlen. lia.
Qed.

Lemma normalize_deletion s : deletion (normalize s) s.
Proof.
  destruct (normalize_prefix s) as (t & _ & E). rewrite E at 2.
  rewrite <- (app_nil_r (normalize s)) at 1.
  apply deletion_app; [apply deletion_refl|apply deletion_nil_l].
Qed.

Lemma test_true r s :
  test r s = true <-> exists b q s', s = b ++ q /\ den r q s'.
Proof.
  split.
  - unfold test. destruct (exec r s) as [[[b m] a]|] eqn:E; [|discriminate].
    intros _. apply exec_Some in E as (Hs & Hm & _). apply matchAt_Some in Hm. eauto.
  - intros (b & q & s' & Hs & Hd). destruct (test r s) eqn:E; [reflexivity|].
    rewrite test_false in E. destruct (E b q s' Hs Hd).
Qed.

Lemma strip_normalized content :
  normalize (Create.stripExistingFooter content) = Create.stripExistingFooter content.
Proof. rewrite strip_unfold, newlines_normalize. apply normalize_idem. Qed.

(** ** The bodies that the stripper leaves alone

    The stripper never adds a visible character; it removes one whenever
    the body holds a marker or ends in a separator. *)

Lemma countNotLF_app a b : countNotLF (a ++ b) = countNotLF a + countNotLF b.
Proof. unfold countNotLF. rewrite filter_app, length_app. reflexivity. Qed.

Lemma countNotLF_deletion a b : deletion a b -> countNotLF a <= countNotLF b.
Proof.
  unfold countNotLF. induction 1 as [|c a b _ IH|c a b _ IH]; cbn [filter]; [lia| |];
    destruct (notLF c); cbn [length]; lia.
Qed.

Lemma countNotLF_newlines t : Forall (fun c => isLF c = true) t -> countNotLF t = 0.
Proof.
  unfold countNotLF. induction 1 as [|c t Hc _ IH]; [reflexivity|]. cbn [filter].
  apply isLF_eq in Hc. subst c. exact IH.
Qed.

Lemma countNotLF_normalize s : countNotLF (normalize s) = countNotLF s.
Proof.
  destruct (normalize_prefix s) as (t & Ht & E). rewrite E at 2.
  rewrite countNotLF_app, (countNotLF_newlines _ Ht). lia.
Qed.

Lemma replace_lighter r s :
  (forall q s', den r q s' -> countNotLF s' < countNotLF q) ->
  test r s = true -> countNotLF (replace r [] s) < countNotLF s.
Proof.
  intros Hr. unfold test, replace.
  destruct (exec r s) as [[[b m] a]|] eqn:E; [|discriminate]. intros _.
  apply exec_Some in E as (-> & Hm & _). apply matchAt_Some, Hr in Hm.
  cbn [app]. rewrite !countNotLF_app in *. lia.
Qed.

Lemma replaceAll_lighter r s :
  (forall q s', den r q s' -> countNotLF s' < countNotLF q) ->
  test r s = true -> countNotLF (replaceAll r [] s) < countNotLF s.
Proof.
  intros Hr. unfold test. rewrite replaceAll_eq.
  destruct (exec r s) as [[[b m] a]|] eqn:E; [|discriminate]. intros _.
  apply exec_Some in E as (-> & Hm & _). apply matchAt_Some, Hr in Hm.
  pose proof (countNotLF_deletion _ _ (replaceAll_deletion r _ _ (Nat.lt_succ_diag_r (length a)))) as Ha.
  destruct m as [|d m]; [cbn [app] in Hm; lia|].
  change ([] ++ replaceAll r [] a) with (replaceAll r [] a).
  rewrite !countNotLF_app in *. lia.
Qed.

Lemma countNotLF_separator w : 0 < countNotLF (separator ++ w).
Proof. rewrite countNotLF_app. change (countNotLF separator) with 3%nat. lia. Qed.

Lemma countNotLF_idLine i : 0 < countNotLF (idLine i).
Proof.
  unfold idLine. rewrite countNotLF_app. change (countNotLF markerOpen) with 14%nat. lia.
Qed.

Lemma footer_countNotLF q s' : den footerPattern q s' -> countNotLF s' < countNotLF q.
Proof.
  intros H. apply den_footer in H as (c & u & i & w & _ & _ & _ & _ & -> & ->).
  unfold footerText. apply countNotLF_separator.
Qed.

Lemma stray_countNotLF q s' : den strayMarkerPattern q s' -> countNotLF s' < countNotLF q.
Proof.
  intros H. apply den_strayMarker in H as (n & i & w & _ & _ & _ & ->).
  rewrite !countNotLF_app. pose proof (countNotLF_idLine i). lia.
Qed.

Lemma separator_countNotLF q s' : den separatorPattern q s' -> countNotLF s' < countNotLF q.
Proof.
  intros H. apply den_separator in H as (w & _ & -> & ->). apply countNotLF_separator.
Qed.

Lemma test_stray_marker b : test strayMarkerPattern b = false -> ~ hasMarker b.
Proof.
  intros H (p & i & rest & Hi & ->). rewrite test_false in H.
  apply (H p (idLine i ++ rest) rest eq_refl). apply den_strayMarker.
  exists [], i, []. split; [constructor|]. split; [exact Hi|]. split; [constructor|reflexivity].
Qed.

Lemma strip_countNotLF b : countNotLF (Create.stripExistingFooter b) <= countNotLF b.
Proof.
  apply countNotLF_deletion. rewrite strip_unfold, newlines_normalize.
  eapply deletion_trans; [|apply normalize_deletion].
  eapply deletion_trans; [|apply (replaceAll_deletion _ _ _ (Nat.lt_succ_diag_r _))].
  eapply deletion_trans; [|apply (replaceAll_deletion _ _ _ (Nat.lt_succ_diag_r _))].
  apply replace_deletion.
Qed.

(** A body that keeps all its visible characters holds no marker and does
    not end in a separator. *)
Lemma strip_keeps_all b :
  countNotLF (Create.stripExistingFooter b) = countNotLF b ->
  ~ hasMarker b /\ ~ endsWithSeparator b.
Proof.
  rewrite strip_unfold, newlines_normalize, countNotLF_normalize. intros H.
  pose proof (countNotLF_deletion _ _ (replace_deletion footerPattern b)) as L1.
  pose proof (countNotLF_deletion _ _
                (replaceAll_deletion strayMarkerPattern _ _
                   (Nat.lt_succ_diag_r (length (replace footerPattern [] b))))) as L2.
  pose proof (countNotLF_deletion _ _
                (replaceAll_deletion separatorPattern _ _
                   (Nat.lt_succ_diag_r
                      (length (replaceAll strayMarkerPattern []
                                 (replace footerPattern [] b)))))) as L3.
  destruct (test footerPattern b) eqn:Tf.
  { pose proof (replace_lighter footerPattern b footer_countNotLF Tf). lia. }
  rewrite (replace_nomatch _ _ _ Tf) in *.
  destruct (test strayMarkerPattern b) eqn:Ts.
  { pose proof (replaceAll_lighter strayMarkerPattern b stray_countNotLF Ts). lia. }
  rewrite (replaceAll_nomatch _ _ _ Ts) in *.
  destruct (test separatorPattern b) eqn:Tp.
  { pose proof (replaceAll_lighter separatorPattern b separator_countNotLF Tp). lia. }
  split; [apply test_stray_marker, Ts|apply test_separator_false, Tp].
Qed.

(* ================================================================== *)
(** * The claims *)

(** ** C1: render, then strip *)

(** C1, as amended. For every body [B] without identity marker that does not
    end in a standalone [---] separator, every identifier [I] (a non-empty
    token over [[A-F0-9-]]) and every instant whose formatted text stays on
    one line, stripping [B] with the update footer for [I] appended (Created
    line, Last Updated line and marker) gives [B] normalized to at most one
    trailing newline. *)
Theorem render_then_strip (B I : jsstring) (now : Date) :
  BatchUpdate.detectNoteId B = None ->
  trailingSeparator B = false ->
  validId I = true ->
  singleLine (toLocaleString now) = true ->
  BatchUpdate.stripExistingFooter
    (B ++ BatchUpdate.buildUpdateFooter I true true now)
  = normalize B.
Proof.
  intros Hm Hs Hi Hd.
  change BatchUpdate.stripExistingFooter with Create.stripExistingFooter.
  rewrite buildUpdateFooter_text.
  apply strip_footer.
  - apply detect_None. exact Hm.
  - apply trailingSeparator_false. exact Hs.
  - apply stamp_oneLine, singleLine_oneLine. exact Hd.
  - apply stamp_oneLine, singleLine_oneLine. exact Hd.
  - apply validId_idToken. exact Hi.
  - constructor.
Qed.

Lemma render_then_strip_witness :
  BatchUpdate.detectNoteId (str "Hello") = None /\
  trailingSeparator (str "Hello") = false /\
  validId (str "ABC-123") = true /\
  singleLine (toLocaleString exampleDate) = true /\
  BatchUpdate.stripExistingFooter
    (str "Hello" ++ BatchUpdate.buildUpdateFooter (str "ABC-123") true true exampleDate)
  = normalize (str "Hello").
Proof.
  do 4 (split; [vm_compute; reflexivity|]).
  apply (render_then_strip (str "Hello") (str "ABC-123") exampleDate);
    vm_compute; reflexivity.
Defined.

(** C1 as stated fails on a body that ends in a separator: the body
    [a\n\n---] holds no marker and no footer, yet rendering and stripping
    returns [a] and not the body itself. *)
Lemma render_then_strip_counterexample :
  BatchUpdate.detectNoteId (str "a" ++ separator) = None /\
  test footerPattern (str "a" ++ separator) = false /\
  validId (str "ABC-123") = true /\
  normalize (str "a" ++ separator) = str "a" ++ separator /\
  BatchUpdate.stripExistingFooter
    ((str "a" ++ separator)
       ++ BatchUpdate.buildUpdateFooter (str "ABC-123") true true exampleDate)
  = str "a" /\
  BatchUpdate.stripExistingFooter
    ((str "a" ++ separator)
       ++ BatchUpdate.buildUpdateFooter (str "ABC-123") true true exampleDate)
  <> normalize (str "a" ++ separator).
Proof.
  repeat split; try (vm_compute; reflexivity).
  vm_compute. discriminate.
Qed.

(** ** C2: stray markers *)

(** C2, as amended. For every body in which each [<] begins an identity
    marker, whatever the number of markers, no marker can be detected in the
    stripped body: the global replacement removes them all. *)
Theorem strip_removes_all_markers (B : jsstring) :
  markersOnlyb B = true ->
  Create.detectNoteId (Create.stripExistingFooter B) = None.
Proof.
  intros H. apply noLT_noMarker, strip_markersOnly, markersOnlyb_sound. exact H.
Qed.

Lemma strip_removes_all_markers_witness :
  markersOnlyb twoMarkers = true /\
  Create.detectNoteId (Create.stripExistingFooter twoMarkers) = None.
Proof.
  split; [vm_compute; reflexivity|].
  apply (strip_removes_all_markers twoMarkers). vm_compute. reflexivity.
Defined.

(** C2 as stated fails when the text on both sides of a removed marker joins
    into a new marker: the body [<!-- Note ID: A <!-- Note ID: B -->-->]
    holds one marker, and after stripping [detectNoteId] returns [A]. *)
Lemma strip_removes_all_markers_counterexample :
  Create.detectNoteId splicedMarker = Some (str "B") /\
  Create.stripExistingFooter splicedMarker = str "<!-- Note ID: A -->" /\
  Create.detectNoteId (Create.stripExistingFooter splicedMarker) = Some (str "A").
Proof. repeat split; vm_compute; reflexivity. Qed.

(** ** C3: idempotence *)

(** C3, as amended. Stripping a second time changes nothing exactly when the
    stripped body holds no identity marker and does not end in a standalone
    separator; and stripping is trailing-newline normalization alone exactly
    when the body itself holds no marker and does not end in a standalone
    separator. *)
Theorem strip_bare_idempotent (B : jsstring) :
  (Create.stripExistingFooter (Create.stripExistingFooter B)
   = Create.stripExistingFooter B
   <-> Create.detectNoteId (Create.stripExistingFooter B) = None
       /\ trailingSeparator (Create.stripExistingFooter B) = false)
  /\ (Create.stripExistingFooter B = normalize B
      <-> Create.detectNoteId B = None /\ trailingSeparator B = false).
Proof.
  assert (K : forall b, Create.detectNoteId b = None /\ trailingSeparator b = false
                        <-> ~ hasMarker b /\ ~ endsWithSeparator b).
  { intros b. rewrite detect_None. unfold trailingSeparator. fold separatorPattern.
    rewrite test_separator_false. reflexivity. }
  rewrite !K. split; split.
  - intros H. apply strip_keeps_all. rewrite H. reflexivity.
  - intros [Hm Hs]. rewrite (strip_bare _ Hm Hs). apply strip_normalized.
  - intros H. apply strip_keeps_all. rewrite H. apply countNotLF_normalize.
  - intros [Hm Hs]. apply strip_bare; assumption.
Qed.

(** A body with an update footer is stripped to a body that a second call
    leaves alone. *)
Lemma strip_bare_idempotent_witness :
  let B := str "Hello" ++ [LF; LF; LF]
             ++ BatchUpdate.buildUpdateFooter (str "ABC-123") true true exampleDate in
  Create.detectNoteId B = Some (str "ABC-123")
  /\ Create.stripExistingFooter B = str "Hello" ++ [LF]
  /\ Create.stripExistingFooter (Create.stripExistingFooter B)
     = Create.stripExistingFooter B.
Proof.
  cbv zeta. split; [vm_compute; reflexivity|]. split; [vm_compute; reflexivity|].
  apply (proj1 (strip_bare_idempotent _)). split; vm_compute; reflexivity.
Defined.

(** C3 as stated fails on two separators in a row: each call removes one, so
    the second call still changes the body; and the body [a\n\n---], which
    holds no footer, is not left to normalization alone. *)
Lemma strip_idempotent_counterexample :
  Create.detectNoteId (str "a" ++ separator ++ separator) = None /\
  Create.stripExistingFooter (str "a" ++ separator ++ separator)
  = str "a" ++ separator /\
  Create.stripExistingFooter
    (Create.stripExistingFooter (str "a" ++ separator ++ separator))
  = str "a" /\
  Create.stripExistingFooter
    (Create.stripExistingFooter (str "a" ++ separator ++ separator))
  <> Create.stripExistingFooter (str "a" ++ separator ++ separator) /\
  Create.stripExistingFooter (str "a" ++ separator)
  <> normalize (str "a" ++ separator).
Proof.
  repeat split; try (vm_compute; reflexivity); vm_compute; discriminate.
Qed.

(** ** C4: write-back and the remote mutation *)

(** C4: where the code departs from the claim. [UpdateText.run] writes the
    enhanced body back before it calls [add-text]: with a store in which
    [add-text] fails, the run throws, no mutating call has succeeded, and yet
    the file holds the enhanced body with its new footer. *)
Theorem update_text_writes_before_mutation :
  let r := UpdateText.run failingStore writeBackFlags None
             {| files := oneFile (str "/n/a.md") (str "Hello"); trace := [] |} in
  let enhanced :=
    str "Hello"
      ++ UpdateText.buildStandardizedFooter (str "AB-1") None exampleDate in
  fst r = Thrown (ErrBear
                    {| action := str "add-text"; reqId := Some (str "AB-1");
                       reqTitle := None; reqText := Some enhanced;
                       reqMode := Some (str "replace_all"); reqTerm := None |})
  /\ files (snd r) (str "/n/a.md") = Some enhanced
  /\ In (FileWrite (str "/n/a.md") enhanced) (trace (snd r))
  /\ existsb isSuccess (trace (snd r)) = false
  /\ writesFollow false (trace (snd r)) = false.
Proof.
  cbv zeta. split; [vm_compute; reflexivity|]. split; [vm_compute; reflexivity|].
  split; [|split; vm_compute; reflexivity].
  vm_compute. repeat first [left; reflexivity|right].
Qed.

(** ** C5: the trailing footer *)

Lemma tagged_oneLine c : oneLine c -> oneLine (32%N :: c ++ str "*").
Proof.
  intros H. constructor; [reflexivity|].
  apply Forall_app. split; [assumption|repeat constructor].
Qed.

(** C5, as amended. A body without marker and without trailing separator,
    followed by a blank line, a [---] line, then a Created line and a Last
    Updated line, or a Created line alone, or neither, then the marker line
    and any white space, is stripped to the body (normalized): the whole
    footer block is removed. The pattern of the first replacement makes the
    Created line mandatory, so a footer with a Last Updated line alone is
    not among the shapes. *)
Theorem strip_removes_trailing_footer (B c u I w : jsstring) :
  Create.detectNoteId B = None ->
  trailingSeparator B = false ->
  singleLine c = true -> singleLine u = true ->
  validId I = true -> allSpace w = true ->
  removesFooters Create.stripExistingFooter B c u I w /\
  removesFooters UpdateText.stripExistingFooter B c u I w.
Proof.
  intros Hm Hs Hc Hu Hi Hw.
  apply detect_None in Hm. apply trailingSeparator_false in Hs.
  apply singleLine_oneLine, tagged_oneLine in Hc, Hu.
  apply validId_idToken in Hi. apply allSpace_blank in Hw.
  change UpdateText.stripExistingFooter with Create.stripExistingFooter.
  assert (H : removesFooters Create.stripExistingFooter B c u I w); [|split; exact H].
  unfold removesFooters. cbv zeta.
  change (str "*Created: ") with (createdTag ++ [32%N]).
  change (str "*Last Updated: ") with (updatedTag ++ [32%N]).
  split; [|split].
  - rewrite <- (strip_footer B _ (Some _) I w Hm Hs Hc Hu Hi Hw).
    f_equal; unfold footerText; assoc; reflexivity.
  - rewrite <- (strip_footer B _ None I w Hm Hs Hc Logic.I Hi Hw).
    f_equal; unfold footerText; assoc; reflexivity.
  - apply strip_idOnly; assumption.
Qed.

Lemma strip_removes_trailing_footer_witness :
  Create.detectNoteId (str "Hello") = None /\
  trailingSeparator (str "Hello") = false /\
  removesFooters Create.stripExistingFooter
    (str "Hello") (str "Wed, Oct 15") (str "Thu, Oct 16") (str "AB-1") [LF; 32%N] /\
  removesFooters UpdateText.stripExistingFooter
    (str "Hello") (str "Wed, Oct 15") (str "Thu, Oct 16") (str "AB-1") [LF; 32%N].
Proof.
  do 2 (split; [vm_compute; reflexivity|]).
  apply (strip_removes_trailing_footer
           (str "Hello") (str "Wed, Oct 15") (str "Thu, Oct 16") (str "AB-1")
           [LF; 32%N]);
    vm_compute; reflexivity.
Defined.

(** C5 as stated fails for the footer with a Last Updated line and no
    Created line: only the marker line goes, the separator and the Last
    Updated line stay. *)
Lemma strip_removes_trailing_footer_counterexample :
  Create.stripExistingFooter updatedOnlyFooter
  = str "a" ++ separator ++ LF :: str "*Last Updated: x*" /\
  UpdateText.stripExistingFooter updatedOnlyFooter
  = str "a" ++ separator ++ LF :: str "*Last Updated: x*" /\
  Create.stripExistingFooter updatedOnlyFooter <> str "a".
Proof.
  repeat split; try (vm_compute; reflexivity); vm_compute; discriminate.
Qed.

(** ** C6: the flags of the footer builders *)

(** C6, as amended. The two flags gate the timestamp lines and the marker
    line independently of each other; with both flags off a builder returns
    the bare separator [\n\n---] (every caller skips the call in that
    case). *)
Theorem footer_flags_gate (noteId : jsstring) (includeCreated includeId : bool)
  (now : Date) :
  Create.buildNewNoteFooter noteId includeCreated includeId now
  = separator
      ++ (if includeCreated
          then LF :: str "*Created: " ++ Create.formatDate now ++ str "*"
          else [])
      ++ (if includeId then LF :: idLine noteId else []) /\
  BatchUpdate.buildNewNoteFooter noteId includeCreated includeId now
  = Create.buildNewNoteFooter noteId includeCreated includeId now /\
  BatchUpdate.buildUpdateFooter noteId includeCreated includeId now
  = separator
      ++ (if includeCreated
          then LF :: str "*Created: " ++ BatchUpdate.formatDate now ++ str "*"
                 ++ LF :: str "*Last Updated: " ++ BatchUpdate.formatDate now
                 ++ str "*"
          else [])
      ++ (if includeId then LF :: idLine noteId else []) /\
  Create.buildNewNoteFooter noteId false false now = separator /\
  BatchUpdate.buildNewNoteFooter noteId false false now = separator /\
  BatchUpdate.buildUpdateFooter noteId false false now = separator.
Proof.
  unfold Create.buildNewNoteFooter, BatchUpdate.buildNewNoteFooter,
    BatchUpdate.buildUpdateFooter, idLine.
  destruct includeCreated, includeId; cbv zeta; repeat split;
    assoc; reflexivity.
Qed.

(** C6 as stated fails: with both flags off the builders return the
    separator, not the empty string. *)
Lemma footer_flags_gate_counterexample :
  Create.buildNewNoteFooter (str "ABC-123") false false exampleDate <> [] /\
  BatchUpdate.buildNewNoteFooter (str "ABC-123") false false exampleDate <> [] /\
  BatchUpdate.buildUpdateFooter (str "ABC-123") false false exampleDate <> [].
Proof. repeat split; vm_compute; discriminate. Qed.

(** ** C7: the outcomes of a batch *)




(** ** C8: a supplied identifier against an embedded one *)

(** C8, as amended. When an identifier is supplied with [--id], it is the
    working identifier: every call to the remote store carries it, whatever
    marker the body embeds, and a run that returns has made its [add-text]
    call with it. The mismatch that is reported is the one between the
    supplied identifier and the marker in the current content of the remote
    note. Unless the run ends on the content file that it cannot read, its
    first call is [open-note] for the supplied identifier, and the lines
    about a mismatch in its trace are exactly those that report the answer
    to that call: the three warning lines when the content of the note
    holds a marker other than the supplied identifier, none otherwise,
    whatever the body. *)
Theorem supplied_id_wins (E : env) (flags : UpdateText.Flags)
  (cmdArgs : option jsstring) (files0 : path -> option jsstring)
  (supplied : jsstring) (o : outcome unit) (w : world) :
  UpdateText.id flags = Some supplied ->
  truthy (Some supplied) = true ->
  UpdateText.run E flags cmdArgs {| files := files0; trace := [] |} = (o, w) ->
  callsSupplied supplied (trace w)
  /\ (o = Ok tt -> addTextDone (trace w))
  /\ (o <> Thrown ErrReadingFile ->
      exists t1 t2,
        trace w
        = t1 ++ Call (openNote supplied) (bear E t1 (openNote supplied)) :: t2
        /\ Forall unchecked t1
        /\ filter isMismatchLine (trace w)
           = mismatchReport supplied (bear E t1 (openNote supplied))).
Proof.
  intros Hid Ht Hrun.
  pose proof (run_keeps E flags supplied Ht Hid cmdArgs
                {| files := files0; trace := [] |}) as K.
  pose proof (run_reaches E flags cmdArgs {| files := files0; trace := [] |} Logic.I) as R.
  pose proof (run_checks E flags supplied Ht Hid cmdArgs
                {| files := files0; trace := [] |} (Forall_nil _)) as C.
  rewrite Hrun in K, R, C.
  assert (H0 : callsSupplied supplied [] /\ mismatchReported supplied []).
  { split; [intros r res []|intros resp d []]. }
  specialize (K H0).
  destruct o as [[]|e]; cbn in K, R.
  - destruct K as [[Ha _] _]. split; [exact Ha|]. split; [intros _; exact R|].
    intros _. exact C.
  - destruct K as [Ha _]. split; [exact Ha|]. split; [discriminate|].
    intros Hne. destruct C as [->|C]; [congruence|exact C].
Qed.

Lemma supplied_id_wins_witness :
  let r := UpdateText.run storeBBB suppliedFlags (Some (str "Body"))
             {| files := fun _ => None; trace := [] |} in
  UpdateText.id suppliedFlags = Some (str "AAA")
  /\ fst r = Ok tt
  /\ filter isMismatchLine (trace (snd r))
     = [Log (MsgMismatchEmbedded (str "BBB")); Log (MsgMismatchCurrent (str "AAA"));
        Log MsgIdsDontMatch]
  /\ callsSupplied (str "AAA") (trace (snd r))
  /\ (fst r = Ok tt -> addTextDone (trace (snd r)))
  /\ (fst r <> Thrown ErrReadingFile ->
      exists t1 t2,
        trace (snd r)
        = t1 ++ Call (openNote (str "AAA")) (bear storeBBB t1 (openNote (str "AAA"))) :: t2
        /\ Forall unchecked t1
        /\ filter isMismatchLine (trace (snd r))
           = mismatchReport (str "AAA") (bear storeBBB t1 (openNote (str "AAA")))).
Proof.
  cbv zeta. split; [reflexivity|]. split; [vm_compute; reflexivity|].
  split; [vm_compute; reflexivity|].
  apply (supplied_id_wins storeBBB suppliedFlags (Some (str "Body"))
           (fun _ => None) (str "AAA")); [reflexivity|reflexivity|].
  vm_compute. reflexivity.
Defined.

(** C8 as stated fails for a marker embedded in the body: with [--id AAA] and
    a body that embeds [BBB], against a remote note that embeds no marker,
    the run returns, sends the body to note [AAA] and logs no mismatch. *)
Lemma supplied_id_wins_counterexample :
  let r := UpdateText.run storePlain suppliedFlags (Some bodyBBB)
             {| files := fun _ => None; trace := [] |} in
  UpdateText.id suppliedFlags = Some (str "AAA")
  /\ UpdateText.detectNoteId bodyBBB = Some (str "BBB")
  /\ fst r = Ok tt
  /\ In (Call {| action := str "add-text"; reqId := Some (str "AAA");
                 reqTitle := None; reqText := Some bodyBBB;
                 reqMode := Some (str "replace_all"); reqTerm := None |}
           (Some (noteWith (str "remote text"))))
        (trace (snd r))
  /\ existsb isMismatchLine (trace (snd r)) = false.
Proof.
  cbv zeta. split; [reflexivity|]. split; [vm_compute; reflexivity|].
  split; [vm_compute; reflexivity|]. split; [|vm_compute; reflexivity].
  vm_compute. repeat first [left; reflexivity|right].
Qed.

(** ** C9: the GMT offset *)

(** C9. For every offset of local time from UTC in whole minutes, of
    absolute value [60 * h + m] with [0 <= m < 60], the rendered suffix is
    [GMT], the sign of the offset, [h] in decimal, and, only when [m] is not
    zero, a colon and [m] as two decimal digits. *)
Theorem gmt_offset_suffix (date : Date) (h m : Z) :
  (0 <= m < 60)%Z ->
  Z.abs (- getTimezoneOffset date) = (60 * h + m)%Z ->
  Create.buildGMTOffset date
  = str "GMT"
      ++ (if (0 <=? - getTimezoneOffset date)%Z then str "+" else str "-")
      ++ numberToString h
      ++ (if (m =? 0)%Z then []
          else str ":" ++ [digit (m / 10); digit (m mod 10)]).
Proof.
  intros Hm E. unfold Create.buildGMTOffset. cbv zeta.
  assert (Hh : (Z.abs (- getTimezoneOffset date) / 60 = h)%Z).
  { symmetry. apply (Z.div_unique _ 60 h m); [left; exact Hm|exact E]. }
  assert (Hmod : (Z.abs (- getTimezoneOffset date) mod 60 = m)%Z).
  { symmetry. apply (Z.mod_unique _ 60 h m); [left; exact Hm|exact E]. }
  rewrite Hh, Hmod.
  destruct (Z.eqb_spec m 0) as [->|Hne].
  - rewrite app_nil_r. reflexivity.
  - rewrite two_digits by lia. reflexivity.
Qed.

Lemma gmt_offset_suffix_witness :
  (0 <= 30 < 60)%Z /\
  Z.abs (- getTimezoneOffset
             {| toLocaleString := []; toLocaleDateString := [];
                getTimezoneOffset := 330 |}) = (60 * 5 + 30)%Z /\
  Create.buildGMTOffset
    {| toLocaleString := []; toLocaleDateString := []; getTimezoneOffset := 330 |}
  = str "GMT-5:30".
Proof.
  split; [lia|]. split; [reflexivity|].
  apply (gmt_offset_suffix
           {| toLocaleString := []; toLocaleDateString := [];
              getTimezoneOffset := 330 |} 5 30); [lia|reflexivity].
Defined.

(** ** C10: the three copies of the stripper *)

(** C10. The copies of [stripExistingFooter] in [Create], [UpdateText] and
    [BatchUpdate] return the same output on every body. *)
Theorem strip_copies_agree (content : jsstring) :
  Create.stripExistingFooter content = UpdateText.stripExistingFooter content /\
  UpdateText.stripExistingFooter content = BatchUpdate.stripExistingFooter content.
Proof. split; reflexivity. Qed.

(* ================================================================== *)
(** * Further properties of the code *)

(** ** Markers: what is detected *)

(* ---------- helper lemmas ---------- *)

Lemma hasMarker_app_l p q : hasMarker p -> hasMarker (p ++ q).
Proof.
  intros (p0 & i & rest & Hi & ->). exists p0, i, (rest ++ q). split; [exact Hi|].
  rewrite <- !app_assoc. reflexivity.
Qed.

Lemma idLine_noLF i : idToken i -> oneLine (idLine i).
Proof.
  intros Hi. rewrite idLine_LT. constructor; [reflexivity|].
  apply markerRest_oneLine, Hi.
Qed.

Lemma app_eq_app_split (A : Type) (a b c d : list A) :
  a ++ b = c ++ d ->
  (exists k, c = a ++ k /\ b = k ++ d) \/ (exists k, k <> [] /\ a = c ++ k /\ d = k ++ b).
Proof.
  revert c; induction a as [|x a IH]; intros c E; simpl in E.
  - left. exists c. auto.
  - destruct c as [|y c]; simpl in E.
    + right. exists (x :: a). repeat split; [discriminate|auto].
    + inversion E; subst. destruct (IH c H1) as [(k & -> & ->)|(k & Hk & -> & ->)].
      * left. exists k. auto.
      * right. exists k. auto.
Qed.

(** A marker that begins before a [<] ends before it. *)
Lemma marker_within b2 q' i s' :
  idToken i -> b2 ++ LT :: q' = idLine i ++ s' -> b2 <> [] ->
  exists k, b2 = idLine i ++ k.
Proof.
  intros Hi E Hp.
  apply app_eq_app_split in E as [(k & Hk & E)|(k & Hk & -> & E)].
  - destruct k as [|d k].
    + rewrite app_nil_r in Hk. exists []. rewrite app_nil_r. auto.
    + simpl in E. inversion E; subst d. exfalso.
      apply (markerRest_noLT i [] Hi (Forall_nil _)). rewrite app_nil_r.
      rewrite idLine_LT in Hk. destruct b2 as [|x b2]; [congruence|].
      simpl in Hk. injection Hk as _ Hk. rewrite Hk.
      apply in_or_app. right. left. reflexivity.
  - exists k. reflexivity.
Qed.

Lemma matchAt_marker i r :
  idToken i -> matchAt markerPattern (idLine i ++ r) = Some r.
Proof.
  intros [Hne Hi]. destruct i as [|c i]; [congruence|]. inversion Hi; subst.
  unfold matchAt, markerPattern, Plus, idLine. cbn [run].
  rewrite <- app_assoc, stripPrefix_app. cbn [app].
  rewrite H1. rewrite <- app_assoc.
  apply starK_greedy; [assumption|reflexivity|].
  rewrite stripPrefix_app. reflexivity.
Qed.

(** The leftmost marker is the one that is detected. *)
Lemma detect_intro p x rest :
  ~ hasMarker p -> idToken x ->
  Create.detectNoteId (p ++ idLine x ++ rest) = Some x.
Proof.
  intros Hp Hx. unfold Create.detectNoteId, detectWith. fold markerPattern.
  destruct (exec_intro markerPattern p (idLine x ++ rest) rest (matchAt_marker x rest Hx))
    as (m & Hm & ->).
  - intros b1 b2 -> Hb2. apply matchAt_None. intros s' Hd.
    apply den_marker in Hd as (i & Hi & E).
    rewrite idLine_LT in E at 1. cbn [app] in E.
    destruct (marker_within b2 _ i s' Hi E Hb2) as (k & ->).
    apply Hp. exists b1, i, k. auto.
  - apply app_inv_tail in Hm. subst m. rewrite group1_idLine. reflexivity.
Qed.

Lemma bare_extend B mid :
  ~ hasMarker B -> ~ In LT mid ->
  match mid with [] => True | c :: _ => c = LF end ->
  ~ hasMarker (B ++ mid).
Proof.
  intros HB Hmid Hhd (p0 & i & rest & Hi & E).
  apply app_eq_app_split in E as [(k & -> & E)|(k & Hk & -> & E)].
  - apply Hmid. rewrite E. apply in_or_app. right. rewrite idLine_LT. left. reflexivity.
  - destruct mid as [|c mid'].
    + rewrite app_nil_r in E. apply HB. exists p0, i, rest. rewrite E. auto.
    + subst c. symmetry in E.
      apply app_eq_app_split in E as [(k2 & Hk2 & E)|(k2 & _ & -> & E)].
      * destruct k2 as [|d k2].
        -- rewrite app_nil_r in Hk2. subst k. apply HB. exists p0, i, [].
           split; [exact Hi|rewrite app_nil_r; reflexivity].
        -- simpl in E. inversion E; subst d.
           pose proof (idLine_noLF i Hi) as Hl. rewrite Hk2 in Hl.
           apply Forall_app in Hl as [_ Hl]. inversion Hl; subst. discriminate.
      * apply HB. exists p0, i, k2. auto.
Qed.

(** ** Texts without [<] *)

Lemma noLTb_spec s : noLTb s = true <-> ~ In LT s.
Proof.
  unfold noLTb. rewrite forallb_forall. split.
  - intros H Hin. specialize (H _ Hin). discriminate H.
  - intros H c Hc. unfold notLT. destruct (N.eqb_spec c LT); [subst; contradiction|reflexivity].
Qed.

Lemma noLTb_app a b : noLTb (a ++ b) = noLTb a && noLTb b.
Proof. apply forallb_app. Qed.

Lemma str_uint_noLT d : noLTb (str (NilEmpty.string_of_uint d)) = true.
Proof. induction d; simpl; try reflexivity; assumption. Qed.

Lemma numberToString_noLT n : noLTb (numberToString n) = true.
Proof.
  unfold numberToString.
  destruct (Z.to_int n) as [d|d].
  - destruct d; [reflexivity|exact (str_uint_noLT _)..].
  - change (noLTb (45%N :: str (NilZero.string_of_uint d)) = true).
    destruct d; [reflexivity|exact (str_uint_noLT _)..].
Qed.

Lemma padStart_noLT n fill s :
  noLTb fill = true -> noLTb s = true -> noLTb (padStart n fill s) = true.
Proof.
  intros Hf Hs. unfold padStart.
  destruct (n <=? length s)%nat; [assumption|].
  destruct fill as [|c fill]; [assumption|].
  rewrite noLTb_app, Hs, andb_true_r.
  set (k := (n - length s)%nat).
  assert (H : noLTb (concat (repeat (c :: fill) k)) = true).
  { unfold noLTb. apply forallb_forall. intros x Hx.
    apply in_concat in Hx as (l & Hl & Hx). apply repeat_spec in Hl. subst l.
    unfold noLTb in Hf. rewrite forallb_forall in Hf. apply Hf, Hx. }
  rewrite <- (firstn_skipn k (concat (repeat (c :: fill) k))) in H.
  rewrite noLTb_app in H.
  apply andb_true_iff in H as [H _]. exact H.
Qed.

Lemma buildGMTOffset_noLT d : noLTb (Create.buildGMTOffset d) = true.
Proof.
  unfold Create.buildGMTOffset. cbv zeta.
  destruct (Z.abs (- getTimezoneOffset d) mod 60 =? 0)%Z;
    destruct (0 <=? - getTimezoneOffset d)%Z;
    rewrite ?noLTb_app, ?numberToString_noLT, ?padStart_noLT;
    auto using numberToString_noLT.
Qed.

Lemma formatDate_noLT d :
  noLTb (toLocaleString d) = true -> noLTb (Create.formatDate d) = true.
Proof.
  intros H. unfold Create.formatDate. cbv zeta.
  rewrite !noLTb_app, H, buildGMTOffset_noLT. reflexivity.
Qed.

(** The timestamp lines of a footer hold no marker and join no marker of
    the body to the marker line. *)
Lemma bare_stamped B d (updated : bool) :
  ~ hasMarker B -> noLTb (toLocaleString d) = true ->
  ~ hasMarker (B ++ separator ++ LF :: str "*Created: " ++ Create.formatDate d ++ str "*"
                 ++ (if updated
                     then LF :: str "*Last Updated: " ++ Create.formatDate d ++ str "*"
                     else []) ++ [LF]).
Proof.
  intros HB Hd. apply bare_extend; [exact HB| |reflexivity].
  apply noLTb_spec. change separator with (LF :: LF :: str "---").
  cbn [app]. change (noLTb (LF :: LF :: ?x)) with (noLTb x).
  rewrite !noLTb_app. cbn [app].
  change (noLTb (LF :: ?x)) with (noLTb x).
  rewrite !noLTb_app, (formatDate_noLT d Hd).
  destruct updated; [|reflexivity].
  change (noLTb (LF :: ?x)) with (noLTb x).
  rewrite !noLTb_app, (formatDate_noLT d Hd). reflexivity.
Qed.

Lemma idToken_validId i : idToken i -> validId i = true.
Proof.
  intros [Hne Hi]. destruct i as [|c i]; [congruence|]. apply forallb_Forall. exact Hi.
Qed.

(** X1. [detectNoteId] returns nothing exactly when the content holds no
    identity marker. It returns [x] exactly when [x] is a non-empty token
    over [[A-F0-9-]] and the content is a text without marker, then the
    marker of [x], then anything: the leftmost marker is the one that is
    detected, and its identifier is read in full. *)
Theorem detectNoteId_leftmost_marker (content : jsstring) :
  (Create.detectNoteId content = None <-> ~ hasMarker content) /\
  (forall x,
     Create.detectNoteId content = Some x <->
     validId x = true /\
     exists p rest, content = p ++ idLine x ++ rest /\ Create.detectNoteId p = None).
Proof.
  split; [apply detect_None|]. intros x. split.
  - intros H. split; [apply idToken_validId, (detect_Some _ _ H)|].
    revert H. unfold Create.detectNoteId at 1, detectWith. fold markerPattern.
    destruct (exec markerPattern content) as [[[p m] a]|] eqn:E; [|discriminate].
    intros H. injection H as <-.
    apply exec_Some in E as (Hc & Hm & Hb).
    apply matchAt_Some, den_marker in Hm as (i & Hi & Hm).
    apply app_inv_tail in Hm. subst m. rewrite group1_idLine.
    exists p, a. split; [exact Hc|]. apply detect_None.
    intros (p0 & j & rest & Hj & ->).
    specialize (Hb p0 (idLine j ++ rest) eq_refl).
    rewrite <- app_assoc, matchAt_marker in Hb by exact Hj.
    assert (Hne : idLine j ++ rest <> []) by (rewrite idLine_LT; discriminate).
    specialize (Hb Hne). discriminate Hb.
  - intros (Hx & p & rest & -> & Hp). apply detect_intro.
    + apply detect_None, Hp.
    + apply validId_idToken, Hx.
Qed.

(** The marker line of a footer is the marker that is detected after a
    body without marker. *)
Lemma footers_detect (B I : jsstring) (includeCreated : bool) (now : Date) :
  ~ hasMarker B -> idToken I -> noLTb (toLocaleString now) = true ->
  Create.detectNoteId (B ++ Create.buildNewNoteFooter I includeCreated true now) = Some I /\
  Create.detectNoteId (B ++ BatchUpdate.buildNewNoteFooter I includeCreated true now)
  = Some I /\
  Create.detectNoteId (B ++ BatchUpdate.buildUpdateFooter I includeCreated true now)
  = Some I /\
  Create.detectNoteId (B ++ Create.updateFooter I includeCreated true now) = Some I /\
  Create.detectNoteId (B ++ UpdateText.buildStandardizedFooter I None now) = Some I.
Proof.
  intros HB HI Hd.
  pose proof (bare_stamped B now false HB Hd) as H1.
  pose proof (bare_stamped B now true HB Hd) as H2.
  assert (H0 : ~ hasMarker (B ++ separator ++ [LF])).
  { apply bare_extend; [exact HB| |reflexivity]. apply noLTb_spec. reflexivity. }
  pose proof (detect_intro _ I [] H0 HI) as D0.
  pose proof (detect_intro _ I [] H1 HI) as D1.
  pose proof (detect_intro _ I [] H2 HI) as D2.
  unfold Create.buildNewNoteFooter, BatchUpdate.buildNewNoteFooter,
    BatchUpdate.buildUpdateFooter, Create.updateFooter,
    UpdateText.buildStandardizedFooter.
  cbv zeta. fold (idLine I).
  change BatchUpdate.formatDate with Create.formatDate.
  change UpdateText.formatDate with Create.formatDate.
  cbv iota in D1, D2.
  destruct includeCreated; repeat split;
    first [ rewrite <- D0; f_equal; repeat (assoc; cbn [app]); reflexivity
          | rewrite <- D1; f_equal; repeat (assoc; cbn [app]); reflexivity
          | rewrite <- D2; f_equal; repeat (assoc; cbn [app]); reflexivity ].
Qed.

(** X2. Render, then detect. After a body without marker, the footer
    that any of the builders writes for the identifier [I] with its marker
    line, with or without the timestamp lines, makes [detectNoteId] return
    [I]; [I] is a non-empty token over [[A-F0-9-]] and the formatted date
    holds no [<]. *)
Theorem footer_marker_detected (B I : jsstring) (includeCreated : bool) (now : Date) :
  Create.detectNoteId B = None ->
  validId I = true ->
  noLTb (toLocaleString now) = true ->
  Create.detectNoteId (B ++ Create.buildNewNoteFooter I includeCreated true now) = Some I /\
  BatchUpdate.detectNoteId (B ++ BatchUpdate.buildNewNoteFooter I includeCreated true now)
  = Some I /\
  BatchUpdate.detectNoteId (B ++ BatchUpdate.buildUpdateFooter I includeCreated true now)
  = Some I /\
  Create.detectNoteId (B ++ Create.updateFooter I includeCreated true now) = Some I /\
  UpdateText.detectNoteId (B ++ UpdateText.buildStandardizedFooter I None now) = Some I.
Proof.
  intros HB HI Hd. apply detect_None in HB. apply validId_idToken in HI.
  exact (footers_detect B I includeCreated now HB HI Hd).
Qed.

Lemma footer_marker_detected_witness :
  Create.detectNoteId (str "Hello") = None /\
  validId (str "ABC-123") = true /\
  noLTb (toLocaleString exampleDate) = true /\
  Create.detectNoteId
    (str "Hello" ++ Create.buildNewNoteFooter (str "ABC-123") true true exampleDate)
  = Some (str "ABC-123").
Proof.
  do 3 (split; [vm_compute; reflexivity|]).
  apply (footer_marker_detected (str "Hello") (str "ABC-123") true exampleDate);
    vm_compute; reflexivity.
Defined.

(** ** What the stripper returns *)

Lemma normalize_end s p : normalize s <> p ++ [LF; LF].
Proof.
  revert p; induction s as [|c s IH]; intros p; [destruct p; discriminate|].
  cbn [normalize].
  destruct (forallb isLF (c :: s) && (2 <=? length (c :: s))%nat) eqn:Ec.
  - destruct p as [|x [|y p]]; discriminate.
  - destruct p as [|x p]; cbn [app]; intros E.
    + injection E as -> E.
      destruct (normalize_prefix s) as (t & Ht & Es). rewrite E in Es.
      assert (Hall : forallb isLF (LF :: s) = true).
      { rewrite Es. apply forallb_Forall. repeat constructor. exact Ht. }
      rewrite Hall in Ec. rewrite Es in Ec. discriminate Ec.
    + injection E as _ E. exact (IH p E).
Qed.

(** X3. The stripper only deletes: its output is its input with some
    code units removed, none added and none moved; it is never longer than
    its input. *)
Theorem strip_only_deletes (content : jsstring) :
  deletion (Create.stripExistingFooter content) content /\
  length (Create.stripExistingFooter content) <= length content.
Proof.
  assert (H : deletion (Create.stripExistingFooter content) content);
    [|split; [exact H|apply deletion_length, H]].
  rewrite strip_unfold, newlines_normalize.
  eapply deletion_trans; [|apply normalize_deletion].
  eapply deletion_trans; [|apply (replaceAll_deletion _ _ _ (Nat.lt_succ_diag_r _))].
  eapply deletion_trans; [|apply (replaceAll_deletion _ _ _ (Nat.lt_succ_diag_r _))].
  apply replace_deletion.
Qed.

(** X4. Whatever the input, the stripped text is normalized: it does
    not end in two line feeds. *)
Theorem strip_leaves_one_newline (content : jsstring) :
  normalize (Create.stripExistingFooter content) = Create.stripExistingFooter content /\
  forall p, Create.stripExistingFooter content <> p ++ [LF; LF].
Proof.
  rewrite strip_unfold, newlines_normalize. split.
  - apply normalize_idem.
  - apply normalize_end.
Qed.

(** ** [UpdateText.enhanceContent] *)

Lemma den_hasCreationDate q s' :
  den hasCreationDatePattern q s' <->
  exists w, blank w /\ q = str "---" ++ w ++ str "*Created:" ++ s'.
Proof.
  unfold hasCreationDatePattern. cbn [den]. split.
  - intros (m & -> & m0 & (l & Hl & ->) & ->). exists l. split; [exact Hl|reflexivity].
  - intros (w & Hw & ->). eexists. split; [reflexivity|].
    eexists. split; [exists w; split; [exact Hw|reflexivity]|reflexivity].
Qed.

Lemma test_hasCreationDate_app s t :
  test hasCreationDatePattern s = true -> test hasCreationDatePattern (s ++ t) = true.
Proof.
  rewrite !test_true. intros (b & q & s' & -> & Hd).
  apply den_hasCreationDate in Hd as (w & Hw & ->).
  exists b, ((str "---" ++ w ++ str "*Created:" ++ s') ++ t), (s' ++ t).
  split; [rewrite <- !app_assoc; reflexivity|].
  apply den_hasCreationDate. exists w. split; [exact Hw|]. assoc. reflexivity.
Qed.

Lemma test_hasNoteId_app s t :
  test hasNoteIdPattern s = true -> test hasNoteIdPattern (s ++ t) = true.
Proof.
  rewrite !test_true. intros (b & q & s' & -> & Hd). cbn [hasNoteIdPattern den] in Hd.
  subst q. exists b, ((str "<!-- Note ID:" ++ s') ++ t), (s' ++ t).
  split; [rewrite <- !app_assoc; reflexivity|]. cbn [hasNoteIdPattern den]. assoc. reflexivity.
Qed.

(** A Created line written by a legacy footer is found by the test. *)
Lemma test_hasCreationDate_footer c d t :
  test hasCreationDatePattern (c ++ separator ++ LF :: str "*Created: " ++ d ++ t) = true.
Proof.
  apply test_true. exists (c ++ [LF; LF]), (str "---" ++ [LF] ++ str "*Created:" ++ 32%N :: d ++ t), (32%N :: d ++ t).
  split; [assoc; reflexivity|].
  apply den_hasCreationDate. exists [LF]. split; [repeat constructor|reflexivity].
Qed.

Lemma test_hasNoteId_footer c n t :
  test hasNoteIdPattern (c ++ LF :: markerOpen ++ n ++ t) = true.
Proof.
  apply test_true. exists (c ++ [LF]), (str "<!-- Note ID:" ++ 32%N :: n ++ t), (32%N :: n ++ t).
  split; [assoc; reflexivity|reflexivity].
Qed.

(** What the legacy path returns is left alone by the legacy path. *)
Lemma legacy_fixed E c n (flags : UpdateText.Flags) :
  UpdateText.creation_date flags && UpdateText.add_id flags && truthy (Some n) = false ->
  (UpdateText.creation_date flags = true -> test hasCreationDatePattern c = true) ->
  (UpdateText.add_id flags && truthy (Some n) = true -> test hasNoteIdPattern c = true) ->
  UpdateText.enhanceContent E c n flags = c.
Proof.
  intros Hl Hc Hn. unfold UpdateText.enhanceContent. rewrite Hl. cbv zeta.
  fold hasCreationDatePattern. fold hasNoteIdPattern.
  destruct (UpdateText.creation_date flags).
  - rewrite (Hc eq_refl). cbn [negb andb].
    destruct (UpdateText.add_id flags && truthy (Some n)); [|reflexivity].
    rewrite (Hn eq_refl). reflexivity.
  - cbn [andb]. destruct (UpdateText.add_id flags && truthy (Some n)); [|reflexivity].
    rewrite (Hn eq_refl). reflexivity.
Qed.

(** X5. The legacy path of [UpdateText.enhanceContent] (not both
    flags, or no identifier) is idempotent: applied to its own output, at
    whatever time, it changes nothing, because its two tests find the
    Created line and the marker that it has appended. *)
Theorem legacy_enhance_idempotent (E1 E2 : env) (content noteId : jsstring)
  (flags : UpdateText.Flags) :
  UpdateText.creation_date flags && UpdateText.add_id flags && truthy (Some noteId)
  = false ->
  UpdateText.enhanceContent E2 (UpdateText.enhanceContent E1 content noteId flags)
    noteId flags
  = UpdateText.enhanceContent E1 content noteId flags.
Proof.
  intros Hl. apply legacy_fixed; [exact Hl| |];
    unfold UpdateText.enhanceContent; rewrite Hl; cbv zeta;
    fold hasCreationDatePattern; fold hasNoteIdPattern.
  - intros ->. cbn [andb].
    destruct (test hasCreationDatePattern content) eqn:Hc; cbn [negb].
    + destruct (UpdateText.add_id flags && truthy (Some noteId) &&
                negb (test hasNoteIdPattern content));
        [apply test_hasCreationDate_app|]; exact Hc.
    + destruct (UpdateText.add_id flags && truthy (Some noteId) &&
                negb (test hasNoteIdPattern content));
        [apply test_hasCreationDate_app|]; apply test_hasCreationDate_footer.
  - intros ->. cbn [andb].
    destruct (test hasNoteIdPattern content) eqn:Hn; cbn [negb].
    + destruct (UpdateText.creation_date flags &&
                negb (test hasCreationDatePattern content));
        [apply test_hasNoteId_app|]; exact Hn.
    + apply test_hasNoteId_footer.
Qed.

Lemma legacy_enhance_idempotent_witness :
  UpdateText.creation_date legacyFlags && UpdateText.add_id legacyFlags
    && truthy (Some (str "AB-1")) = false
  /\ UpdateText.enhanceContent storePlain (str "Hello") (str "AB-1") legacyFlags
     = str "Hello" ++ separator ++ LF :: str "*Created: Wed, Oct 15, 2025, 05:51 PM GMT+2*"
  /\ UpdateText.enhanceContent storePlain
       (UpdateText.enhanceContent storePlain (str "Hello") (str "AB-1") legacyFlags)
       (str "AB-1") legacyFlags
     = UpdateText.enhanceContent storePlain (str "Hello") (str "AB-1") legacyFlags.
Proof.
  split; [reflexivity|]. split; [vm_compute; reflexivity|].
  apply (legacy_enhance_idempotent storePlain storePlain (str "Hello") (str "AB-1")
           legacyFlags).
  reflexivity.
Defined.

Lemma buildStandardizedFooter_text i d :
  UpdateText.buildStandardizedFooter i None d =
  footerText (32%N :: BatchUpdate.formatDate d ++ str "*")
    (Some (32%N :: BatchUpdate.formatDate d ++ str "*")) i [].
Proof.
  unfold UpdateText.buildStandardizedFooter, footerText, idLine. cbv zeta.
  change UpdateText.formatDate with BatchUpdate.formatDate.
  change (str "*Created: ") with (createdTag ++ [32%N]).
  change (str "*Last Updated: ") with (updatedTag ++ [32%N]).
  assoc. reflexivity.
Qed.

(** X6. With both flags and an identifier,
    [UpdateText.enhanceContent] replaces the footer and does not stack it:
    enhancing the output of an earlier enhancement gives what enhancing the
    content itself gives, when stripping the content leaves neither a
    marker nor a trailing separator and the earlier date stays on one
    line. *)
Theorem standard_enhance_replaces_footer (E1 E2 : env) (content noteId : jsstring)
  (flags : UpdateText.Flags) :
  UpdateText.creation_date flags = true ->
  UpdateText.add_id flags = true ->
  validId noteId = true ->
  singleLine (toLocaleString (now E1)) = true ->
  UpdateText.detectNoteId (UpdateText.stripExistingFooter content) = None ->
  trailingSeparator (UpdateText.stripExistingFooter content) = false ->
  UpdateText.enhanceContent E2 (UpdateText.enhanceContent E1 content noteId flags)
    noteId flags
  = UpdateText.enhanceContent E2 content noteId flags.
Proof.
  intros Hc Ha Hi Hd Hm Hs. unfold UpdateText.enhanceContent.
  pose proof (validId_idToken _ Hi) as [Hne _].
  assert (Ht : truthy (Some noteId) = true) by (destruct noteId; [congruence|reflexivity]).
  rewrite Hc, Ha, Ht. cbn [andb]. cbv zeta. f_equal.
  change UpdateText.stripExistingFooter with Create.stripExistingFooter in *.
  rewrite buildStandardizedFooter_text.
  rewrite strip_footer.
  - apply strip_normalized.
  - apply detect_None. exact Hm.
  - apply trailingSeparator_false. exact Hs.
  - apply stamp_oneLine, singleLine_oneLine. exact Hd.
  - apply stamp_oneLine, singleLine_oneLine. exact Hd.
  - apply validId_idToken. exact Hi.
  - constructor.
Qed.

Lemma standard_enhance_replaces_footer_witness :
  UpdateText.enhanceContent storePlain
    (UpdateText.enhanceContent storeBBB (str "Hello") (str "AB-1") writeBackFlags)
    (str "AB-1") writeBackFlags
  = UpdateText.enhanceContent storePlain (str "Hello") (str "AB-1") writeBackFlags.
Proof.
  apply (standard_enhance_replaces_footer storeBBB storePlain (str "Hello") (str "AB-1")
           writeBackFlags);
    vm_compute; reflexivity.
Defined.

(** X7. What [AddText.enhanceContent] appends is recognised by the
    legacy path of [UpdateText.enhanceContent]: under the same flags and
    identifier, the update leaves a text that add-text has enhanced as it
    is. *)
Theorem add_text_footer_kept_by_update (E1 E2 : env) (content noteId : jsstring)
  (flags : UpdateText.Flags) :
  UpdateText.creation_date flags && UpdateText.add_id flags && truthy (Some noteId)
  = false ->
  UpdateText.enhanceContent E2
    (AddText.enhanceContent E1 content noteId
       {| AddText.id := UpdateText.id flags;
          AddText.creation_date := UpdateText.creation_date flags;
          AddText.add_id := UpdateText.add_id flags |})
    noteId flags
  = AddText.enhanceContent E1 content noteId
      {| AddText.id := UpdateText.id flags;
         AddText.creation_date := UpdateText.creation_date flags;
         AddText.add_id := UpdateText.add_id flags |}.
Proof.
  intros Hl. unfold AddText.enhanceContent. cbn [AddText.creation_date AddText.add_id].
  cbv zeta. apply legacy_fixed; [exact Hl| |].
  - intros ->.
    destruct (UpdateText.add_id flags && truthy (Some noteId));
      [apply test_hasCreationDate_app|]; apply test_hasCreationDate_footer.
  - intros ->. apply test_hasNoteId_footer.
Qed.

Lemma add_text_footer_kept_by_update_witness :
  UpdateText.enhanceContent storePlain
    (AddText.enhanceContent storePlain (str "Hello") (str "AB-1")
       {| AddText.id := UpdateText.id legacyFlags;
          AddText.creation_date := UpdateText.creation_date legacyFlags;
          AddText.add_id := UpdateText.add_id legacyFlags |})
    (str "AB-1") legacyFlags
  = AddText.enhanceContent storePlain (str "Hello") (str "AB-1")
      {| AddText.id := UpdateText.id legacyFlags;
         AddText.creation_date := UpdateText.creation_date legacyFlags;
         AddText.add_id := UpdateText.add_id legacyFlags |}.
Proof.
  apply (add_text_footer_kept_by_update storePlain storePlain (str "Hello") (str "AB-1")
           legacyFlags).
  reflexivity.
Defined.

(** X8. An update with both flags upgrades the footer of add-text:
    after a body without marker and without trailing separator, the Created
    line and the marker that [AddText.enhanceContent] appended are removed,
    and the standardized footer follows the normalized body. *)
Theorem update_upgrades_add_text_footer (E1 E2 : env) (B noteId : jsstring)
  (flags : UpdateText.Flags) (flags0 : AddText.Flags) :
  AddText.creation_date flags0 = true -> AddText.add_id flags0 = true ->
  UpdateText.creation_date flags = true -> UpdateText.add_id flags = true ->
  validId noteId = true ->
  UpdateText.detectNoteId B = None ->
  trailingSeparator B = false ->
  singleLine (toLocaleDateString (now E1)) = true ->
  UpdateText.enhanceContent E2 (AddText.enhanceContent E1 B noteId flags0) noteId flags
  = normalize B ++ UpdateText.buildStandardizedFooter noteId None (now E2).
Proof.
  intros Hc0 Ha0 Hc Ha Hi Hm Hs Hd.
  pose proof (validId_idToken _ Hi) as [Hne _].
  assert (Ht : truthy (Some noteId) = true) by (destruct noteId; [congruence|reflexivity]).
  unfold UpdateText.enhanceContent, AddText.enhanceContent.
  rewrite Hc0, Ha0, Hc, Ha, Ht. cbn [andb]. cbv zeta. f_equal.
  change UpdateText.stripExistingFooter with Create.stripExistingFooter.
  rewrite <- (strip_footer B (32%N :: toLocaleDateString (now E1) ++ str "*") None noteId []).
  - f_equal. unfold footerText, idLine.
    change (str "*Created: ") with (createdTag ++ [32%N]). assoc. reflexivity.
  - apply detect_None. exact Hm.
  - apply trailingSeparator_false. exact Hs.
  - constructor; [reflexivity|]. apply Forall_app. split.
    + apply singleLine_oneLine. exact Hd.
    + repeat constructor.
  - exact I.
  - apply validId_idToken. exact Hi.
  - constructor.
Qed.

Lemma update_upgrades_add_text_footer_witness :
  UpdateText.enhanceContent storePlain
    (AddText.enhanceContent storePlain (str "Hello") (str "AB-1") addTextFlags)
    (str "AB-1") writeBackFlags
  = normalize (str "Hello")
      ++ UpdateText.buildStandardizedFooter (str "AB-1") None (now storePlain).
Proof.
  apply (update_upgrades_add_text_footer storePlain storePlain (str "Hello") (str "AB-1")
           writeBackFlags addTextFlags);
    vm_compute; reflexivity.
Defined.

(** ** The batch: counters, outcome and writes *)

Lemma jsstring_eqb_refl a : jsstring_eqb a a = true.
Proof. unfold jsstring_eqb. destruct (list_eq_dec N.eq_dec a a); congruence. Qed.

(** A trace whose writes match from no text sent has them match from any. *)
Lemma writesMatch_any t : forall s s',
  writesMatch None t = true -> writesMatch s t = true -> writesMatch s' t = true.
Proof.
  induction t as [|e t IH]; intros s s' H0 Hs; [reflexivity|].
  cbn [writesMatch] in *. destruct e as [m|m|r res|p c]; cbn [sentAfter andb] in *.
  - eapply IH; eassumption.
  - eapply IH; eassumption.
  - exact H0.
  - discriminate H0.
Qed.

Lemma writesMatch_app t u : forall s,
  writesMatch s t = true -> writesMatch None u = true -> writesMatch s (t ++ u) = true.
Proof.
  induction t as [|e t IH]; intros s Ht Hu; cbn [app].
  - apply (writesMatch_any u None s Hu Hu).
  - cbn [writesMatch] in *. apply andb_true_iff in Ht as [He Ht].
    rewrite He. cbn [andb]. apply IH; assumption.
Qed.

Lemma lines_match t : forall s, forallb isLine t = true -> writesMatch s t = true.
Proof.
  induction t as [|e t IH]; intros s H; [reflexivity|].
  cbn [forallb] in H. apply andb_true_iff in H as [He Ht].
  destruct e; try discriminate He; cbn [writesMatch sentAfter andb]; apply IH, Ht.
Qed.

Section BatchLoop.

Import BatchUpdate.

Variable E : env.
Variable flags : Flags.

Ltac crunch :=
  repeat (cbn -[detectNoteId stripExistingFooter buildUpdateFooter buildNewNoteFooter
                truthy orEmpty Nat.add];
          match goal with
          | |- context [match files ?w ?f with _ => _ end] => destruct (files w f) eqn:?
          | |- context [if negb (truthy ?x) then _ else _] => destruct (truthy x) eqn:?
          | |- context [if dry_run flags then _ else _] => destruct (dry_run flags) eqn:?
          | |- context [match bear E ?t ?r with _ => _ end] => destruct (bear E t r) eqn:?
          | |- context [if write_back flags then _ else _] => destruct (write_back flags) eqn:?
          | |- context [if writable E ?p then _ else _] => destruct (writable E p) eqn:?
          end).

(** One iteration of the loop returns, and moves exactly one of the three
    counters [processed], [skipped], [errors]. *)
Lemma processFile_counts file c w :
  exists c' w',
    processFile E flags file (c, w) = (Ok tt, (c', w'))
    /\ processed c' + skipped c' + errors c' = S (processed c + skipped c + errors c)
    /\ (if dry_run flags
        then updated c' = updated c /\ created c' = created c
        else updated c' + created c' + processed c
             = updated c + created c + processed c')
    /\ exists t, trace w' = trace w ++ t
                 /\ writesMatch None t = true
                 /\ (dry_run flags = true -> forallb isLine t = true /\ files w' = files w).
Proof.
  unfold processFile, tryCatch, bind, liftW, log, emit, readFileSync, bump, getLocal,
    setLocal, noteExists, createNote, updateNote, tryCatch, bind, bearExec, when,
    writeFileSync, log, emit, ret.
  crunch.
  all: try destruct (dry_run flags) eqn:?.
  all: eexists _, _; split; [reflexivity|]; cbn -[Nat.add].
  all: split; [lia|]; split; [first [split; reflexivity | lia]|].
  all: eexists; split; [rewrite <- ?app_assoc; reflexivity|].
  all: split; [cbn; rewrite ?jsstring_eqb_refl; reflexivity|].
  all: first [discriminate | intros _; split; reflexivity].
Qed.

(** The loop returns whatever happens to a file; every file moves one of the
    three counters. *)
Lemma loop_counts : forall fs c w,
  exists c' w',
    forEach fs (processFile E flags) (c, w) = (Ok tt, (c', w'))
    /\ processed c' + skipped c' + errors c'
       = processed c + skipped c + errors c + length fs
    /\ (if dry_run flags
        then updated c' = updated c /\ created c' = created c
        else updated c' + created c' + processed c
             = updated c + created c + processed c')
    /\ exists t, trace w' = trace w ++ t
                 /\ writesMatch None t = true
                 /\ (dry_run flags = true -> forallb isLine t = true /\ files w' = files w).
Proof.
  induction fs as [|f fs IH]; intros c w.
  - exists c, w. split; [reflexivity|]. split; [cbn; lia|].
    split; [destruct (dry_run flags); [split; reflexivity|lia]|].
    exists []. rewrite app_nil_r. split; [reflexivity|]. split; [reflexivity|].
    intros _. split; reflexivity.
  - destruct (processFile_counts f c w) as (c1 & w1 & E1 & T1 & U1 & t1 & Tr1 & M1 & D1).
    destruct (IH c1 w1) as (c2 & w2 & E2 & T2 & U2 & t2 & Tr2 & M2 & D2).
    exists c2, w2. cbn [forEach]. unfold bind at 1. rewrite E1, E2.
    split; [reflexivity|]. split; [cbn [length]; lia|].
    split.
    + destruct (dry_run flags); [destruct U1, U2; split; congruence|lia].
    + exists (t1 ++ t2). rewrite Tr2, Tr1, app_assoc. split; [reflexivity|].
      split; [apply writesMatch_app; assumption|].
      intros Hd. destruct (D1 Hd) as [L1 F1]. destruct (D2 Hd) as [L2 F2].
      rewrite forallb_app, L1, L2. split; [reflexivity|congruence].
Qed.

End BatchLoop.

Section BatchRun.

Import BatchUpdate.

Variable E : env.
Variable flags : Flags.

(** What [run] does once the directory has been listed. *)
Lemma run_listed c0 w fs :
  let dir := resolvePath E (directory flags) in
  dirExists E dir = true -> isDirectory E dir = true ->
  findMarkdownFiles E dir (recursive flags) (pattern flags) = Some fs ->
  fs <> [] ->
  exists c w' t,
    run E flags (c0, w) = (Ok tt, (c, w'))
    /\ processed c + skipped c + errors c = length fs
    /\ updated c + created c = (if dry_run flags then 0 else processed c)
    /\ trace w' = trace w ++ t
         ++ Log (MsgSummary (processed c) (length fs) (updated c) (created c)
                   (skipped c) (errors c))
         :: verdict c
    /\ writesMatch None t = true
    /\ (dry_run flags = true -> forallb isLine t = true /\ files w' = files w).
Proof.
  intros dir Hde Hdi Hl Hfs. unfold run. fold dir. rewrite Hde, Hdi, Hl.
  destruct fs as [|f fs'] eqn:Efs; [congruence|]. clear Hfs.
  repeat (progress (unfold bind at 1; cbn -[processFile forEach length])).
  rewrite <- Efs. clear Hl Efs f fs'. rename fs into l.
  match goal with |- context [forEach l (processFile E flags) (?c, ?w)] =>
    destruct (loop_counts E flags l c w) as (c1 & w1 & -> & T1 & U1 & t1 & Tr1 & M1 & D1)
  end.
  cbn -[length] in T1, U1, Tr1, D1. cbn [fst snd].
  exists c1. unfold verdict.
  assert (Hv : (errors c1 =? 0) && (processed c1 =? length l)
               = (errors c1 =? 0) && (skipped c1 =? 0)).
  { destruct (Nat.eqb_spec (errors c1) 0); [|reflexivity]. cbn [andb].
    destruct (Nat.eqb_spec (processed c1) (length l)), (Nat.eqb_spec (skipped c1) 0);
      try reflexivity; lia. }
  rewrite Hv. change (match errors c1 with 0 => false | S _ => true end)
    with (0 <? errors c1).
  assert (HU : updated c1 + created c1 = (if dry_run flags then 0 else processed c1)).
  { destruct (dry_run flags); [destruct U1 as [-> ->]; reflexivity|lia]. }
  set (header := [Log MsgBatchStarting; Log (MsgDirectory (directory flags));
                  Log (MsgRecursive (recursive flags)); Log (MsgPattern (pattern flags));
                  Log (MsgMode (mode flags)); Log (MsgWriteBack (write_back flags));
                  Log (MsgDryRun (dry_run flags)); Log (MsgFoundFiles (length l))]).
  assert (Tr : trace w1 = trace w ++ header ++ t1).
  { rewrite Tr1. unfold header. rewrite <- !app_assoc. reflexivity. }
  clear Tr1.
  assert (Hh : forallb isLine header = true) by reflexivity.
  clearbody header.
  assert (Hres : forall v, exists w',
            (if (errors c1 =? 0) && (skipped c1 =? 0)
             then liftW (log MsgAllProcessed)
             else if 0 <? errors c1
                  then liftW (warn (MsgCompletedWithErrors (errors c1)))
                  else ret tt)
              (c1, {| files := files w1; trace := v |})
            = (Ok tt, (c1, w'))
            /\ files w' = files w1
            /\ trace w' = v ++ verdict c1).
  { intros v. unfold verdict.
    destruct ((errors c1 =? 0) && (skipped c1 =? 0)); [|destruct (0 <? errors c1)];
      eexists; (split; [reflexivity|]); (split; [reflexivity|]); cbn;
      rewrite ?app_nil_r; reflexivity. }
  match goal with |- context [{| files := files w1; trace := ?v |}] =>
    destruct (Hres v) as (w' & -> & Fw & Tw)
  end.
  exists w', (header ++ t1). split; [reflexivity|]. split; [exact T1|].
  split; [exact HU|]. split.
  { rewrite Tw, Tr, <- !app_assoc. reflexivity. }
  split.
  { apply writesMatch_app; [apply lines_match, Hh|exact M1]. }
  intros Hd. destruct (D1 Hd) as [L1 F1]. split.
  - rewrite forallb_app, Hh, L1. reflexivity.
  - rewrite Fw. exact F1.
Qed.

(** A run that does not reach the loop has only written lines; it throws
    for its directory or because the listing throws. *)
Lemma run_refused c0 w :
  let dir := resolvePath E (directory flags) in
  let listing := findMarkdownFiles E dir (recursive flags) (pattern flags) in
  let r := run E flags (c0, w) in
  dirExists E dir = false \/ isDirectory E dir = false
  \/ listing = None \/ listing = Some [] ->
  fst r = (if negb (dirExists E dir) then Thrown (ErrDirectoryNotFound dir)
           else if negb (isDirectory E dir) then Thrown (ErrNotADirectory dir)
           else match listing with
                | None => Thrown (ErrListing dir (pattern flags))
                | Some _ => Ok tt
                end)
  /\ files (snd (snd r)) = files w
  /\ exists t, trace (snd (snd r)) = trace w ++ t /\ forallb isLine t = true.
Proof.
  intros dir listing r H. subst r. unfold run. fold dir. fold listing.
  destruct (dirExists E dir); cbn [negb];
    [destruct (isDirectory E dir); cbn [negb];
       [destruct listing as [[|f l]|]|]|];
    try (exfalso; destruct H as [H|[H|[H|H]]]; discriminate H);
    repeat (progress (unfold bind at 1; cbn));
    (split; [reflexivity|]); (split; [reflexivity|]);
    eexists; (split; [rewrite <- !app_assoc; reflexivity|reflexivity]).
Qed.

(** Either the run reaches the loop, or it does not. *)
Lemma run_cases :
  let dir := resolvePath E (directory flags) in
  let listing := findMarkdownFiles E dir (recursive flags) (pattern flags) in
  (exists fs, dirExists E dir = true /\ isDirectory E dir = true
              /\ listing = Some fs /\ fs <> [])
  \/ (dirExists E dir = false \/ isDirectory E dir = false
      \/ listing = None \/ listing = Some []).
Proof.
  intros dir listing.
  destruct (dirExists E dir); [|right; left; reflexivity].
  destruct (isDirectory E dir); [|right; right; left; reflexivity].
  destruct listing as [[|f l]|]; [right; right; right; right; reflexivity| |
                                  right; right; right; left; reflexivity].
  left. exists (f :: l). repeat split; discriminate.
Qed.

End BatchRun.

(** X9. Once the directory has been listed and holds a file,
    [BatchUpdate.run] returns, and every file has moved exactly one of the
    counters [processed], [skipped] and [errors]: the three add up to the
    number of files. [updated + created] is [processed], or 0 in a dry run,
    and the summary line reports these counters. *)
Theorem batch_every_file_counted (E : env) (flags : BatchUpdate.Flags)
  (c0 : BatchUpdate.Counters) (w : world) (fs : list path) :
  let dir := BatchUpdate.resolvePath E (BatchUpdate.directory flags) in
  dirExists E dir = true -> isDirectory E dir = true ->
  findMarkdownFiles E dir (BatchUpdate.recursive flags) (BatchUpdate.pattern flags)
  = Some fs ->
  fs <> [] ->
  exists c w',
    BatchUpdate.run E flags (c0, w) = (Ok tt, (c, w'))
    /\ BatchUpdate.processed c + BatchUpdate.skipped c + BatchUpdate.errors c
       = length fs
    /\ BatchUpdate.updated c + BatchUpdate.created c
       = (if BatchUpdate.dry_run flags then 0 else BatchUpdate.processed c)
    /\ In (Log (MsgSummary (BatchUpdate.processed c) (length fs)
                  (BatchUpdate.updated c) (BatchUpdate.created c)
                  (BatchUpdate.skipped c) (BatchUpdate.errors c)))
         (trace w').
Proof.
  intros dir Hde Hdi Hl Hfs.
  destruct (run_listed E flags c0 w fs Hde Hdi Hl Hfs)
    as (c & w' & t & Hr & T & U & Tr & _ & _).
  exists c, w'. split; [exact Hr|]. split; [exact T|]. split; [exact U|].
  rewrite Tr. apply in_or_app. right. apply in_or_app. right. left. reflexivity.
Qed.

Lemma batch_every_file_counted_witness :
  exists c w',
    BatchUpdate.run batchStore batchFlags
      (zeroCounters, {| files := threeFilesContent; trace := [] |})
    = (Ok tt, (c, w'))
    /\ BatchUpdate.processed c + BatchUpdate.skipped c + BatchUpdate.errors c = 3
    /\ BatchUpdate.updated c + BatchUpdate.created c = BatchUpdate.processed c
    /\ In (Log (MsgSummary (BatchUpdate.processed c) 3
                  (BatchUpdate.updated c) (BatchUpdate.created c)
                  (BatchUpdate.skipped c) (BatchUpdate.errors c)))
         (trace w').
Proof.
  apply (batch_every_file_counted batchStore batchFlags zeroCounters
           {| files := threeFilesContent; trace := [] |} threeFiles
           eq_refl eq_refl eq_refl ltac:(discriminate)).
Defined.

(** X10. The line after the summary of a batch: the success line when
    no file was skipped and none failed, the warning when some file failed,
    and no line when files were skipped and none failed. *)
Theorem batch_verdict (E : env) (flags : BatchUpdate.Flags)
  (c0 : BatchUpdate.Counters) (w : world) (fs : list path) :
  let dir := BatchUpdate.resolvePath E (BatchUpdate.directory flags) in
  dirExists E dir = true -> isDirectory E dir = true ->
  findMarkdownFiles E dir (BatchUpdate.recursive flags) (BatchUpdate.pattern flags)
  = Some fs ->
  fs <> [] ->
  exists c w' t,
    BatchUpdate.run E flags (c0, w) = (Ok tt, (c, w'))
    /\ trace w'
       = trace w ++ t
           ++ Log (MsgSummary (BatchUpdate.processed c) (length fs)
                     (BatchUpdate.updated c) (BatchUpdate.created c)
                     (BatchUpdate.skipped c) (BatchUpdate.errors c))
           :: (if Nat.eqb (BatchUpdate.errors c) 0 && Nat.eqb (BatchUpdate.skipped c) 0
               then [Log MsgAllProcessed]
               else if (0 <? BatchUpdate.errors c)%nat
                    then [Warn (MsgCompletedWithErrors (BatchUpdate.errors c))]
                    else []).
Proof.
  intros dir Hde Hdi Hl Hfs.
  destruct (run_listed E flags c0 w fs Hde Hdi Hl Hfs)
    as (c & w' & t & Hr & _ & _ & Tr & _ & _).
  exists c, w', t. split; [exact Hr|exact Tr].
Qed.

Lemma batch_verdict_witness :
  exists c w' t,
    BatchUpdate.run batchStore batchFlags
      (zeroCounters, {| files := threeFilesContent; trace := [] |})
    = (Ok tt, (c, w'))
    /\ trace w'
       = [] ++ t
           ++ Log (MsgSummary (BatchUpdate.processed c) 3
                     (BatchUpdate.updated c) (BatchUpdate.created c)
                     (BatchUpdate.skipped c) (BatchUpdate.errors c))
           :: (if Nat.eqb (BatchUpdate.errors c) 0 && Nat.eqb (BatchUpdate.skipped c) 0
               then [Log MsgAllProcessed]
               else if (0 <? BatchUpdate.errors c)%nat
                    then [Warn (MsgCompletedWithErrors (BatchUpdate.errors c))]
                    else []).
Proof.
  apply (batch_verdict batchStore batchFlags zeroCounters
           {| files := threeFilesContent; trace := [] |} threeFiles
           eq_refl eq_refl eq_refl ltac:(discriminate)).
Defined.

(** X11. [BatchUpdate.run] throws only before its loop: when the
    resolved path does not exist or is no directory, or when
    [findMarkdownFiles] throws, which is not caught (a pattern that
    [new RegExp] rejects, a directory that cannot be listed). A failure on a
    file (the file cannot be read, the store rejects a call, the write
    fails) is counted and never ends the run. A run that throws has only
    logged: the files are as they were and no call was made. *)
Theorem batch_throws_only_for_directory (E : env) (flags : BatchUpdate.Flags)
  (c0 : BatchUpdate.Counters) (w : world) :
  let dir := BatchUpdate.resolvePath E (BatchUpdate.directory flags) in
  let r := BatchUpdate.run E flags (c0, w) in
  fst r = (if negb (dirExists E dir) then Thrown (ErrDirectoryNotFound dir)
           else if negb (isDirectory E dir) then Thrown (ErrNotADirectory dir)
           else match findMarkdownFiles E dir (BatchUpdate.recursive flags)
                        (BatchUpdate.pattern flags) with
                | None => Thrown (ErrListing dir (BatchUpdate.pattern flags))
                | Some _ => Ok tt
                end)
  /\ (forall e, fst r = Thrown e ->
        files (snd (snd r)) = files w
        /\ exists t, trace (snd (snd r)) = trace w ++ t /\ forallb isLine t = true).
Proof.
  intros dir r.
  destruct (run_cases E flags) as [(fs & Hde & Hdi & Hl & Hfs)|Hc].
  - destruct (run_listed E flags c0 w fs Hde Hdi Hl Hfs) as (c & w' & t & Hr & _).
    subst r. fold dir in Hde, Hdi, Hl. rewrite Hr, Hde, Hdi, Hl.
    split; [reflexivity|]. intros e He. discriminate He.
  - destruct (run_refused E flags c0 w Hc) as (Ho & Hf & Ht).
    split; [exact Ho|]. intros e _. split; [exact Hf|exact Ht].
Qed.

(** X12. A dry run changes nothing: whatever the files and the store,
    the run only logs; it makes no call to the store, writes no file and
    leaves every file as it was. *)
Theorem batch_dry_run_is_silent (E : env) (flags : BatchUpdate.Flags)
  (c0 : BatchUpdate.Counters) (w : world) :
  BatchUpdate.dry_run flags = true ->
  let r := BatchUpdate.run E flags (c0, w) in
  files (snd (snd r)) = files w
  /\ exists t, trace (snd (snd r)) = trace w ++ t /\ forallb isLine t = true.
Proof.
  intros Hdry r.
  destruct (run_cases E flags) as [(fs & Hde & Hdi & Hl & Hfs)|Hc].
  - destruct (run_listed E flags c0 w fs Hde Hdi Hl Hfs)
      as (c & w' & t & Hr & _ & _ & Tr & _ & D).
    destruct (D Hdry) as [L F]. subst r. rewrite Hr. cbn [fst snd].
    split; [exact F|]. rewrite Tr. eexists. split; [reflexivity|].
    rewrite forallb_app, L. cbn [forallb isLine andb]. unfold verdict.
    destruct (Nat.eqb (BatchUpdate.errors c) 0 && Nat.eqb (BatchUpdate.skipped c) 0);
      [reflexivity|]. destruct (0 <? BatchUpdate.errors c); reflexivity.
  - destruct (run_refused E flags c0 w Hc) as (_ & Hf & Ht). split; [exact Hf|exact Ht].
Qed.

Lemma batch_dry_run_is_silent_witness :
  let r := BatchUpdate.run batchStore dryRunFlags
             (zeroCounters, {| files := threeFilesContent; trace := [] |}) in
  BatchUpdate.dry_run dryRunFlags = true
  /\ files (snd (snd r)) = threeFilesContent
  /\ exists t, trace (snd (snd r)) = [] ++ t /\ forallb isLine t = true.
Proof.
  cbv zeta. split; [reflexivity|].
  apply (batch_dry_run_is_silent batchStore dryRunFlags zeroCounters
           {| files := threeFilesContent; trace := [] |} eq_refl).
Defined.

(** X13. In a batch, every file write carries exactly the text of the
    last call before it, and that call was an [add-text] or a [create] that
    succeeded: what is written back is what the store was given. *)
Theorem batch_writes_what_it_sent (E : env) (flags : BatchUpdate.Flags)
  (c0 : BatchUpdate.Counters) (files0 : path -> option jsstring) :
  writesMatch None
    (trace (snd (snd (BatchUpdate.run E flags
                        (c0, {| files := files0; trace := [] |}))))) = true.
Proof.
  set (w := {| files := files0; trace := [] |}).
  destruct (run_cases E flags) as [(fs & Hde & Hdi & Hl & Hfs)|Hc].
  - destruct (run_listed E flags c0 w fs Hde Hdi Hl Hfs)
      as (c & w' & t & Hr & _ & _ & Tr & Mt & _).
    rewrite Hr. cbn [fst snd]. rewrite Tr. cbn [trace w app].
    apply writesMatch_app; [exact Mt|]. apply lines_match. unfold verdict.
    destruct (Nat.eqb (BatchUpdate.errors c) 0 && Nat.eqb (BatchUpdate.skipped c) 0);
      [reflexivity|]. destruct (0 <? BatchUpdate.errors c); reflexivity.
  - destruct (run_refused E flags c0 w Hc) as (_ & _ & t & Ht & Hl).
    rewrite Ht. cbn [trace w app]. apply lines_match, Hl.
Qed.

(** ** The writes of [Create.run] *)

Lemma writesMatch_snoc t e : forall s,
  writesMatch s (t ++ [e])
  = writesMatch s t
    && match e with
       | FileWrite _ c =>
           match fold_left sentAfter t s with
           | Some c' => jsstring_eqb c c'
           | None => false
           end
       | _ => true
       end.
Proof.
  induction t as [|x t IH]; intros s; cbn [app writesMatch fold_left].
  - rewrite andb_true_r. reflexivity.
  - rewrite IH, andb_assoc. reflexivity.
Qed.

Lemma matching_stable t e :
  writesMatch None t = true -> noWrite e -> writesMatch None (t ++ [e]) = true.
Proof.
  intros H He. rewrite writesMatch_snoc, H. destruct e; try contradiction; reflexivity.
Qed.

Lemma sentText_stable c t e : sentText c t -> carries c e -> sentText c (t ++ [e]).
Proof.
  intros [H1 H2] He. unfold sentText.
  rewrite writesMatch_snoc, fold_left_app, H1, H2. cbn [fold_left].
  destruct e as [m|m|r res|p c']; cbn [carries sentAfter] in *; try contradiction;
    [split; reflexivity..|].
  subst c'. rewrite jsstring_eqb_refl. split; reflexivity.
Qed.

Lemma sentText_matching c t : sentText c t -> writesMatch None t = true.
Proof. intros [H _]. exact H. Qed.

(** A mutating call with text [c]: once it has succeeded, [c] may be
    written. *)
Lemma hoare_sends (E : env) (r : request) (c : jsstring) :
  isMutationb r = true -> reqText r = Some c ->
  hoare (fun t => writesMatch None t = true) (bearExec E r)
    (fun _ => sentText c) (fun t => writesMatch None t = true).
Proof.
  intros Hr Hc. apply hoare_bearExec.
  - intros t resp Ht. unfold sentText.
    rewrite writesMatch_snoc, fold_left_app, Ht. cbn. rewrite Hr. auto.
  - intros t Ht. apply matching_stable; [exact Ht|exact I].
Qed.

Ltac sent_steps c :=
  repeat first
    [ eapply keeps_bind with (R1 := fun _ => True); [|intros ? _]
    | apply (keeps_log (sentText c) (carries c) (sentText_stable c)); exact I
    | apply (keeps_writeFileSync (sentText c) (carries c) (sentText_stable c));
      reflexivity
    | apply keeps_when
    | apply keeps_tryCatch; [|intros ?]
    | apply keeps_ret; exact I ].

Lemma sent_hoare (A : Type) (c : jsstring) (k : M world A) :
  keeps (sentText c) k (fun _ => True) ->
  hoare (sentText c) k (fun _ t => writesMatch None t = true)
    (fun t => writesMatch None t = true).
Proof.
  intros K. eapply hoare_conseq; [exact K|auto| |].
  - intros a t [H _]. apply (sentText_matching c), H.
  - apply sentText_matching.
Qed.

Ltac matching_log :=
  apply hoare_emit; intros t Ht; apply matching_stable; [exact Ht|exact I].

Lemma create_updateExistingNote_sends (E : env) noteId content flags :
  hoare (fun t => writesMatch None t = true)
    (Create.updateExistingNote E noteId content flags)
    (fun _ t => writesMatch None t = true) (fun t => writesMatch None t = true).
Proof.
  unfold Create.updateExistingNote, Create.writeBackToFile. cbv zeta.
  eapply hoare_bind with (Q1 := fun _ t => writesMatch None t = true);
    [matching_log|intros ?].
  eapply hoare_bind; [apply hoare_sends; reflexivity|intros ?].
  apply sent_hoare.
  match goal with |- keeps (sentText ?c) _ _ => sent_steps c end.
Qed.

Lemma matching_argsWithPipe E received required :
  hoare (fun t => writesMatch None t = true) (argsWithPipe E received required)
    (fun _ t => writesMatch None t = true) (fun t => writesMatch None t = true).
Proof.
  pose proof (keeps_argsWithPipe (fun t => writesMatch None t = true) E received required) as K.
  eapply hoare_conseq; [exact K|auto|intros a t [H _]; exact H|auto].
Qed.

Lemma create_run_sends (E : env) flags cmdArgs :
  hoare (fun t => writesMatch None t = true) (Create.run E flags cmdArgs)
    (fun _ t => writesMatch None t = true) (fun t => writesMatch None t = true).
Proof.
  set (P := fun t => writesMatch None t = true).
  unfold Create.run.
  eapply hoare_bind; [apply matching_argsWithPipe|intros args]. fold P.
  eapply hoare_bind with (Q1 := fun _ => P).
  { destruct (truthy (Create.content_file flags)); [|apply hoare_ret; auto].
    eapply hoare_tryCatch with (X1 := P); [|intros _; apply hoare_throw; auto]. cbv zeta.
    eapply hoare_bind with (Q1 := fun _ => P); [apply hoare_existsSync|intros found].
    eapply hoare_bind with (Q1 := fun _ => P);
      [destruct (negb found); [apply hoare_throw|apply hoare_ret]; auto|intros ?].
    eapply hoare_bind with (Q1 := fun _ => P); [apply hoare_readFileSync|intros content].
    eapply hoare_bind with (Q1 := fun _ => P); [matching_log|intros ?].
    apply hoare_ret. auto. }
  intros text. cbv zeta.
  destruct (truthy (if truthy text then Create.detectNoteId (orEmpty text) else None)).
  - eapply hoare_bind with (Q1 := fun _ => P); [matching_log|intros ?].
    eapply hoare_bind with (Q1 := fun _ => P); [matching_log|intros ?].
    apply create_updateExistingNote_sends.
  - eapply hoare_bind with (Q1 := fun _ => P).
    { destruct (truthy (Create.file flags)); [|apply hoare_ret; auto]. cbn [when].
      eapply hoare_tryCatch with (X1 := P); [|intros _; apply hoare_throw; auto].
      eapply hoare_bind with (Q1 := fun _ => P); [apply hoare_readFileSync|intros ?].
      apply hoare_ret. auto. }
    intros _.
    eapply hoare_bind with (Q1 := fun _ => P); [matching_log|intros ?].
    eapply hoare_bind with (Q1 := fun _ => P).
    { apply hoare_bearExec; intros; apply matching_stable; auto; exact I. }
    intros result.
    eapply hoare_bind with (Q1 := fun _ => P); [matching_log|intros ?].
    eapply hoare_bind with (Q1 := fun _ => P); [|intros ?; matching_log].
    destruct ((Create.creation_date flags || Create.add_id flags)
              && truthy (Some (identifier result))); [|apply hoare_ret; auto].
    cbn [when]. cbv zeta.
    eapply hoare_bind with (Q1 := fun _ => P); [matching_log|intros ?].
    eapply hoare_bind; [apply hoare_sends; reflexivity|intros ?].
    apply sent_hoare. unfold Create.writeBackToFile. cbv zeta.
    match goal with |- keeps (sentText ?c) _ _ => sent_steps c end.
Qed.

(** X14. The same holds of [Create.run], on both of its paths (a new
    note, or an update when the text carries a marker): every file write
    carries the text of the last call before it, a mutating call that
    succeeded. *)
Theorem create_writes_what_it_sent (E : env) (flags : Create.Flags)
  (cmdArgs : option jsstring) (files0 : path -> option jsstring) :
  writesMatch None
    (trace (snd (Create.run E flags cmdArgs {| files := files0; trace := [] |}))) = true.
Proof.
  pose proof (create_run_sends E flags cmdArgs {| files := files0; trace := [] |} eq_refl) as H.
  destruct (Create.run E flags cmdArgs _) as [[[]|e] w']; exact H.
Qed.

(** ** What the commands never send *)

Ltac each_steps Good :=
  repeat first
    [ eapply keeps_bind with (R1 := fun _ => True); [|intros ? _]
    | apply (keeps_log (Forall Good) Good (Forall_snoc event Good))
    | apply (keeps_writeFileSync (Forall Good) Good (Forall_snoc event Good))
    | apply (keeps_bearExec (Forall Good) Good (Forall_snoc event Good)); intros ?
    | apply keeps_when
    | apply keeps_tryCatch; [|intros ?]
    | apply keeps_existsSync
    | apply keeps_readFileSync
    | apply keeps_argsWithPipe
    | apply keeps_throw
    | apply keeps_ret; exact I ].

Lemma detect_falsy text :
  truthy (if truthy text then Create.detectNoteId (orEmpty text) else None) = false ->
  Create.detectNoteId (orEmpty text) = None.
Proof.
  destruct text as [[|c s]|]; cbn [truthy orEmpty]; try (intros _; vm_compute; reflexivity).
  destruct (Create.detectNoteId (c :: s)) as [x|] eqn:Ed; [|reflexivity].
  rewrite (detect_truthy _ _ Ed). discriminate.
Qed.

Lemma create_run_unmarked (E : env) flags cmdArgs :
  keeps (Forall unmarkedCreate) (Create.run E flags cmdArgs) (fun _ => True).
Proof.
  unfold Create.run, Create.updateExistingNote, Create.writeBackToFile.
  eapply keeps_bind with (R1 := fun _ => True); [each_steps unmarkedCreate|intros args _].
  eapply keeps_bind with (R1 := fun _ => True).
  { destruct (truthy (Create.content_file flags)); each_steps unmarkedCreate; exact I. }
  intros text _. cbv zeta.
  destruct (truthy (if truthy text then Create.detectNoteId (orEmpty text) else None)) eqn:Ht.
  - each_steps unmarkedCreate; try exact I. cbn. discriminate.
  - apply detect_falsy in Ht.
    each_steps unmarkedCreate; try exact I.
    + cbn. intros _. exact Ht.
    + cbn. discriminate.
Qed.

(** X15. [Create.run] never creates a note from a text that carries an
    identity marker: in every [create] call of a run, [detectNoteId] finds
    nothing in the text sent. *)
Theorem create_never_creates_from_marked_text (E : env) (flags : Create.Flags)
  (cmdArgs : option jsstring) (files0 : path -> option jsstring) :
  Forall unmarkedCreate
    (trace (snd (Create.run E flags cmdArgs {| files := files0; trace := [] |}))).
Proof.
  pose proof (create_run_unmarked E flags cmdArgs {| files := files0; trace := [] |}
                (Forall_nil _)) as H.
  destruct (Create.run E flags cmdArgs _) as [[[]|e] w']; [exact (proj1 H)|exact H].
Qed.

Lemma update_run_named (E : env) flags cmdArgs :
  keeps (Forall namedUpdate) (UpdateText.run E flags cmdArgs) (fun _ => True).
Proof.
  unfold UpdateText.run, UpdateText.getNoteContent, UpdateText.findNoteBySearch,
    UpdateText.writeBackToFile.
  do 2 (eapply keeps_bind with (R1 := fun _ => True);
        [each_steps namedUpdate; exact I|intros ? _]).
  eapply keeps_bind with (R1 := fun _ => True).
  { destruct (truthy (UpdateText.content_file flags)); each_steps namedUpdate. }
  intros args _.
  eapply keeps_bind with (R1 := fun _ => True).
  { destruct (truthy (UpdateText.content_file flags)); each_steps namedUpdate; exact I. }
  intros content _. cbv zeta.
  eapply keeps_bind with (R1 := fun _ => True).
  { destruct (negb (truthy (UpdateText.id flags)) && truthy content);
      [destruct (truthy (UpdateText.detectNoteId (orEmpty content)))|];
      each_steps namedUpdate; exact I. }
  intros noteId _.
  eapply keeps_bind with (R1 := fun _ => True).
  { destruct (negb (truthy noteId) && negb (truthy (UpdateText.title flags))
              && truthy (UpdateText.search_term flags)); [|each_steps namedUpdate].
    eapply keeps_bind with (R1 := fun _ => True).
    - apply keeps_tryCatch; [|intros ?; apply keeps_throw].
      eapply keeps_bind with (R1 := fun _ => True);
        [each_steps namedUpdate; exact I|intros ? _].
      eapply keeps_bind with (R1 := fun _ => True).
      + apply (keeps_bearExec (Forall namedUpdate) namedUpdate (Forall_snoc event namedUpdate)).
        intros res. cbn. discriminate.
      + intros resp _. destruct (notes resp) as [|n [|n2 l]].
        * each_steps namedUpdate; exact I.
        * each_steps namedUpdate.
        * eapply keeps_bind with (R1 := fun _ => True);
            [each_steps namedUpdate; exact I|intros ? _].
          eapply keeps_bind with (R1 := fun _ => True).
          { generalize (combine (seq 1 5) (firstn 5 (n :: n2 :: l))). intros xs.
            induction xs as [|x xs IH]; cbn [forEach]; [each_steps namedUpdate|].
            eapply keeps_bind with (R1 := fun _ => True);
              [each_steps namedUpdate; exact I|intros ? _; exact IH]. }
          intros ? _. each_steps namedUpdate; exact I.
    - intros [[foundId foundTitle]|] _; each_steps namedUpdate; exact I. }
  intros found _.
  destruct (negb (truthy (fst found)) && negb (truthy (snd found))) eqn:Hn.
  { eapply keeps_bind with (R1 := fun _ => False); [apply keeps_throw|intros ? []]. }
  eapply keeps_bind with (R1 := fun _ => True); [each_steps namedUpdate|intros ? _].
  eapply keeps_bind with (R1 := fun _ => True).
  { apply keeps_when.
    eapply keeps_bind with (R1 := fun _ => True).
    - apply keeps_tryCatch; [|intros ?; each_steps namedUpdate; exact I].
      eapply keeps_bind with (R1 := fun _ => True); [|intros ? _; each_steps namedUpdate].
      apply (keeps_bearExec (Forall namedUpdate) namedUpdate (Forall_snoc event namedUpdate)).
      intros res. cbn. discriminate.
    - intros currentContent _. cbv zeta.
      eapply keeps_bind with (R1 := fun _ => True).
      + destruct (truthy (UpdateText.detectNoteId currentContent)
                  && negb (jsstring_eqb (orEmpty (UpdateText.detectNoteId currentContent))
                             (orEmpty (fst found))));
          [|destruct (truthy (UpdateText.detectNoteId currentContent)
                      && jsstring_eqb (orEmpty (UpdateText.detectNoteId currentContent))
                           (orEmpty (fst found)))];
          each_steps namedUpdate; exact I.
      + intros ? _. each_steps namedUpdate; exact I. }
  intros ? _.
  eapply keeps_bind with (R1 := fun _ => True).
  { destruct (truthy content); each_steps namedUpdate; exact I. }
  intros content' _. cbv zeta.
  eapply keeps_bind with (R1 := fun _ => True); [each_steps namedUpdate; exact I|intros ? _].
  eapply keeps_bind with (R1 := fun _ => True).
  { apply (keeps_bearExec (Forall namedUpdate) namedUpdate (Forall_snoc event namedUpdate)).
    intros res. cbn. intros _.
    destruct (truthy (fst found)); [reflexivity|]. destruct (truthy (snd found)); [reflexivity|].
    discriminate Hn. }
  intros response _.
  eapply keeps_bind with (R1 := fun _ => True); [each_steps namedUpdate; exact I|intros ? _].
  eapply keeps_bind with (R1 := fun _ => True); [|intros ? _; each_steps namedUpdate; exact I].
  destruct (UpdateText.view_updated flags); each_steps namedUpdate; exact I.
Qed.

(** X16. [UpdateText.run] never sends an [add-text] call that names no
    note: every such call carries a non-empty identifier or a non-empty
    title. *)
Theorem update_always_names_its_note (E : env) (flags : UpdateText.Flags)
  (cmdArgs : option jsstring) (files0 : path -> option jsstring) :
  Forall namedUpdate
    (trace (snd (UpdateText.run E flags cmdArgs {| files := files0; trace := [] |}))).
Proof.
  pose proof (update_run_named E flags cmdArgs {| files := files0; trace := [] |}
                (Forall_nil _)) as H.
  destruct (UpdateText.run E flags cmdArgs _) as [[[]|e] w']; [exact (proj1 H)|exact H].
Qed.

(** ** The identifier that [UpdateText.run] takes from the body *)

Lemma preparing_announces x t : Forall preparing t -> Forall (announces x) t.
Proof. apply Forall_impl. intros [[]| | |]; cbn; tauto. Qed.

Lemma preparing_unannounced t : Forall preparing t -> Forall unannounced t.
Proof. apply Forall_impl. intros [[]| | |]; cbn; tauto. Qed.

Lemma forEach_lines (Good : event -> Prop) (A : Type) (f : A -> message) :
  (forall a, Good (Log (f a))) ->
  forall xs, keeps (Forall Good) (forEach xs (fun a => log (f a))) (fun _ => True).
Proof.
  intros Hf xs. induction xs as [|x xs IH]; cbn [forEach]; [each_steps Good|].
  eapply keeps_bind with (R1 := fun _ => True); [|intros ? _; exact IH].
  apply (keeps_log (Forall Good) Good (Forall_snoc event Good)). apply Hf.
Qed.

Section Embedded.

Variable E : env.
Variable flags : UpdateText.Flags.

Lemma check_unannounced (noteId : option jsstring) :
  keeps (Forall unannounced)
    (when (truthy noteId)
       (currentContent <- UpdateText.getNoteContent E (orEmpty noteId) ;;
        let detectedId := UpdateText.detectNoteId currentContent in
        (if truthy detectedId
            && negb (jsstring_eqb (orEmpty detectedId) (orEmpty noteId)) then
           log (MsgMismatchEmbedded (orEmpty detectedId)) ;;
           log (MsgMismatchCurrent (orEmpty noteId)) ;;
           log MsgIdsDontMatch ;;
           when (negb (UpdateText.no_confirm flags))
             (log MsgConsiderEmbedded ;; log MsgContinuingWithCurrent)
         else if truthy detectedId
                 && jsstring_eqb (orEmpty detectedId) (orEmpty noteId) then
           log MsgConfirmedMatching
         else ret tt) ;;
        when (negb (UpdateText.no_confirm flags) && truthy (Some currentContent))
          (log MsgPreviewHeader ;;
           log MsgRule ;;
           log (MsgPreview (firstn 200 currentContent
                              ++ (if (200 <? length currentContent)%nat
                                  then str "..." else []))) ;;
           log MsgRule)))%monad
    (fun _ => True).
Proof.
  apply keeps_when. unfold UpdateText.getNoteContent.
  eapply keeps_bind with (R1 := fun _ => True);
    [each_steps unannounced; exact I|intros currentContent _]. cbv zeta.
  eapply keeps_bind with (R1 := fun _ => True).
  - destruct (truthy (UpdateText.detectNoteId currentContent)
              && negb (jsstring_eqb (orEmpty (UpdateText.detectNoteId currentContent))
                         (orEmpty noteId)));
      [|destruct (truthy (UpdateText.detectNoteId currentContent)
                  && jsstring_eqb (orEmpty (UpdateText.detectNoteId currentContent))
                       (orEmpty noteId))];
      each_steps unannounced; exact I.
  - intros ? _. each_steps unannounced; exact I.
Qed.

Lemma check_announces (x : jsstring) :
  keeps (Forall (announces x))
    (when true
       (currentContent <- UpdateText.getNoteContent E x ;;
        let detectedId := UpdateText.detectNoteId currentContent in
        (if truthy detectedId
            && negb (jsstring_eqb (orEmpty detectedId) x) then
           log (MsgMismatchEmbedded (orEmpty detectedId)) ;;
           log (MsgMismatchCurrent x) ;;
           log MsgIdsDontMatch ;;
           when (negb (UpdateText.no_confirm flags))
             (log MsgConsiderEmbedded ;; log MsgContinuingWithCurrent)
         else if truthy detectedId
                 && jsstring_eqb (orEmpty detectedId) x then
           log MsgConfirmedMatching
         else ret tt) ;;
        when (negb (UpdateText.no_confirm flags) && truthy (Some currentContent))
          (log MsgPreviewHeader ;;
           log MsgRule ;;
           log (MsgPreview (firstn 200 currentContent
                              ++ (if (200 <? length currentContent)%nat
                                  then str "..." else []))) ;;
           log MsgRule)))%monad
    (fun _ => True).
Proof.
  apply keeps_when. unfold UpdateText.getNoteContent.
  eapply keeps_bind with (R1 := fun _ => True);
    [each_steps (announces x); first [exact I|reflexivity]|intros currentContent _]. cbv zeta.
  eapply keeps_bind with (R1 := fun _ => True).
  - destruct (truthy (UpdateText.detectNoteId currentContent)
              && negb (jsstring_eqb (orEmpty (UpdateText.detectNoteId currentContent)) x));
      [|destruct (truthy (UpdateText.detectNoteId currentContent)
                  && jsstring_eqb (orEmpty (UpdateText.detectNoteId currentContent)) x)];
      each_steps (announces x); exact I.
  - intros ? _. each_steps (announces x); exact I.
Qed.

Ltac ustep := eapply keeps_bind with (R1 := fun _ => True);
              [each_steps unannounced; try exact I|intros ? _].
Ltac astep x := eapply keeps_bind with (R1 := fun _ => True);
                [each_steps (announces x); try exact I|intros ? _].

Lemma search_unannounced (term : jsstring) :
  keeps (Forall unannounced) (UpdateText.findNoteBySearch E term) (fun _ => True).
Proof.
  unfold UpdateText.findNoteBySearch.
  apply keeps_tryCatch; [|intros ?; apply keeps_throw].
  ustep. eapply keeps_bind with (R1 := fun _ => True); [each_steps unannounced; exact I|].
  intros resp _. destruct (notes resp) as [|n [|n2 l]].
  - each_steps unannounced; exact I.
  - each_steps unannounced.
  - ustep. eapply keeps_bind with (R1 := fun _ => True).
    + apply (forEach_lines unannounced _ (fun ix => MsgSearchResult (fst ix) (snd (snd ix)))).
      intros ?. exact I.
    + intros ? _. each_steps unannounced; exact I.
Qed.

Lemma update_run_announced cmdArgs :
  hoare (Forall preparing) (UpdateText.run E flags cmdArgs)
    (fun _ => embeddedUsed flags) (embeddedUsed flags).
Proof.
  unfold UpdateText.run.
  assert (Hpre : forall t, Forall preparing t -> embeddedUsed flags t).
  { intros t Ht. right. apply preparing_unannounced, Ht. }
  do 2 (eapply hoare_bind with (Q1 := fun _ => Forall preparing) (X := embeddedUsed flags);
        [apply hoare_emit; intros t Ht; apply Forall_snoc; [exact Ht|exact I]|intros ?]).
  eapply hoare_bind with (Q1 := fun _ => Forall preparing).
  { eapply hoare_conseq with (Q' := fun a t => Forall preparing t /\ True)
                             (X' := Forall preparing) (P' := Forall preparing);
      [|auto|intros ? t [H _]; exact H|exact Hpre].
    fold (keeps (Forall preparing)
            (if truthy (UpdateText.content_file flags) then ret cmdArgs
             else argsWithPipe E cmdArgs false) (fun _ => True)).
    destruct (truthy (UpdateText.content_file flags)); each_steps preparing. }
  intros args.
  eapply hoare_bind with (Q1 := fun _ => Forall preparing).
  { eapply hoare_conseq with (Q' := fun a t => Forall preparing t /\ True)
                             (X' := Forall preparing) (P' := Forall preparing);
      [|auto|intros ? t [H _]; exact H|exact Hpre].
    match goal with |- hoare _ ?c _ _ =>
      fold (keeps (Forall preparing) c (fun _ => True)) end.
    destruct (truthy (UpdateText.content_file flags)); each_steps preparing; exact I. }
  intros content. cbv zeta.
  destruct (negb (truthy (UpdateText.id flags)) && truthy content) eqn:C1;
    [destruct (UpdateText.detectNoteId (orEmpty content)) as [x|] eqn:C2|].
  - (* the identifier of the body *)
    pose proof (detect_truthy _ _ C2) as Hx. rewrite Hx.
    apply andb_true_iff in C1 as [C1 _]. apply negb_true_iff in C1.
    eapply hoare_conseq with (Q' := fun a t => Forall (announces x) t /\ True)
                             (X' := Forall (announces x)) (P' := Forall (announces x));
      [|apply preparing_announces|intros ? t [H _]; left; exists x; split; assumption
       |intros t H; left; exists x; split; assumption].
    match goal with |- hoare _ ?c _ _ =>
      fold (keeps (Forall (announces x)) c (fun _ => True)) end.
    eapply keeps_bind with (R1 := fun a => a = Some x).
    { eapply keeps_bind with (R1 := fun _ => True);
        [each_steps (announces x); reflexivity|intros ? _]. apply keeps_ret. reflexivity. }
    intros noteId ->. rewrite Hx. cbn [negb andb].
    eapply keeps_bind with (R1 := fun a => fst a = Some x); [apply keeps_ret; reflexivity|].
    intros found Hfound. rewrite Hfound, Hx. cbn [negb andb orEmpty].
    astep x. eapply keeps_bind with (R1 := fun _ => True); [apply check_announces|intros ? _].
    eapply keeps_bind with (R1 := fun _ => True).
    { unfold UpdateText.writeBackToFile.
      destruct (truthy content); each_steps (announces x); exact I. }
    intros content' _. cbv zeta.
    astep x.
    eapply keeps_bind with (R1 := fun _ => True);
      [each_steps (announces x); reflexivity|intros response _].
    astep x.
    eapply keeps_bind with (R1 := fun _ => True);
      [|intros ? _; each_steps (announces x); exact I].
    destruct (UpdateText.view_updated flags); each_steps (announces x); exact I.
  - (* no marker in the body *)
    change (truthy (@None jsstring)) with false. cbv iota.
    eapply hoare_conseq with (Q' := fun a t => Forall unannounced t /\ True)
                             (X' := Forall unannounced) (P' := Forall unannounced);
      [|apply preparing_unannounced|intros ? t [H _]; right; exact H
       |intros t H; right; exact H].
    match goal with |- hoare _ ?c _ _ =>
      fold (keeps (Forall unannounced) c (fun _ => True)) end.
    eapply keeps_bind with (R1 := fun _ => True); [apply keeps_ret; exact I|intros noteId _].
    eapply keeps_bind with (R1 := fun _ => True).
    { destruct (negb (truthy noteId) && negb (truthy (UpdateText.title flags))
                && truthy (UpdateText.search_term flags)); [|each_steps unannounced].
      eapply keeps_bind with (R1 := fun _ => True); [apply search_unannounced|].
      intros [[foundId foundTitle]|] _; each_steps unannounced; exact I. }
    intros found _.
    eapply keeps_bind with (R1 := fun _ => True).
    { destruct (negb (truthy (fst found)) && negb (truthy (snd found)));
        each_steps unannounced. }
    intros ? _.
    eapply keeps_bind with (R1 := fun _ => True); [apply check_unannounced|intros ? _].
    eapply keeps_bind with (R1 := fun _ => True).
    { unfold UpdateText.writeBackToFile.
      destruct (truthy content); each_steps unannounced; exact I. }
    intros content' _. cbv zeta.
    ustep. ustep. ustep.
    eapply keeps_bind with (R1 := fun _ => True);
      [|intros ? _; each_steps unannounced; exact I].
    destruct (UpdateText.view_updated flags); each_steps unannounced; exact I.
  - eapply hoare_conseq with (Q' := fun a t => Forall unannounced t /\ True)
                             (X' := Forall unannounced) (P' := Forall unannounced);
      [|apply preparing_unannounced|intros ? t [H _]; right; exact H
       |intros t H; right; exact H].
    match goal with |- hoare _ ?c _ _ =>
      fold (keeps (Forall unannounced) c (fun _ => True)) end.
    eapply keeps_bind with (R1 := fun _ => True); [apply keeps_ret; exact I|intros noteId _].
    eapply keeps_bind with (R1 := fun _ => True).
    { destruct (negb (truthy noteId) && negb (truthy (UpdateText.title flags))
                && truthy (UpdateText.search_term flags)); [|each_steps unannounced].
      eapply keeps_bind with (R1 := fun _ => True); [apply search_unannounced|].
      intros [[foundId foundTitle]|] _; each_steps unannounced; exact I. }
    intros found _.
    eapply keeps_bind with (R1 := fun _ => True).
    { destruct (negb (truthy (fst found)) && negb (truthy (snd found)));
        each_steps unannounced. }
    intros ? _.
    eapply keeps_bind with (R1 := fun _ => True); [apply check_unannounced|intros ? _].
    eapply keeps_bind with (R1 := fun _ => True).
    { unfold UpdateText.writeBackToFile.
      destruct (truthy content); each_steps unannounced; exact I. }
    intros content' _. cbv zeta.
    ustep. ustep. ustep.
    eapply keeps_bind with (R1 := fun _ => True);
      [|intros ? _; each_steps unannounced; exact I].
    destruct (UpdateText.view_updated flags); each_steps unannounced; exact I.
Qed.

End Embedded.

(** X17. When [UpdateText.run] announces that it uses the identifier
    [x] embedded in the body, no [--id] was given, every call to the store
    carries [x], and a run that returns has made its [add-text] call. *)
Theorem embedded_id_is_used (E : env) (flags : UpdateText.Flags)
  (cmdArgs : option jsstring) (files0 : path -> option jsstring) (x : jsstring) :
  let r := UpdateText.run E flags cmdArgs {| files := files0; trace := [] |} in
  In (Log (MsgUsingEmbeddedId x)) (trace (snd r)) ->
  truthy (UpdateText.id flags) = false
  /\ callsSupplied x (trace (snd r))
  /\ (fst r = Ok tt -> addTextDone (trace (snd r))).
Proof.
  intros r Hin.
  pose proof (update_run_announced E flags cmdArgs {| files := files0; trace := [] |}
                (Forall_nil _)) as H.
  pose proof (run_reaches E flags cmdArgs {| files := files0; trace := [] |} I) as R.
  fold r in H, R.
  assert (Hu : embeddedUsed flags (trace (snd r))).
  { destruct r as [[[]|e] w']; exact H. }
  destruct Hu as [(y & Hy & Hid)|Hn].
  - rewrite Forall_forall in Hy. pose proof (Hy _ Hin) as Hxy. cbn in Hxy. subst y.
    split; [exact Hid|]. split.
    + intros q res Hq. exact (Hy _ Hq).
    + intros Ho. destruct r as [[[]|e] w']; [exact R|discriminate Ho].
  - rewrite Forall_forall in Hn. destruct (Hn _ Hin).
Qed.

Lemma embedded_id_is_used_witness :
  let r := UpdateText.run storePlain embeddedFlags (Some bodyBBB)
             {| files := fun _ => None; trace := [] |} in
  In (Log (MsgUsingEmbeddedId (str "BBB"))) (trace (snd r))
  /\ truthy (UpdateText.id embeddedFlags) = false
  /\ callsSupplied (str "BBB") (trace (snd r))
  /\ (fst r = Ok tt -> addTextDone (trace (snd r))).
Proof.
  cbv zeta.
  assert (Hin : In (Log (MsgUsingEmbeddedId (str "BBB")))
                  (trace (snd (UpdateText.run storePlain embeddedFlags (Some bodyBBB)
                                 {| files := fun _ => None; trace := [] |})))).
  { vm_compute. repeat first [left; reflexivity|right]. }
  split; [exact Hin|].
  exact (embedded_id_is_used storePlain embeddedFlags (Some bodyBBB)
           (fun _ => None) (str "BBB") Hin).
Defined.

(** ** The identifier that is written back *)

Lemma strip_bare_prefix b : ~ hasMarker b -> ~ hasMarker (Create.stripExistingFooter b).
Proof.
  intros Hb. rewrite strip_unfold, newlines_normalize.
  rewrite (replace_nomatch _ _ _ (test_footer_bare b Hb)).
  rewrite (replaceAll_nomatch _ _ _ (test_stray_bare b Hb)).
  rewrite replaceAll_anchored by (apply anchored_separator || apply separator_nonempty).
  assert (Hs : ~ hasMarker (replace separatorPattern [] b)).
  { unfold replace. destruct (exec separatorPattern b) as [[[p m] a]|] eqn:Ex; [|exact Hb].
    apply exec_Some in Ex as (-> & Hm & _). rewrite app_nil_l.
    apply matchAt_Some, anchored_separator in Hm. subst a. rewrite app_nil_r in *.
    intros H. apply Hb. apply hasMarker_app_l. exact H. }
  intros H. apply Hs.
  destruct (normalize_prefix (replace separatorPattern [] b)) as (t & _ & Et).
  rewrite Et. apply hasMarker_app_l. exact H.
Qed.

Section CreateRoundTrip.

Variable E : env.
Variable flags : Create.Flags.
Variable cmdArgs : option jsstring.
Variable files0 : path -> option jsstring.
Variables (p text : jsstring) (resp : response).

Hypothesis Hcf : Create.content_file flags = Some p.
Hypothesis Hp : truthy (Some p) = true.
Hypothesis Htilde : startsWithTilde p = false.
Hypothesis Hfile : files0 (resolveReadPath E p) = Some text.
Hypothesis Hbare : Create.detectNoteId text = None.
Hypothesis Hatt : Create.file flags = None.
Hypothesis Hid : Create.add_id flags = true.
Hypothesis Hwb : Create.write_back flags = true.
Hypothesis Hcreate : forall t r, action r = str "create" -> bear E t r = Some resp.
Hypothesis Hadd : forall t r, action r = str "add-text" -> bear E t r <> None.
Hypothesis Hvalid : validId (identifier resp) = true.
Hypothesis Hdate : noLTb (toLocaleString (now E)) = true.
Hypothesis Hw : writable E (resolveReadPath E p) = true.

Lemma read_write_path : resolveWritePath E p = resolveReadPath E p.
Proof. unfold resolveWritePath, resolveReadPath. rewrite Htilde. reflexivity. Qed.

Ltac go := cbn -[Create.detectNoteId Create.stripExistingFooter Create.buildNewNoteFooter
                truthy resolveReadPath resolveWritePath].

Lemma create_run_new_note :
  exists w',
    Create.run E flags cmdArgs {| files := files0; trace := [] |} = (Ok tt, w')
    /\ files w' (resolveReadPath E p)
       = Some (Create.stripExistingFooter text
                 ++ Create.buildNewNoteFooter (identifier resp)
                      (Create.creation_date flags) true (now E)).
Proof.
  unfold Create.run.
  assert (Ha : exists args,
             argsWithPipe E cmdArgs false {| files := files0; trace := [] |}
             = (Ok args, {| files := files0; trace := [] |})).
  { unfold argsWithPipe. destruct (truthy cmdArgs); [eexists; reflexivity|].
    destruct (pipe E); eexists; reflexivity. }
  destruct Ha as (args & Ha). unfold bind at 1. rewrite Ha.
  rewrite Hcf, Hp. cbn [orEmpty].
  unfold bind at 1, tryCatch, bind, existsSync, readFileSync, log, emit, ret. go.
  rewrite Hfile. go. rewrite Hfile. go. rewrite Hbare.
  replace (truthy (if truthy (Some text) then None else None)) with false
    by (destruct (truthy (Some text)); reflexivity).
  rewrite Hatt. change (truthy (@None path)) with false. go.
  unfold bearExec at 1. go. rewrite Hcreate by reflexivity. go.
  pose proof (validId_idToken _ Hvalid) as [Hne _].
  assert (Hti : truthy (Some (identifier resp)) = true).
  { destruct (identifier resp); [congruence|reflexivity]. }
  rewrite Hid, Hwb, Hti, orb_true_r. go.
  unfold bearExec. go.
  match goal with |- context [bear E ?t ?r] =>
    destruct (bear E t r) as [resp'|] eqn:Eb;
      [|exfalso; apply (Hadd t r); [reflexivity|exact Eb]]
  end.
  go. unfold Create.writeBackToFile, tryCatch, bind, writeFileSync, log, emit.
  rewrite read_write_path, Hw. go.
  eexists. split; [reflexivity|]. go. rewrite jsstring_eqb_refl. reflexivity.
Qed.

End CreateRoundTrip.

(** X18. Create, then detect. [Create.run] on a content file without
    marker, with [--add-id] and [--write-back], the calls succeeding and the
    file writable, returns and leaves in the file a text in which
    [detectNoteId] finds the identifier that the store issued for the new
    note (a non-empty token over [[A-F0-9-]]): the next run on the file
    updates that note. *)
Theorem create_embeds_issued_id (E : env) (flags : Create.Flags)
  (cmdArgs : option jsstring) (files0 : path -> option jsstring)
  (p text : jsstring) (resp : response) :
  Create.content_file flags = Some p ->
  truthy (Some p) = true ->
  startsWithTilde p = false ->
  files0 (resolveReadPath E p) = Some text ->
  Create.detectNoteId text = None ->
  Create.file flags = None ->
  Create.add_id flags = true ->
  Create.write_back flags = true ->
  (forall t r, action r = str "create" -> bear E t r = Some resp) ->
  (forall t r, action r = str "add-text" -> bear E t r <> None) ->
  validId (identifier resp) = true ->
  noLTb (toLocaleString (now E)) = true ->
  writable E (resolveReadPath E p) = true ->
  exists w' c',
    Create.run E flags cmdArgs {| files := files0; trace := [] |} = (Ok tt, w')
    /\ files w' (resolveReadPath E p) = Some c'
    /\ Create.detectNoteId c' = Some (identifier resp).
Proof.
  intros Hcf Hp Htilde Hfile Hbare Hatt Hid Hwb Hcreate Hadd Hvalid Hdate Hw.
  destruct (create_run_new_note E flags cmdArgs files0 p text resp
              Hcf Hp Htilde Hfile Hbare Hatt Hid Hwb Hcreate Hadd Hvalid Hw)
    as (w' & Hr & Hf).
  eexists w', _. split; [exact Hr|]. split; [exact Hf|].
  apply footers_detect.
  - apply strip_bare_prefix, detect_None, Hbare.
  - apply validId_idToken, Hvalid.
  - exact Hdate.
Qed.

Lemma create_embeds_issued_id_witness :
  exists w' c',
    Create.run issuingStore createFlags None
      {| files := oneFile (str "/n/a.md") (str "Hello"); trace := [] |} = (Ok tt, w')
    /\ files w' (str "/n/a.md") = Some c'
    /\ Create.detectNoteId c' = Some (str "AB-7").
Proof.
  apply (create_embeds_issued_id issuingStore createFlags None
           (oneFile (str "/n/a.md") (str "Hello")) (str "/n/a.md") (str "Hello")
           {| identifier := str "AB-7"; response_title := str "Hello";
              note := []; notes := [] |});
    try reflexivity; try (vm_compute; reflexivity); intros; discriminate.
Defined.



(** ** The search of [UpdateText] *)

Lemma forEach_log (A : Type) (f : A -> message) : forall xs w,
  forEach xs (fun a => log (f a)) w
  = (Ok tt, {| files := files w; trace := trace w ++ map (fun a => Log (f a)) xs |}).
Proof.
  induction xs as [|x xs IH]; intros w; cbn [forEach map].
  - rewrite app_nil_r. destruct w; reflexivity.
  - unfold bind at 1, log at 1, emit at 1. rewrite IH. cbn [files trace].
    rewrite <- app_assoc. reflexivity.
Qed.

Lemma count_result_lines (xs : list (nat * (jsstring * jsstring))) :
  length (filter isResultLine
            (map (fun ix => Log (MsgSearchResult (fst ix) (snd (snd ix)))) xs))
  = length xs.
Proof. induction xs as [|x xs IH]; cbn; [reflexivity|rewrite IH; reflexivity]. Qed.

(** X20. [findNoteBySearch] throws [ErrSearch] when the call to the
    store fails. Otherwise it returns the first note of the response,
    nothing when there is none; it lists the notes only when there are
    several, and then five at most. *)
Theorem search_takes_first_hit (E : env) (term : jsstring) (w : world) :
  let r := UpdateText.findNoteBySearch E term w in
  match bear E (trace w ++ [Log (MsgSearching term)]) (searchFor term) with
  | None => fst r = Thrown ErrSearch
  | Some resp =>
      fst r = Ok (hd_error (notes resp))
      /\ exists t, trace (snd r) = trace w ++ t
           /\ length (filter isResultLine t)
              = (if (length (notes resp) <=? 1)%nat then 0
                 else Nat.min 5 (length (notes resp)))
  end.
Proof.
  cbv zeta. unfold UpdateText.findNoteBySearch, tryCatch, bind, log, emit, bearExec, when, ret.
  cbn -[forEach combine seq firstn Nat.ltb Nat.leb length Nat.min].
  fold (searchFor term).
  destruct (bear E (trace w ++ [Log (MsgSearching term)]) (searchFor term)) as [resp|];
    [|reflexivity].
  cbn -[forEach combine seq firstn Nat.ltb Nat.leb length Nat.min].
  destruct (notes resp) as [|n [|n2 l]] eqn:En.
  - cbn. split; [reflexivity|]. eexists. split; [rewrite <- !app_assoc; reflexivity|reflexivity].
  - cbn. split; [reflexivity|]. eexists. split; [rewrite <- !app_assoc; reflexivity|reflexivity].
  - rewrite <- En. set (all := notes resp).
    assert (Hlen : length all = S (S (length l))) by (unfold all; rewrite En; reflexivity).
    assert (Hhd : hd_error all = Some n) by (unfold all; rewrite En; reflexivity).
    assert (Hc : length (combine (seq 1 5) (firstn 5 all)) = Nat.min 5 (length all)).
    { rewrite length_combine, length_seq, length_firstn. lia. }
    match goal with |- context [forEach ?xs ?f ?w0] =>
      change (forEach xs f w0)
        with (forEach xs (fun ix => log (MsgSearchResult (fst ix) (snd (snd ix)))) w0);
      rewrite (forEach_log _ (fun ix => MsgSearchResult (fst ix) (snd (snd ix))))
    end.
    cbn -[combine seq firstn Nat.ltb Nat.leb length Nat.min all].
    replace (length all <=? 1) with false by (symmetry; apply Nat.leb_gt; lia).
    destruct (5 <? length all); cbn -[combine seq firstn Nat.min all];
      (split; [rewrite Hhd; reflexivity|]);
      (eexists; split; [rewrite <- !app_assoc; reflexivity|]);
      rewrite !filter_app, !length_app, count_result_lines, Hc;
      cbn [filter isResultLine length]; lia.
Qed.

(** ** The glob of [findMarkdownFiles] *)

Lemma globTest_den r name : globTest r name = true <-> exists s', den r name s'.
Proof.
  unfold globTest. split.
  - destruct (matchAt r name) as [rest|] eqn:Em; [|discriminate].
    intros _. exists rest. apply matchAt_Some, Em.
  - intros (s' & Hd). destruct (matchAt_den _ _ _ Hd) as (rest & ->). reflexivity.
Qed.

Lemma globRegExp_den : forall pattern r,
  globRegExp pattern = Some r ->
  forall name s', den r name s' <-> globMatch pattern name /\ s' = [].
Proof.
  induction pattern as [|c pattern IH]; intros r Hr name s'.
  - injection Hr as <-. cbn [den]. split.
    + intros [-> ->]. split; [constructor|reflexivity].
    + intros [H ->]. inversion H. split; reflexivity.
  - cbn [globRegExp] in Hr.
    destruct (globRegExp pattern) as [r0|] eqn:Er; [|discriminate].
    specialize (IH r0 eq_refl).
    destruct (N.eqb_spec c 42) as [->|Hstar].
    { injection Hr as <-. cbn [den]. split.
      - intros (m & (l & Hl & ->) & Hm). apply IH in Hm as [Hm ->].
        split; [|reflexivity]. constructor; [apply forallb_Forall, Hl|exact Hm].
      - intros [H ->]. inversion H as [|p0 run n0 Hrun Hn|p0 d n0 Hd Hn|p0 d n0 Hd Hn]; subst.
        + exists n0. split; [|apply IH; auto].
          exists run. split; [apply forallb_Forall; assumption|reflexivity].
        + vm_compute in Hd. discriminate Hd. }
    destruct (N.eqb_spec c 46) as [->|Hdot].
    { injection Hr as <-. cbn [den]. split.
      - intros (m & (d & Hd & ->) & Hm). apply IH in Hm as [Hm ->].
        split; [|reflexivity]. constructor; assumption.
      - intros [H ->]. inversion H as [|p0 run n0 Hrun Hn|p0 d n0 Hd Hn|p0 d n0 Hd Hn]; subst.
        + exists n0. split; [|apply IH; auto]. exists d. auto.
        + vm_compute in Hd. discriminate Hd. }
    destruct (isSyntaxCharacter c) eqn:Hc; [discriminate|].
    injection Hr as <-. cbn [den]. split.
    + intros (m & -> & Hm). apply IH in Hm as [Hm ->].
      split; [|reflexivity]. cbn [app]. constructor; assumption.
    + intros [H ->].
      inversion H as [|p0 run n0 Hrun Hn|p0 d n0 Hd Hn|p0 d n0 Hd Hn]; subst; try congruence.
      exists n0. split; [reflexivity|apply IH; auto].
Qed.

(** X21. The reading of a glob by [findMarkdownFiles]: the name
    matches when it can be cut along the glob, a [*] taking any run of
    characters, a [.] any one character (line terminators apart), and any
    other character itself; the whole name must be used. *)
Theorem glob_reading (pattern : jsstring) (r : regex) (name : jsstring) :
  globRegExp pattern = Some r ->
  (globTest r name = true <-> globMatch pattern name).
Proof.
  intros Hr. rewrite globTest_den. split.
  - intros (s' & Hd). apply (globRegExp_den pattern r Hr) in Hd. apply Hd.
  - intros H. exists []. apply (globRegExp_den pattern r Hr). auto.
Qed.

Lemma glob_reading_witness :
  globRegExp (str "test*.md") = Some (Lit (str "t") >> Lit (str "e") >> Lit (str "s")
                                       >> Lit (str "t") >> Star dot >> Cls dot
                                       >> Lit (str "m") >> Lit (str "d") >> Eos)%re
  /\ globTest (Lit (str "t") >> Lit (str "e") >> Lit (str "s")
               >> Lit (str "t") >> Star dot >> Cls dot
               >> Lit (str "m") >> Lit (str "d") >> Eos)%re (str "test-1.md") = true
  /\ globMatch (str "test*.md") (str "test-1.md").
Proof.
  split; [reflexivity|]. split; [vm_compute; reflexivity|].
  apply (glob_reading (str "test*.md") _ (str "test-1.md") eq_refl).
  vm_compute. reflexivity.
Defined.

(** X22. The default pattern [*.md] selects the names that end in
    [md] after at least one more character, whatever that character is: the
    [.] of the glob is read as a wildcard, so [readmd] is selected as well as
    [a.md], and [md] alone is not. *)
Theorem default_pattern_reads_dot_as_wildcard :
  exists r,
    globRegExp (str "*.md") = Some r /\
    forall name,
      globTest r name = true <->
      exists p c, name = p ++ c :: str "md" /\ forallb dot (p ++ [c]) = true.
Proof.
  eexists. split; [reflexivity|]. intros name.
  rewrite globTest_den. cbn [den]. split.
  - intros (s' & m1 & (l & Hl & ->) & m2 & (c & Hc & ->) & m3 & -> & m4 & -> & -> & _).
    exists l, c. split; [reflexivity|].
    rewrite forallb_app. cbn [forallb]. rewrite Hc.
    apply forallb_Forall in Hl. rewrite Hl. reflexivity.
  - intros (p & c & -> & H). rewrite forallb_app in H.
    apply andb_true_iff in H as [Hp Hc]. cbn [forallb] in Hc. rewrite andb_true_r in Hc.
    exists []. eexists. split; [exists p; split; [apply forallb_Forall, Hp|reflexivity]|].
    eexists. split; [exists c; split; [exact Hc|reflexivity]|].
    eexists. split; [reflexivity|]. eexists. split; [reflexivity|]. split; reflexivity.
Qed.

(** ** The order of the listing *)

Lemma stringLt_asym : forall a b, stringLt a b = true -> stringLt b a = false.
Proof.
  induction a as [|x a IH]; intros [|y b]; cbn [stringLt]; try reflexivity; try discriminate.
  destruct (N.ltb_spec x y) as [Hxy|Hxy].
  - intros _. destruct (N.ltb_spec y x); [lia|reflexivity].
  - destruct (N.ltb_spec y x) as [Hyx|Hyx]; [discriminate|]. apply IH.
Qed.

Lemma ascending_insert x : forall l, ascending l = true -> ascending (insertSorted x l) = true.
Proof.
  induction l as [|y l IH]; intros Hl; [reflexivity|].
  cbn [insertSorted]. destruct (stringLt x y) eqn:Hxy.
  - cbn [ascending] in *. rewrite (stringLt_asym _ _ Hxy), Hl. reflexivity.
  - assert (Hl' : ascending l = true).
    { destruct l as [|z l]; [reflexivity|]. cbn [ascending] in Hl.
      apply andb_true_iff in Hl. apply Hl. }
    specialize (IH Hl'). destruct l as [|z l].
    + cbn [insertSorted ascending]. rewrite Hxy. reflexivity.
    + cbn [insertSorted] in *. cbn [ascending] in Hl. apply andb_true_iff in Hl as [Hyz _].
      destruct (stringLt x z).
      * change (negb (stringLt x y) && ascending (x :: z :: l) = true).
        rewrite Hxy, IH. reflexivity.
      * change (negb (stringLt z y) && ascending (z :: insertSorted x l) = true).
        rewrite Hyz, IH. reflexivity.
Qed.

Lemma sort_ascending l : ascending (sort l) = true.
Proof.
  induction l as [|x l IH]; [reflexivity|]. cbn [sort fold_right].
  apply ascending_insert, IH.
Qed.

Lemma insertSorted_perm x : forall l, Permutation (x :: l) (insertSorted x l).
Proof.
  induction l as [|y l IH]; cbn [insertSorted]; [reflexivity|].
  destruct (stringLt x y); [reflexivity|].
  rewrite perm_swap. apply perm_skip, IH.
Qed.

Lemma sort_perm l : Permutation l (sort l).
Proof.
  induction l as [|x l IH]; [reflexivity|]. cbn [sort fold_right].
  rewrite <- insertSorted_perm. apply perm_skip, IH.
Qed.

(** X23. What [findMarkdownFiles] returns is in ascending order of
    code units and holds exactly the paths that the walk has pushed, each as
    often. *)
Theorem listing_is_sorted (E : env) (dir : path) (entries : list dirent)
  (recursive : bool) (pattern : jsstring) (files : list path) :
  Listing.findMarkdownFiles E dir entries recursive pattern = Some (Some files) ->
  ascending files = true
  /\ exists r pushed,
       globRegExp pattern = Some r
       /\ Listing.processDir E recursive r dir entries = Some pushed
       /\ Permutation pushed files.
Proof.
  unfold Listing.findMarkdownFiles.
  destruct (globRegExp pattern) as [r|]; [|discriminate].
  destruct (Listing.processDir E recursive r dir entries) as [pushed|] eqn:Ep;
    [|discriminate].
  intros H. injection H as <-. split; [apply sort_ascending|].
  exists r, pushed. split; [reflexivity|]. split; [exact Ep|]. apply sort_perm.
Qed.

Lemma listing_is_sorted_witness :
  Listing.findMarkdownFiles treeEnv (str "/n") exampleTree true (str "*.md")
  = Some (Some [str "/n/a.md"; str "/n/b.md"; str "/n/readmd"; str "/n/sub/a.md"])
  /\ ascending [str "/n/a.md"; str "/n/b.md"; str "/n/readmd"; str "/n/sub/a.md"] = true.
Proof.
  split; [vm_compute; reflexivity|].
  apply (listing_is_sorted treeEnv (str "/n") exampleTree true (str "*.md")).
  vm_compute. reflexivity.
Defined.

(** ** Directories that are not read *)

Lemma processDir_flat (E : env) (r : regex) (dir : path) : forall entries,
  Listing.processDir E false r dir entries = Some (topLevelMatches E r dir entries).
Proof.
  induction entries as [|e es IH]; [reflexivity|].
  cbn [Listing.processDir topLevelMatches flat_map]. rewrite IH.
  destruct e as [name|name sub|name|name]; cbn [Listing.processEntry andb];
    try reflexivity.
  destruct (globTest r name); reflexivity.
Qed.

Lemma processDir_app (E : env) (rec : bool) (r : regex) (dir : path) : forall es1 es2,
  Listing.processDir E rec r dir (es1 ++ es2)
  = match Listing.processDir E rec r dir es1 with
    | None => None
    | Some pushed =>
        match Listing.processDir E rec r dir es2 with
        | None => None
        | Some more => Some (pushed ++ more)
        end
    end.
Proof.
  induction es1 as [|e es1 IH]; intros es2; cbn [app Listing.processDir].
  - destruct (Listing.processDir E rec r dir es2); reflexivity.
  - rewrite IH. destruct (Listing.processEntry E rec r dir e) as [p1|]; [|reflexivity].
    destruct (Listing.processDir E rec r dir es1) as [p2|]; [|reflexivity].
    destruct (Listing.processDir E rec r dir es2) as [p3|]; [|reflexivity].
    rewrite app_assoc. reflexivity.
Qed.

(** X24. Without [--recursive], [findMarkdownFiles] reads no
    subdirectory: it returns the matching files at the top of the directory,
    sorted, and cannot fail on a directory that cannot be listed. With or
    without [--recursive], the content of a directory whose name begins with
    a dot makes no difference. *)
Theorem listing_skips_directories (E : env) (dir : path) (pattern : jsstring)
  (r : regex) :
  globRegExp pattern = Some r ->
  (forall entries,
     Listing.findMarkdownFiles E dir entries false pattern
     = Some (Some (sort (topLevelMatches E r dir entries))))
  /\ (forall before after name sub sub' recursive,
        startsWithDot name = true ->
        Listing.findMarkdownFiles E dir (before ++ Directory name sub :: after)
          recursive pattern
        = Listing.findMarkdownFiles E dir (before ++ Directory name sub' :: after)
            recursive pattern).
Proof.
  intros Hr. split.
  - intros entries. unfold Listing.findMarkdownFiles. rewrite Hr, processDir_flat. reflexivity.
  - intros before after name sub sub' recursive Hn. unfold Listing.findMarkdownFiles.
    rewrite Hr, !processDir_app. cbn [Listing.processDir Listing.processEntry].
    rewrite Hn. cbn [negb]. rewrite andb_false_r. reflexivity.
Qed.

Lemma listing_skips_directories_witness :
  Listing.findMarkdownFiles treeEnv (str "/n") exampleTree false (str "*.md")
  = Some (Some [str "/n/a.md"; str "/n/b.md"; str "/n/readmd"]).
Proof.
  rewrite (proj1 (listing_skips_directories treeEnv (str "/n") (str "*.md") _ eq_refl)
             exampleTree).
  vm_compute. reflexivity.
Defined.

(** ** A content file that is missing *)

(** X25. A content file that does not exist stops [Create.run] and
    [UpdateText.run] with the error of the [catch] clause, "Error reading
    file", before any call to the store and any write; [UpdateText.run] has
    logged its two lines of flags and arguments by then. *)
Theorem missing_content_file_stops_the_run (E : env) (cmdArgs : option jsstring)
  (files0 : path -> option jsstring) (p : path)
  (cflags : Create.Flags) (uflags : UpdateText.Flags) :
  truthy (Some p) = true ->
  files0 (resolveReadPath E p) = None ->
  Create.content_file cflags = Some p ->
  UpdateText.content_file uflags = Some p ->
  let w := {| files := files0; trace := [] |} in
  Create.run E cflags cmdArgs w = (Thrown ErrReadingFile, w)
  /\ UpdateText.run E uflags cmdArgs w
     = (Thrown ErrReadingFile,
        {| files := files0; trace := [Log MsgFlagsReceived; Log MsgArgsReceived] |}).
Proof.
  intros Hp Hf Hc Hu w. split.
  - unfold Create.run.
    assert (Ha : exists args, argsWithPipe E cmdArgs false w = (Ok args, w)).
    { unfold argsWithPipe. destruct (truthy cmdArgs); [eexists; reflexivity|].
      destruct (pipe E); eexists; reflexivity. }
    destruct Ha as (args & Ha). unfold bind at 1. rewrite Ha, Hc, Hp.
    unfold bind at 1, tryCatch, bind, existsSync. cbn -[resolveReadPath].
    rewrite Hf. reflexivity.
  - unfold UpdateText.run. rewrite Hu, Hp.
    unfold bind, tryCatch, existsSync, log, emit, ret. cbn -[resolveReadPath].
    rewrite Hf. reflexivity.
Qed.

Lemma missing_content_file_stops_the_run_witness :
  Create.run storePlain createFlags None {| files := fun _ => None; trace := [] |}
  = (Thrown ErrReadingFile, {| files := fun _ => None; trace := [] |}).
Proof.
  apply (missing_content_file_stops_the_run storePlain None (fun _ => None)
           (str "/n/a.md") createFlags writeBackFlags);
    reflexivity.
Defined.

